(** * UpcomingPayments: a shallow embedding of the Lightning web component

    The component (force-app/main/default/lwc/upcomingPayments/upcomingPayments.js)
    receives an untyped payload from a wire adapter, maps it to display
    groups, flattens fees and discounts into table rows, formats amounts
    and dates through [Intl], and pages the result three groups at a time.

    The embedding has three layers:
    - [JS]: the part of ECMAScript the component relies on (values,
      truthiness, string and number conversion, [parseInt], [split],
      [join], [slice], property access, exceptions);
    - [JSDate]: the day-number arithmetic behind [new Date(y, m, d)] and
      the calendar fields a formatter reads back;
    - [UpcomingPayments]: the methods of the class, one definition per
      method, under the method's own name. *)

From Stdlib Require Import ZArith NArith List Bool String Ascii Lia.
Import ListNotations.
Open Scope Z_scope.
Set Warnings "-register-all".

(* ================================================================== *)
(** * ECMAScript substrate                                             *)
(* ================================================================== *)

Module JS.

(** ** Strings

    A JavaScript string is a sequence of UTF-16 code units.  [str] injects
    a literal whose characters are all below U+0100. *)

Definition jstring := list N.

Definition str (s : string) : jstring :=
  map N_of_ascii (list_ascii_of_string s).
Arguments str s%_string : simpl never.

Fixpoint jstring_eqb (a b : jstring) : bool :=
  match a, b with
  | [], [] => true
  | x :: a', y :: b' => N.eqb x y && jstring_eqb a' b'
  | _, _ => false
  end.

(** ** Numbers

    A Number is NaN, an infinity, or a finite value.  A finite value is
    carried as a signed decimal [(-1)^neg * mant * 10^exp10]; every
    binary64 value is such a decimal.  The value of a numeric string is
    kept exact: rounding it to binary64 is left to whoever consumes the
    digits (the formatters of [Runtime] below).  Rounding never turns a
    finite value into NaN, which is all the component tests. *)

Inductive number :=
| NaN
| Infinity (neg : bool)
| Finite (neg : bool) (mant : N) (exp10 : Z).

Definition isNaN (n : number) : bool :=
  match n with NaN => true | _ => false end.

Definition pos_zero : number := Finite false 0 0.
Definition one : number := Finite false 1 0.

Definition is_zero (n : number) : bool :=
  match n with Finite _ m _ => N.eqb m 0 | _ => false end.

(** ** Values

    What a wire adapter can deliver: the JSON-like values.  An object is
    its list of own properties in insertion order. *)

Inductive value :=
| VUndef
| VNull
| VBool (b : bool)
| VNum (n : number)
| VStr (s : jstring)
| VArr (elems : list value)
| VObj (fields : list (jstring * value)).

(** ** Completions: a computation returns normally or throws. *)

Inductive result (A : Type) :=
| Ok (a : A)
| Throw.
Arguments Ok {A} a.
Arguments Throw {A}.

Definition bind {A B} (r : result A) (k : A -> result B) : result B :=
  match r with Ok a => k a | Throw => Throw end.

Notation "x <- c ;; k" := (bind c (fun x => k))
  (at level 61, c at next level, right associativity).

Fixpoint mapM {A B} (f : A -> result B) (l : list A) : result (list B) :=
  match l with
  | [] => Ok []
  | x :: r => y <- f x ;; ys <- mapM f r ;; Ok (y :: ys)
  end.

(** [l.forEach(f)] where [f] updates an accumulator: a left fold that
    stops at the first exception. *)
Fixpoint forEach {A B} (f : B -> A -> result B) (l : list A) (acc : B)
  : result B :=
  match l with
  | [] => Ok acc
  | x :: r => acc <- f acc x ;; forEach f r acc
  end.

(** [try c catch h]. *)
Definition try_catch {A} (c : result A) (h : A) : A :=
  match c with Ok a => a | Throw => h end.

(** ** ToBoolean *)

Definition ToBoolean (v : value) : bool :=
  match v with
  | VUndef | VNull => false
  | VBool b => b
  | VNum n => negb (isNaN n || is_zero n)
  | VStr s => match s with [] => false | _ => true end
  | VArr _ | VObj _ => true
  end.

(** [a || b] on values. *)
Definition or_else (a b : value) : value :=
  if ToBoolean a then a else b.

Definition nullish (v : value) : bool :=
  match v with VUndef | VNull => true | _ => false end.

(** [v === 'literal'] *)
Definition strict_eq_str (v : value) (lit : jstring) : bool :=
  match v with VStr s => jstring_eqb s lit | _ => false end.

Definition isArray (v : value) : bool :=
  match v with VArr _ => true | _ => false end.

(** ** Property access

    [v.key]: a TypeError on [undefined] and [null]; the own property of an
    object, or [undefined]; [undefined] on arrays and primitives, none of
    which has an own or inherited property under any name the component
    reads. *)

Fixpoint lookup (key : jstring) (fields : list (jstring * value)) : value :=
  match fields with
  | [] => VUndef
  | (k, v) :: r => if jstring_eqb k key then v else lookup key r
  end.

Definition prop (v : value) (key : jstring) : value :=
  match v with
  | VObj fields => lookup key fields
  | _ => VUndef
  end.

Definition get (v : value) (key : jstring) : result value :=
  if nullish v then Throw else Ok (prop v key).

(** [v?.key] *)
Definition get_opt (v : value) (key : jstring) : value :=
  if nullish v then VUndef else prop v key.

(** ** White space (WhiteSpace and LineTerminator code units) *)

Definition is_space (c : N) : bool :=
  existsb (N.eqb c)
    [9; 10; 11; 12; 13; 32; 160; 5760; 8232; 8233; 8239; 8287; 12288; 65279]%N
  || (N.leb 8192 c && N.leb c 8202).

Fixpoint trim_start (s : jstring) : jstring :=
  match s with
  | c :: r => if is_space c then trim_start r else s
  | [] => []
  end.

Definition trim (s : jstring) : jstring :=
  rev (trim_start (rev (trim_start s))).

(** ** Digits *)

Definition digit_val (radix c : N) : option N :=
  let d :=
    if (N.leb 48 c && N.leb c 57)%bool then Some (c - 48)%N
    else if (N.leb 97 c && N.leb c 122)%bool then Some (c - 87)%N
    else if (N.leb 65 c && N.leb c 90)%bool then Some (c - 55)%N
    else None in
  match d with
  | Some n => if N.ltb n radix then Some n else None
  | None => None
  end.

(** The longest prefix of radix-[radix] digits, and what follows it. *)
Fixpoint span_digits (radix : N) (s : jstring) : list N * jstring :=
  match s with
  | c :: r =>
      match digit_val radix c with
      | Some d => let (ds, rest) := span_digits radix r in (d :: ds, rest)
      | None => ([], s)
      end
  | [] => ([], [])
  end.

Definition digits_value (radix : N) (ds : list N) : N :=
  fold_left (fun acc d => (acc * radix + d)%N) ds 0%N.

(** ** StringToNumber (the grammar StringNumericLiteral) *)

Definition parse_sign (s : jstring) : bool * jstring :=
  match s with
  | 43%N :: r => (false, r)
  | 45%N :: r => (true, r)
  | _ => (false, s)
  end.

Definition parse_exponent (s : jstring) : option Z :=
  match s with
  | [] => Some 0
  | c :: r =>
      if (N.eqb c 101 || N.eqb c 69)%bool then
        let (neg, r1) := parse_sign r in
        match span_digits 10 r1 with
        | ((_ :: _) as ds, []) =>
            let e := Z.of_N (digits_value 10 ds) in
            Some (if neg then - e else e)
        | _ => None
        end
      else None
  end.

Definition parse_unsigned_decimal (neg : bool) (s : jstring) : number :=
  if jstring_eqb s (str "Infinity") then Infinity neg
  else
    let (ip, r1) := span_digits 10 s in
    let (fp, r2) :=
      match r1 with
      | 46%N :: r => span_digits 10 r
      | _ => ([], r1)
      end in
    match ip ++ fp with
    | [] => NaN
    | ds =>
        match parse_exponent r2 with
        | Some e => Finite neg (digits_value 10 ds) (e - Z.of_nat (List.length fp))
        | None => NaN
        end
    end.

Definition parse_radix_literal (radix : N) (s : jstring) : number :=
  match span_digits radix s with
  | ((_ :: _) as ds, []) => Finite false (digits_value radix ds) 0
  | _ => NaN
  end.

Definition StringToNumber (s : jstring) : number :=
  match trim s with
  | [] => pos_zero
  | 48%N :: c :: r =>
      if (N.eqb c 120 || N.eqb c 88)%bool then parse_radix_literal 16 r
      else if (N.eqb c 111 || N.eqb c 79)%bool then parse_radix_literal 8 r
      else if (N.eqb c 98 || N.eqb c 66)%bool then parse_radix_literal 2 r
      else parse_unsigned_decimal false (48%N :: c :: r)
  | t => let (neg, r) := parse_sign t in parse_unsigned_decimal neg r
  end.

(** ** parseInt(s, 10)

    The result is an integer or NaN ([None]).  The sign of a zero is
    dropped: the component only tests the result for truthiness and hands
    it to the Date constructor, which do not tell the zeros apart. *)

Definition parseInt10 (s : jstring) : option Z :=
  let (neg, r) := parse_sign (trim_start s) in
  match span_digits 10 r with
  | ([], _) => None
  | (ds, _) =>
      let n := Z.of_N (digits_value 10 ds) in
      Some (if neg then - n else n)
  end.

(** ** String.prototype.split with a one-code-unit separator *)

Fixpoint split_on (sep : N) (cur : jstring) (s : jstring) : list jstring :=
  match s with
  | [] => [rev cur]
  | c :: r =>
      if N.eqb c sep then rev cur :: split_on sep [] r
      else split_on sep (c :: cur) r
  end.

Definition split (sep : N) (s : jstring) : list jstring := split_on sep [] s.

(** ** Joining strings *)

Fixpoint join_strings (sep : jstring) (l : list jstring) : jstring :=
  match l with
  | [] => []
  | [x] => x
  | x :: r => x ++ sep ++ join_strings sep r
  end.

(** ** Array.prototype.slice(start, end) on integral arguments *)

Definition relative_index (len k : Z) : Z :=
  if k <? 0 then Z.max (len + k) 0 else Z.min k len.

Definition slice {A} (l : list A) (start stop : Z) : list A :=
  let len := Z.of_nat (List.length l) in
  let k := relative_index len start in
  let final := relative_index len stop in
  firstn (Z.to_nat (Z.max (final - k) 0)) (skipn (Z.to_nat k) l).

(** ** ToPrimitive on plain data

    No value of a JSON-like record is callable.  OrdinaryToPrimitive asks
    for [toString] and [valueOf]: the inherited [valueOf] hands the record
    itself back, which is no primitive, so the outcome rests on [toString]
    alone.  A record with an own property of that name hides the inherited
    method behind something that cannot be called, and the conversion ends
    in a TypeError; any other record prints as "[object Object]". *)

Fixpoint has_key (key : jstring) (fields : list (jstring * value)) : bool :=
  match fields with
  | [] => false
  | (k, _) :: r => jstring_eqb k key || has_key key r
  end.

Section Conversions.

(** Number::toString is fixed by the language but works on the binary64
    value; it is taken as given. *)
Variable NumberToString : number -> jstring.

(** ** ToString; an array prints as [join(",")], where [undefined] and
    [null] elements print as the empty string, and the first element that
    cannot be printed ends the conversion. *)
Fixpoint ToString (v : value) : result jstring :=
  match v with
  | VUndef => Ok (str "undefined")
  | VNull => Ok (str "null")
  | VBool true => Ok (str "true")
  | VBool false => Ok (str "false")
  | VNum n => Ok (NumberToString n)
  | VStr s => Ok s
  | VArr elems =>
      parts <- (fix each (l : list value) : result (list jstring) :=
                  match l with
                  | [] => Ok []
                  | e :: r =>
                      s <- match e with
                           | VUndef | VNull => Ok []
                           | _ => ToString e
                           end ;;
                      ss <- each r ;;
                      Ok (s :: ss)
                  end) elems ;;
      Ok (join_strings (str ",") parts)
  | VObj fields =>
      if has_key (str "toString") fields then Throw
      else Ok (str "[object Object]")
  end.

(** Array.prototype.join(sep) *)
Definition join (sep : jstring) (elems : list value) : result jstring :=
  parts <- mapM (fun e => if nullish e then Ok [] else ToString e) elems ;;
  Ok (join_strings sep parts).

(** ** ToNumber; an object or array is first reduced to a primitive,
    which for plain data is its ToString. *)
Definition ToNumber (v : value) : result number :=
  match v with
  | VUndef => Ok NaN
  | VNull => Ok pos_zero
  | VBool true => Ok one
  | VBool false => Ok pos_zero
  | VNum n => Ok n
  | VStr s => Ok (StringToNumber s)
  | VArr _ | VObj _ => s <- ToString v ;; Ok (StringToNumber s)
  end.

End Conversions.

End JS.

(* ================================================================== *)
(** * Calendar arithmetic of the Date object                           *)
(* ================================================================== *)

Module JSDate.

Definition msPerDay : Z := 86400000.

Definition Day (t : Z) : Z := t / msPerDay.

Definition DayFromYear (y : Z) : Z :=
  365 * (y - 1970) + (y - 1969) / 4 - (y - 1901) / 100 + (y - 1601) / 400.

Definition DaysInYear (y : Z) : Z := DayFromYear (y + 1) - DayFromYear y.

(** The year of day number [d]: the largest [y] with [DayFromYear y <= d].
    The mean-year estimate is off by at most one. *)
Definition YearFromDay (d : Z) : Z :=
  let y0 := 1970 + (d * 400) / 146097 in
  if DayFromYear (y0 + 1) <=? d then y0 + 1
  else if DayFromYear y0 <=? d then y0
  else y0 - 1.

Definition YearFromTime (t : Z) : Z := YearFromDay (Day t).

Definition InLeapYear (y : Z) : Z := DaysInYear y - 365.

(** Day numbers, within the year, on which the months start. *)
Definition month_starts (leap : Z) : list Z :=
  [0; 31; 59 + leap; 90 + leap; 120 + leap; 151 + leap; 181 + leap;
   212 + leap; 243 + leap; 273 + leap; 304 + leap; 334 + leap].

Definition DayWithinYear (t : Z) : Z := Day t - DayFromYear (YearFromTime t).

(** The index of the last month that starts on or before day [dwy]. *)
Definition month_index (leap dwy : Z) : Z :=
  Z.of_nat (List.length (filter (fun s => s <=? dwy) (month_starts leap))) - 1.

Definition MonthFromTime (t : Z) : Z :=
  month_index (InLeapYear (YearFromTime t)) (DayWithinYear t).

Definition DateFromTime (t : Z) : Z :=
  let leap := InLeapYear (YearFromTime t) in
  DayWithinYear t
  - nth (Z.to_nat (MonthFromTime t)) (month_starts leap) 0 + 1.

(** MakeDay(year, month, date) on integers. *)
Definition MakeDay (year month date : Z) : Z :=
  let ym := year + month / 12 in
  let mn := month mod 12 in
  DayFromYear ym + nth (Z.to_nat mn) (month_starts (InLeapYear ym)) 0
  + date - 1.

Definition MakeDate (day time : Z) : Z := day * msPerDay + time.

(** TimeClip; [None] is the NaN time value of an invalid Date. *)
Definition TimeClip (t : Z) : option Z :=
  if Z.abs t <=? 8640000000000000 then Some t else None.

(** The years 0 to 99 mean 1900 to 1999. *)
Definition MakeFullYear (y : Z) : Z :=
  if (0 <=? y) && (y <=? 99) then 1900 + y else y.

Section Zone.

(** The offset of local time from UTC, in milliseconds.  One offset
    serves both directions: the zone is taken without a transition
    between the instant a Date is built and the instant it is printed. *)
Variable LocalTZA : Z.

Definition UTC (t : Z) : Z := t - LocalTZA.
Definition LocalTime (t : Z) : Z := t + LocalTZA.

(** [new Date(y, m, d)]: the fields are read as local time.  [y] is NaN
    when [None]; the other two are integers at every call site.
    Components beyond the exactly representable integers differ from
    binary64 arithmetic only on dates that TimeClip rejects anyway. *)
Definition new_Date (y : option Z) (m d : Z) : option Z :=
  match y with
  | None => None
  | Some y =>
      TimeClip (UTC (MakeDate (MakeDay (MakeFullYear y) m d) 0))
  end.

(** The calendar fields of a time value in the local zone, as a
    formatter asked for year, month and day reads them:
    (year, month index from 0, day of month). *)
Definition local_fields (tv : Z) : Z * Z * Z :=
  let t := LocalTime tv in
  (YearFromTime t, MonthFromTime t, DateFromTime t).

(** What [new Date(isoString)] would do with a date-only string instead:
    read the fields as UTC.  Only used to contrast with [new_Date]. *)
Definition Date_of_utc_fields (y m d : Z) : option Z :=
  TimeClip (MakeDate (MakeDay y m d) 0).

End Zone.

End JSDate.

(* ================================================================== *)
(** * The host: what the component reads from its environment          *)
(* ================================================================== *)

Import JS JSDate.

(** [NumberFormat locale currency] is
    [new Intl.NumberFormat(locale, { style: 'currency', currency })]: the
    [format] function of the formatter built, or [None] when the
    constructor throws a RangeError.

    [DateTimeFormat locale] is [new Intl.DateTimeFormat(locale,
    { year: 'numeric', month: 'short', day: 'numeric' })]; its [format]
    prints the three calendar fields of the date in the host's zone, which
    is the zone the Date constructor uses. *)
Record Runtime := {
  NumberToString : number -> jstring;
  navigator_language : jstring;
  LocalTZA : Z;
  NumberFormat : jstring -> jstring -> option (number -> jstring);
  DateTimeFormat : jstring -> option (Z -> Z -> Z -> jstring)
}.

(* ================================================================== *)
(** * View-model records, as the object literals of the source          *)
(* ================================================================== *)

(** The object returned by [mapPaymentMethod]. *)
Module PaymentMethod.
Record t := {
  label : value;
  nickname : value;
  cardType : value;
  endingIn : value;
  expiration : value;
  type : jstring
}.
End PaymentMethod.

(** An element of the array returned by [mapDiscounts]. *)
Module Discount.
Record t := {
  name : value;
  amount : value;
  discountScheduleId : value;
  parentFeeScheduleId : value;
  tliDescription : value
}.
End Discount.

(** An element of the array returned by [mapSectionItems]. *)
Module FeeItem.
Record t := {
  feeName : value;
  feeAmount : value;
  feeScheduleId : value;
  tliDescription : value;
  discounts : list Discount.t
}.
End FeeItem.

(** A row pushed by [buildDetailRows]. *)
Module DetailRow.
Record t := {
  id : jstring;
  description : value;
  type : jstring;
  amount : value;
  recordId : value
}.
End DetailRow.

(** The object [mapped] of [wiredPayments].  The literal creates it
    without [detailRows] and [accordionLabel], which the next two
    statements assign; until then the fields hold an empty placeholder
    that nothing reads. *)
Module Group.
Record t := {
  id : value;
  groupId : value;
  name : value;
  nextDate : value;
  feeTotal : value;
  discountTotal : value;
  netTotal : value;
  paymentMethod : PaymentMethod.t;
  tliDescription : value;
  items : list FeeItem.t;
  miscDiscounts : list Discount.t;
  detailRows : list DetailRow.t;
  accordionLabel : jstring
}.

Definition set_detailRows (rows : list DetailRow.t) (g : t) : t :=
  {| id := id g; groupId := groupId g; name := name g;
     nextDate := nextDate g; feeTotal := feeTotal g;
     discountTotal := discountTotal g; netTotal := netTotal g;
     paymentMethod := paymentMethod g; tliDescription := tliDescription g;
     items := items g; miscDiscounts := miscDiscounts g;
     detailRows := rows; accordionLabel := accordionLabel g |}.

Definition set_accordionLabel (l : jstring) (g : t) : t :=
  {| id := id g; groupId := groupId g; name := name g;
     nextDate := nextDate g; feeTotal := feeTotal g;
     discountTotal := discountTotal g; netTotal := netTotal g;
     paymentMethod := paymentMethod g; tliDescription := tliDescription g;
     items := items g; miscDiscounts := miscDiscounts g;
     detailRows := detailRows g; accordionLabel := l |}.
End Group.

(** The tracked fields of the component instance. *)
Record Component := {
  groups : list Group.t;
  displayedGroups : list Group.t;
  error : value;
  loading : bool;
  activeSectionNames : list jstring;
  pageSize : Z;
  currentPage : Z
}.

Definition set_loading (b : bool) (c : Component) : Component :=
  {| groups := groups c; displayedGroups := displayedGroups c;
     error := error c; loading := b;
     activeSectionNames := activeSectionNames c;
     pageSize := pageSize c; currentPage := currentPage c |}.

Definition set_groups (gs : list Group.t) (c : Component) : Component :=
  {| groups := gs; displayedGroups := displayedGroups c;
     error := error c; loading := loading c;
     activeSectionNames := activeSectionNames c;
     pageSize := pageSize c; currentPage := currentPage c |}.

Definition set_displayedGroups (gs : list Group.t) (c : Component)
  : Component :=
  {| groups := groups c; displayedGroups := gs;
     error := error c; loading := loading c;
     activeSectionNames := activeSectionNames c;
     pageSize := pageSize c; currentPage := currentPage c |}.

Definition set_error (e : value) (c : Component) : Component :=
  {| groups := groups c; displayedGroups := displayedGroups c;
     error := e; loading := loading c;
     activeSectionNames := activeSectionNames c;
     pageSize := pageSize c; currentPage := currentPage c |}.

Definition set_currentPage (p : Z) (c : Component) : Component :=
  {| groups := groups c; displayedGroups := displayedGroups c;
     error := error c; loading := loading c;
     activeSectionNames := activeSectionNames c;
     pageSize := pageSize c; currentPage := p |}.

(** The field initialisers of the class. *)
Definition initial : Component :=
  {| groups := []; displayedGroups := []; error := VUndef; loading := true;
     activeSectionNames := []; pageSize := 3; currentPage := 1 |}.

(** How a method call ends: it returns, or an exception escapes it; either
    way the instance is left in some state. *)
Inductive outcome :=
| Returned (c : Component)
| Threw (c : Component).

Definition state_of (o : outcome) : Component :=
  match o with Returned c | Threw c => c end.

(* ================================================================== *)
(** * The methods of the class                                         *)
(* ================================================================== *)

Definition em_dash : jstring := [8212%N].
Definition middle_dot : N := 183%N.
Definition nbsp : N := 160%N.
Definition hyphen : N := 45%N.

Definition BILL_TO_ACCOUNT : jstring := str "BILL_TO_ACCOUNT".
Definition STORED_ACCOUNT : jstring := str "STORED_ACCOUNT".

Section Methods.

Variable rt : Runtime.

(** [${v}] inside a template literal. *)
Definition subst (v : value) : result jstring :=
  ToString (NumberToString rt) v.

(** [get locale() { return navigator.language || 'en-US'; }] *)
Definition locale : jstring :=
  match navigator_language rt with
  | [] => str "en-US"
  | l => l
  end.

(** [get currency() { return 'USD'; }] *)
Definition currency : jstring := str "USD".

(** ** formatCurrency, formatDiscount *)

Definition formatCurrency (v : value) : result value :=
  num <- match v with
         | VNum n => Ok n
         | _ => ToNumber (NumberToString rt) v
         end ;;
  if isNaN num then Ok v
  else
    match NumberFormat rt locale currency with
    | Some format => Ok (VStr (format num))
    | None =>
        match NumberFormat rt (str "en-US") (str "USD") with
        | Some format => Ok (VStr (format num))
        | None => Throw
        end
    end.

Definition formatDiscount (v : value) : result value :=
  num <- match v with
         | VNum n => Ok n
         | _ => ToNumber (NumberToString rt) v
         end ;;
  if isNaN num then Ok v
  else
    match NumberFormat rt locale currency with
    | Some format => Ok (VStr (format num))
    | None =>
        match NumberFormat rt (str "en-US") (str "USD") with
        | Some format => Ok (VStr (format num))
        | None => Throw
        end
    end.

(** ** formatDate *)

(** [x || 1] on a [parseInt] result or a missing array element. *)
Definition or_one (x : option Z) : Z :=
  match x with
  | Some z => if z =? 0 then 1 else z
  | None => 1
  end.

(** The body of the [try] block. *)
Definition formatDate_try (dateStr : value) : result value :=
  s <- match or_else dateStr (VStr []) with
       | VStr s => Ok s
       | _ => Throw  (* no [split] method *)
       end ;;
  let parts := map parseInt10 (split hyphen s) in
  let y := nth 0 parts None in
  let m := nth 1 parts None in
  let d := nth 2 parts None in
  let local := new_Date (LocalTZA rt) y (or_one m - 1) (or_one d) in
  format <- match DateTimeFormat rt locale with
            | Some f => Ok f
            | None => Throw
            end ;;
  tv <- match local with
        | Some tv => Ok tv
        | None => Throw  (* RangeError: invalid time value *)
        end ;;
  let '(year, month, day) := local_fields (LocalTZA rt) tv in
  Ok (VStr (format year month day)).

Definition formatDate (dateStr : value) : value :=
  try_catch (formatDate_try dateStr) dateStr.

(** ** mapPaymentMethod *)

Definition mapPaymentMethod (pm : value) : result PaymentMethod.t :=
  bill <- (if negb (ToBoolean pm) then Ok true
           else displayType <- get pm (str "displayType") ;;
                Ok (strict_eq_str displayType BILL_TO_ACCOUNT)) ;;
  if (bill : bool) then
    Ok {| PaymentMethod.label := VStr (str "Bill to Account");
          PaymentMethod.nickname := VNull;
          PaymentMethod.cardType := VNull;
          PaymentMethod.endingIn := VNull;
          PaymentMethod.expiration := VNull;
          PaymentMethod.type := BILL_TO_ACCOUNT |}
  else
    nickname <- get pm (str "nickname") ;;
    cardType <- get pm (str "cardType") ;;
    endingIn <- get pm (str "endingIn") ;;
    expiration <- get pm (str "expiration") ;;
    Ok {| PaymentMethod.label := VNull;
          PaymentMethod.nickname := nickname;
          PaymentMethod.cardType := cardType;
          PaymentMethod.endingIn := endingIn;
          PaymentMethod.expiration := expiration;
          PaymentMethod.type := STORED_ACCOUNT |}.

(** ** mapDiscounts, mapSectionItems *)

(** [Array.isArray(x) ? x : []] *)
Definition array_or_empty (v : value) : list value :=
  match v with VArr l => l | _ => [] end.

Definition mapDiscount (d : value) : result Discount.t :=
  name <- get d (str "name") ;;
  raw <- get d (str "amount") ;;
  amount <- formatDiscount raw ;;
  discountScheduleId <- get d (str "discountScheduleId") ;;
  parentFeeScheduleId <- get d (str "parentFeeScheduleId") ;;
  tliDescription <- get d (str "tliDescription") ;;
  Ok {| Discount.name := name;
        Discount.amount := amount;
        Discount.discountScheduleId := discountScheduleId;
        Discount.parentFeeScheduleId := parentFeeScheduleId;
        Discount.tliDescription := tliDescription |}.

Definition mapDiscounts (discounts : value) : result (list Discount.t) :=
  mapM mapDiscount (array_or_empty discounts).

Definition mapSectionItem (it : value) : result FeeItem.t :=
  feeName <- get it (str "feeName") ;;
  raw <- get it (str "feeAmount") ;;
  feeAmount <- formatCurrency raw ;;
  feeScheduleId <- get it (str "feeScheduleId") ;;
  tliDescription <- get it (str "tliDescription") ;;
  ds <- get it (str "discounts") ;;
  discounts <- mapDiscounts ds ;;
  Ok {| FeeItem.feeName := feeName;
        FeeItem.feeAmount := feeAmount;
        FeeItem.feeScheduleId := feeScheduleId;
        FeeItem.tliDescription := tliDescription;
        FeeItem.discounts := discounts |}.

Definition mapSectionItems (items : value) : result (list FeeItem.t) :=
  mapM mapSectionItem (array_or_empty items).

(** ** buildDetailRows

    [rows.push(r)] is [rows ++ [r]]; each [forEach] is a left fold that
    threads [rows] and stops at the first callback that throws.  The
    operands of [group.items || []], [fee.discounts || []] and
    [group.miscDiscounts || []] are arrays here, and an array is truthy.
    A row literal evaluates its template literals before the row
    exists. *)

Definition fee_row (fee : FeeItem.t) : result DetailRow.t :=
  id <- subst (FeeItem.feeScheduleId fee) ;;
  Ok {| DetailRow.id := str "fee-" ++ id;
        DetailRow.description :=
          or_else (or_else (FeeItem.tliDescription fee)
                           (FeeItem.feeName fee))
                  (VStr em_dash);
        DetailRow.type := str "Fee";
        DetailRow.amount := FeeItem.feeAmount fee;
        DetailRow.recordId := FeeItem.feeScheduleId fee |}.

Definition discount_row (prefix : jstring) (disc : Discount.t)
  : result DetailRow.t :=
  id <- subst (Discount.discountScheduleId disc) ;;
  amount <- subst (Discount.amount disc) ;;
  Ok {| DetailRow.id := prefix ++ id;
        DetailRow.description :=
          or_else (or_else (Discount.tliDescription disc)
                           (Discount.name disc))
                  (VStr em_dash);
        DetailRow.type := str "Discount";
        DetailRow.amount := VStr (str "-" ++ amount);
        DetailRow.recordId := Discount.discountScheduleId disc |}.

Definition push {A} (rows : list A) (r : A) : list A := rows ++ [r].

Definition buildDetailRows (group : Group.t) : result (list DetailRow.t) :=
  let rows := [] in
  rows <-
    forEach
      (fun rows fee =>
         r <- fee_row fee ;;
         let rows := push rows r in
         forEach
           (fun rows disc =>
              r <- discount_row (str "disc-") disc ;;
              Ok (push rows r))
           (FeeItem.discounts fee) rows)
      (Group.items group) rows ;;
  rows <-
    forEach
      (fun rows disc =>
         r <- discount_row (str "disc-misc-") disc ;;
         Ok (push rows r))
      (Group.miscDiscounts group) rows ;;
  Ok rows.

(** ** The callback of [data.map] in [wiredPayments] *)

Definition mapGroup (g : value) : result Group.t :=
  id <- get g (str "sectionId") ;;
  groupId <- get g (str "billingScheduleGroupId") ;;
  name <- get g (str "billingScheduleGroupName") ;;
  nextBillingDate <- get g (str "nextBillingDate") ;;
  let nextDate :=
    if ToBoolean nextBillingDate then formatDate nextBillingDate
    else VNull in
  rawFee <- get g (str "feeTotal") ;;
  feeTotal <- formatCurrency rawFee ;;
  rawDiscount <- get g (str "discountTotal") ;;
  discountTotal <- formatDiscount rawDiscount ;;
  rawNet <- get g (str "netTotal") ;;
  netTotal <- formatCurrency rawNet ;;
  pm <- get g (str "paymentMethod") ;;
  paymentMethod <- mapPaymentMethod pm ;;
  tliDescription <- get g (str "tliDescription") ;;
  rawItems <- get g (str "items") ;;
  items <- mapSectionItems rawItems ;;
  rawMisc <- get g (str "miscDiscounts") ;;
  miscDiscounts <- mapDiscounts rawMisc ;;
  let mapped :=
    {| Group.id := id; Group.groupId := groupId; Group.name := name;
       Group.nextDate := nextDate; Group.feeTotal := feeTotal;
       Group.discountTotal := discountTotal; Group.netTotal := netTotal;
       Group.paymentMethod := paymentMethod;
       Group.tliDescription := tliDescription;
       Group.items := items; Group.miscDiscounts := miscDiscounts;
       Group.detailRows := []; Group.accordionLabel := [] |} in
  rows <- buildDetailRows mapped ;;
  let mapped := Group.set_detailRows rows mapped in
  let pad := repeat nbsp 3 in
  fees <- subst (Group.feeTotal mapped) ;;
  discounts <- subst (Group.discountTotal mapped) ;;
  let mapped :=
    Group.set_accordionLabel
      (str "Details: " ++ pad ++ str "Fees " ++ fees
       ++ pad ++ [middle_dot] ++ pad ++ str "Discounts " ++ discounts)
      mapped in
  Ok mapped.

(** ** Pagination *)

(** [Math.ceil(a / b)] for a non-negative integer [a] and a positive
    integer [b] (the page size is 3 and is never assigned). *)
Definition ceil_div (a b : Z) : Z := - ((- a) / b).

Definition totalPages (c : Component) : Z :=
  Z.max 1 (ceil_div (Z.of_nat (List.length (groups c))) (pageSize c)).

Definition hasPagination (c : Component) : bool :=
  pageSize c <? Z.of_nat (List.length (groups c)).

Definition disablePrev (c : Component) : bool := currentPage c <=? 1.

Definition disableNext (c : Component) : bool :=
  totalPages c <=? currentPage c.

Definition refreshDisplayed (c : Component) : Component :=
  let start := (currentPage c - 1) * pageSize c in
  let stop := start + pageSize c in
  set_displayedGroups (slice (groups c) start stop) c.

Definition handleFirst (c : Component) : Component :=
  if negb (disablePrev c) then refreshDisplayed (set_currentPage 1 c)
  else c.

Definition handlePrev (c : Component) : Component :=
  if negb (disablePrev c)
  then refreshDisplayed (set_currentPage (currentPage c - 1) c)
  else c.

Definition handleNext (c : Component) : Component :=
  if negb (disableNext c)
  then refreshDisplayed (set_currentPage (currentPage c + 1) c)
  else c.

Definition handleLast (c : Component) : Component :=
  if negb (disableNext c)
  then refreshDisplayed (set_currentPage (totalPages c) c)
  else c.

(** ** normalizeError *)

Definition normalizeError (err : value) : result value :=
  match get_opt err (str "body") with
  | VArr body =>
      messages <- mapM (fun e => get e (str "message")) body ;;
      text <- join (NumberToString rt) (str ", ") messages ;;
      Ok (VStr text)
  | body =>
      let message := get_opt body (str "message") in
      if ToBoolean message then Ok message
      else Ok (or_else (get_opt err (str "statusText"))
                       (VStr (str "Unknown error")))
  end.

(** ** wiredPayments({ data, error })

    [(data || []).map] is a TypeError unless the truthy [data] is an
    array.  An exception leaves the fields assigned so far, which is
    [loading] alone: the right-hand sides are evaluated before the
    assignments. *)
Definition wiredPayments (c : Component) (data err : value) : outcome :=
  let c := set_loading false c in
  if ToBoolean data then
    match
      (arr <- match or_else data (VArr []) with
              | VArr l => Ok l
              | _ => Throw
              end ;;
       mapM mapGroup arr)
    with
    | Ok gs =>
        let c := set_groups gs c in
        let c := set_currentPage 1 c in
        let c := refreshDisplayed c in
        Returned (set_error VUndef c)
    | Throw => Threw c
    end
  else if ToBoolean err then
    match normalizeError err with
    | Ok message =>
        let c := set_error message c in
        let c := set_groups [] c in
        let c := set_displayedGroups [] c in
        Returned (set_currentPage 1 c)
    | Throw => Threw c
    end
  else Returned c.

(** ** What can happen to the instance *)

Inductive event :=
| Wired (data err : value)
| First
| Prev
| Next
| Last.

Definition step (c : Component) (e : event) : Component :=
  match e with
  | Wired data err => state_of (wiredPayments c data err)
  | First => handleFirst c
  | Prev => handlePrev c
  | Next => handleNext c
  | Last => handleLast c
  end.

Definition run (c : Component) (es : list event) : Component :=
  fold_left step es c.

End Methods.

(** ** The remaining members of the class *)

(** [get hasData() { return this.groups && this.groups.length > 0; }];
    [groups] is always an array, which is truthy. *)
Definition hasData (c : Component) : bool :=
  0 <? Z.of_nat (List.length (groups c)).

(** The page reference handed to [this[NavigationMixin.Navigate]]; its
    [attributes] object is flattened into the record. *)
Module PageReference.
Record t := {
  type : jstring;
  recordId : value;
  objectApiName : jstring;
  actionName : jstring
}.
End PageReference.

(** [handleRowLinkClick(event)]: the navigation it requests, if any.  The
    handler touches no field of the instance. *)
Definition handleRowLinkClick (event : value)
  : result (option PageReference.t) :=
  currentTarget <- get event (str "currentTarget") ;;
  let recId := get_opt (get_opt currentTarget (str "dataset"))
                       (str "recordId") in
  if negb (ToBoolean recId) then Ok None
  else
    Ok (Some {| PageReference.type := str "standard__recordPage";
                PageReference.recordId := recId;
                PageReference.objectApiName :=
                  str "TREX1__Billing_Schedule__c";
                PageReference.actionName := str "view" |}).

(* ================================================================== *)
(** * Reference definitions, written from the design document          *)
(* ================================================================== *)

(** ** The outcome of the conversions

    Which values convert to a string, and to what. *)

(** The values whose conversion to a string returns. *)
Fixpoint prints (v : value) : bool :=
  match v with
  | VArr elems =>
      forallb (fun e => match e with
                        | VUndef | VNull => true
                        | _ => prints e
                        end) elems
  | VObj fields => negb (has_key (str "toString") fields)
  | _ => true
  end.

(** The text a value prints as, for the values that print. *)
Fixpoint print (NumberToString : number -> jstring) (v : value)
  : jstring :=
  match v with
  | VUndef => str "undefined"
  | VNull => str "null"
  | VBool true => str "true"
  | VBool false => str "false"
  | VNum n => NumberToString n
  | VStr s => s
  | VArr elems =>
      join_strings (str ",")
        (map (fun e => match e with
                       | VUndef | VNull => []
                       | _ => print NumberToString e
                       end) elems)
  | VObj _ => str "[object Object]"
  end.

(** The text of a joined array, when all its elements print. *)
Definition joined (NumberToString : number -> jstring) (sep : jstring)
  (elems : list value) : jstring :=
  join_strings sep
    (map (fun e => if nullish e then [] else print NumberToString e) elems).

(** The number a value converts to, when it prints. *)
Definition number_value (NumberToString : number -> jstring) (v : value)
  : number :=
  match v with
  | VUndef => NaN
  | VNull => pos_zero
  | VBool true => one
  | VBool false => pos_zero
  | VNum n => n
  | VStr s => StringToNumber s
  | VArr _ | VObj _ => StringToNumber (print NumberToString v)
  end.

(** The text of a value inside a template literal, if it has one. *)
Definition text (rt : Runtime) (v : value) : jstring :=
  print (NumberToString rt) v.

(** The row of a fee and of a discount, with the texts filled in. *)
Definition fee_row_of (rt : Runtime) (fee : FeeItem.t) : DetailRow.t :=
  {| DetailRow.id := str "fee-" ++ text rt (FeeItem.feeScheduleId fee);
     DetailRow.description :=
       or_else (or_else (FeeItem.tliDescription fee) (FeeItem.feeName fee))
               (VStr em_dash);
     DetailRow.type := str "Fee";
     DetailRow.amount := FeeItem.feeAmount fee;
     DetailRow.recordId := FeeItem.feeScheduleId fee |}.

Definition discount_row_of (rt : Runtime) (prefix : jstring)
  (disc : Discount.t) : DetailRow.t :=
  {| DetailRow.id := prefix ++ text rt (Discount.discountScheduleId disc);
     DetailRow.description :=
       or_else (or_else (Discount.tliDescription disc) (Discount.name disc))
               (VStr em_dash);
     DetailRow.type := str "Discount";
     DetailRow.amount := VStr (str "-" ++ text rt (Discount.amount disc));
     DetailRow.recordId := Discount.discountScheduleId disc |}.

(** RowFlattener.flatten: for each fee, its row and then its discounts'
    rows; after all fees, the misc discounts' rows. *)
Definition flatten (rt : Runtime) (fees : list FeeItem.t)
  (misc : list Discount.t) : list DetailRow.t :=
  flat_map
    (fun fee =>
       fee_row_of rt fee
       :: map (discount_row_of rt (str "disc-")) (FeeItem.discounts fee))
    fees
  ++ map (discount_row_of rt (str "disc-misc-")) misc.

(** The template literals of the rows of a mapped group all have a
    text. *)
Definition discount_row_defined (disc : Discount.t) : bool :=
  prints (Discount.discountScheduleId disc) && prints (Discount.amount disc).

Definition fee_rows_defined (fee : FeeItem.t) : bool :=
  prints (FeeItem.feeScheduleId fee)
  && forallb discount_row_defined (FeeItem.discounts fee).

Definition rows_defined (fees : list FeeItem.t) (misc : list Discount.t)
  : bool :=
  forallb fee_rows_defined fees && forallb discount_row_defined misc.

(** The raw arrays of a group, as the mappers read them. *)
Definition raw_fees (g : value) : list value :=
  array_or_empty (prop g (str "items")).
Definition raw_discounts (fee : value) : list value :=
  array_or_empty (prop fee (str "discounts")).
Definition raw_misc (g : value) : list value :=
  array_or_empty (prop g (str "miscDiscounts")).

(** (number of fee items) + (sum of each fee's discounts) + (number of
    misc discounts). *)
Definition expected_row_count (g : value) : nat :=
  (List.length (raw_fees g)
   + list_sum (map (fun fee => List.length (raw_discounts fee)) (raw_fees g))
   + List.length (raw_misc g))%nat.

(** Description, or name, or the em-dash. *)
Definition description_of (tliDescription name : value) : value :=
  if ToBoolean tliDescription then tliDescription
  else if ToBoolean name then name
  else VStr em_dash.

(** What identifies a row, read off the raw records:
    (id, description, type, recordId). *)
Definition row_key := (jstring * value * jstring * value)%type.

Definition key_of (r : DetailRow.t) : row_key :=
  (DetailRow.id r, DetailRow.description r, DetailRow.type r,
   DetailRow.recordId r).

Definition raw_fee_key (rt : Runtime) (fee : value) : row_key :=
  (str "fee-" ++ text rt (prop fee (str "feeScheduleId")),
   description_of (prop fee (str "tliDescription"))
                  (prop fee (str "feeName")),
   str "Fee",
   prop fee (str "feeScheduleId")).

Definition raw_discount_key (rt : Runtime) (prefix : jstring) (d : value)
  : row_key :=
  (prefix ++ text rt (prop d (str "discountScheduleId")),
   description_of (prop d (str "tliDescription")) (prop d (str "name")),
   str "Discount",
   prop d (str "discountScheduleId")).

Definition expected_keys (rt : Runtime) (g : value) : list row_key :=
  flat_map
    (fun fee =>
       raw_fee_key rt fee
       :: map (raw_discount_key rt (str "disc-")) (raw_discounts fee))
    (raw_fees g)
  ++ map (raw_discount_key rt (str "disc-misc-")) (raw_misc g).

(** A raw group the mappers can walk: it is a record, and so is every
    element of its three kinds of arrays. *)
Definition no_nullish (l : list value) : bool :=
  forallb (fun v => negb (nullish v)) l.

Definition walkable (g : value) : bool :=
  negb (nullish g)
  && no_nullish (raw_fees g)
  && forallb (fun fee => no_nullish (raw_discounts fee)) (raw_fees g)
  && no_nullish (raw_misc g).

(** The fixed en-US / USD formatter can be built. *)
Definition has_fallback (rt : Runtime) : bool :=
  match NumberFormat rt (str "en-US") (str "USD") with
  | Some _ => true
  | None => false
  end.

(** A mapped discount (fee item) carries the fields of the raw record it
    was built from, with the amount formatted. *)
Definition discount_matches (rt : Runtime) (raw : value) (d : Discount.t)
  : Prop :=
  Discount.name d = prop raw (str "name")
  /\ Discount.discountScheduleId d = prop raw (str "discountScheduleId")
  /\ Discount.parentFeeScheduleId d = prop raw (str "parentFeeScheduleId")
  /\ Discount.tliDescription d = prop raw (str "tliDescription")
  /\ formatDiscount rt (prop raw (str "amount")) = Ok (Discount.amount d).

Definition fee_matches (rt : Runtime) (raw : value) (fee : FeeItem.t)
  : Prop :=
  FeeItem.feeName fee = prop raw (str "feeName")
  /\ FeeItem.feeScheduleId fee = prop raw (str "feeScheduleId")
  /\ FeeItem.tliDescription fee = prop raw (str "tliDescription")
  /\ formatCurrency rt (prop raw (str "feeAmount")) = Ok (FeeItem.feeAmount fee)
  /\ Forall2 (discount_matches rt) (raw_discounts raw) (FeeItem.discounts fee).

(** The two variants of PaymentMethodView. *)
Definition bill_to_account_view : PaymentMethod.t :=
  {| PaymentMethod.label := VStr (str "Bill to Account");
     PaymentMethod.nickname := VNull;
     PaymentMethod.cardType := VNull;
     PaymentMethod.endingIn := VNull;
     PaymentMethod.expiration := VNull;
     PaymentMethod.type := BILL_TO_ACCOUNT |}.

Definition stored_account_view (pm : value) : PaymentMethod.t :=
  {| PaymentMethod.label := VNull;
     PaymentMethod.nickname := prop pm (str "nickname");
     PaymentMethod.cardType := prop pm (str "cardType");
     PaymentMethod.endingIn := prop pm (str "endingIn");
     PaymentMethod.expiration := prop pm (str "expiration");
     PaymentMethod.type := STORED_ACCOUNT |}.

Definition is_record (v : value) : bool :=
  match v with VObj _ => true | _ => false end.

(** The currency formatter the [try]/[catch] of [formatCurrency] ends up
    with: the one of the host's locale, or else the fixed en-US / USD one;
    [None] when neither can be built. *)
Definition formatter (rt : Runtime) : option (number -> jstring) :=
  match NumberFormat rt (locale rt) currency with
  | Some f => Some f
  | None => NumberFormat rt (str "en-US") (str "USD")
  end.

(** The length of month [m] (from 0) in a common year ([leap = 0]) or a
    leap year ([leap = 1]). *)
Definition days_in_month (leap m : Z) : Z :=
  nth (Z.to_nat m) [31; 28 + leap; 31; 30; 31; 30; 31; 31; 30; 31; 30; 31] 0.

Definition is_string (v : value) : bool :=
  match v with VStr _ => true | _ => false end.

(** The integers [formatDate] reads in a string: what [parseInt] makes of
    its parts between hyphens. *)
Definition date_parts (s : jstring) : list (option Z) :=
  map parseInt10 (split hyphen s).

(** Paginator.paginate: the window of page [page]. *)
Definition paginate {A} (l : list A) (page size : Z) : list A :=
  firstn (Z.to_nat size) (skipn (Z.to_nat ((page - 1) * size)) l).

(** [currentPage] lies in [1, totalPages]. *)
Definition page_in_range (c : Component) : Prop :=
  1 <= currentPage c <= totalPages c.

(** The displayed slice is the window of the current page. *)
Definition shows_current_page (c : Component) : Prop :=
  displayedGroups c
  = slice (groups c) ((currentPage c - 1) * pageSize c)
          ((currentPage c - 1) * pageSize c + pageSize c).

(** The page numbers 1, ..., [n]. *)
Definition page_numbers (n : Z) : list Z :=
  map Z.of_nat (seq 1 (Z.to_nat n)).

(** The values a raw group hands to [Number(...)] all print: the three
    totals, each fee's amount, each discount's amount. *)
Definition amount_prints (d : value) : bool :=
  prints (prop d (str "amount")).

Definition fee_amounts_print (fee : value) : bool :=
  prints (prop fee (str "feeAmount"))
  && forallb amount_prints (raw_discounts fee).

Definition amounts_print (g : value) : bool :=
  prints (prop g (str "feeTotal"))
  && prints (prop g (str "discountTotal"))
  && prints (prop g (str "netTotal"))
  && forallb fee_amounts_print (raw_fees g)
  && forallb amount_prints (raw_misc g).

(** The schedule ids a raw group hands to the template literals of the
    row ids all print. *)
Definition id_prints (d : value) : bool :=
  prints (prop d (str "discountScheduleId")).

Definition fee_ids_print (fee : value) : bool :=
  prints (prop fee (str "feeScheduleId"))
  && forallb id_prints (raw_discounts fee).

Definition ids_print (g : value) : bool :=
  forallb fee_ids_print (raw_fees g) && forallb id_prints (raw_misc g).

Definition printable (g : value) : bool := amounts_print g && ids_print g.

(** A raw group the callback of [data.map] can map. *)
Definition mappable (g : value) : bool := walkable g && printable g.

(** An element of an error [body] array whose message can be read and
    joined: it is neither [null] nor [undefined], and its message is
    missing or prints. *)
Definition joinable (e : value) : bool :=
  negb (nullish e)
  && (nullish (prop e (str "message")) || prints (prop e (str "message"))).

(** A delivery that [wiredPayments] can process to its end: truthy data
    must be an array of mappable groups; failing data, a truthy error
    with an array [body] must have joinable elements only. *)
Definition deliverable (data err : value) : bool :=
  if ToBoolean data then
    match data with
    | VArr raw => forallb mappable raw
    | _ => false
    end
  else if ToBoolean err then
    forallb joinable (array_or_empty (get_opt err (str "body")))
  else true.

Definition is_returned (o : outcome) : bool :=
  match o with Returned _ => true | Threw _ => false end.

(** [prefix] starts [s]. *)
Fixpoint starts_with (prefix s : jstring) : bool :=
  match prefix, s with
  | [], _ => true
  | p :: prefix', c :: s' => N.eqb p c && starts_with prefix' s'
  | _ :: _, [] => false
  end.

(** A non-empty run of the digits 0 to 9, and the number it writes. *)
Definition is_digit (c : N) : bool := N.leb 48 c && N.leb c 57.

Definition all_digits (s : jstring) : bool :=
  match s with [] => false | _ => forallb is_digit s end.

Definition number_of (s : jstring) : Z :=
  Z.of_N (digits_value 10 (map (fun c => (c - 48)%N) s)).

(** The text of the schedule ids, as the row ids embed them. *)
Definition fee_id_text (rt : Runtime) (fee : FeeItem.t) : jstring :=
  text rt (FeeItem.feeScheduleId fee).
Definition discount_id_text (rt : Runtime) (d : Discount.t) : jstring :=
  text rt (Discount.discountScheduleId d).

(** All the discounts attributed to fees, in row order. *)
Definition fee_discounts (fees : list FeeItem.t) : list Discount.t :=
  flat_map FeeItem.discounts fees.

(** A truthy error comes with no groups. *)
Definition error_excludes_groups (c : Component) : Prop :=
  ToBoolean (error c) = true -> groups c = [] /\ displayedGroups c = [].

(** The kind of a row. *)
Definition is_fee_row (r : DetailRow.t) : bool :=
  jstring_eqb (DetailRow.type r) (str "Fee").

Definition is_discount_row (r : DetailRow.t) : bool :=
  jstring_eqb (DetailRow.type r) (str "Discount").

(** What follows a run of digits does not go on with a digit. *)
Definition clean_tail (x : jstring) : bool :=
  match x with [] => true | c :: _ => negb (is_digit c) end.

(* ================================================================== *)
(** * A concrete host, for evaluating the component                    *)
(* ================================================================== *)

Module Sample.

Fixpoint digits_of (fuel : nat) (n : N) (acc : jstring) : jstring :=
  match fuel with
  | O => acc
  | S fuel' =>
      let acc := (48 + n mod 10)%N :: acc in
      if (n / 10 =? 0)%N then acc else digits_of fuel' (n / 10)%N acc
  end.

(** Decimal digits of a natural number. *)
Definition decimal (n : N) : jstring :=
  digits_of (S (N.to_nat (N.log2 n))) n [].

Definition decimal_Z (z : Z) : jstring :=
  if z <? 0 then hyphen :: decimal (Z.to_N (- z)) else decimal (Z.to_N z).

(** Commas between groups of three digits. *)
Fixpoint group3 (rev_digits : jstring) : jstring :=
  match rev_digits with
  | a :: b :: c :: ((_ :: _) as r) => a :: b :: c :: 44%N :: group3 r
  | l => l
  end.

Definition grouped (n : N) : jstring := rev (group3 (rev (decimal n))).

(** Hundredths of a finite decimal, halves rounded away from zero. *)
Definition cents (mant : N) (exp10 : Z) : N :=
  if 0 <=? exp10 + 2 then (mant * 10 ^ Z.to_N (exp10 + 2))%N
  else
    let scale := (10 ^ Z.to_N (- (exp10 + 2)))%N in
    ((2 * mant + scale) / (2 * scale))%N.

(** US dollars in the en-US style. *)
Definition usd (n : number) : jstring :=
  match n with
  | NaN => str "$NaN"
  | Infinity neg => (if neg then [hyphen] else []) ++ [36%N; 8734%N]
  | Finite neg mant exp10 =>
      let c := cents mant exp10 in
      (if neg then [hyphen] else [])
      ++ str "$" ++ grouped (c / 100)
      ++ str "." ++ [(48 + (c mod 100) / 10)%N; (48 + c mod 10)%N]
  end.

Definition month_names : list jstring :=
  [str "Jan"; str "Feb"; str "Mar"; str "Apr"; str "May"; str "Jun";
   str "Jul"; str "Aug"; str "Sep"; str "Oct"; str "Nov"; str "Dec"].

(** The en-US medium date, "Jan 5, 2025". *)
Definition medium_date (year month day : Z) : jstring :=
  nth (Z.to_nat month) month_names [] ++ str " " ++ decimal_Z day
  ++ str ", " ++ decimal_Z year.

(** Number::toString, right on the integers written without exponent;
    a stand-in elsewhere. *)
Definition number_toString (n : number) : jstring :=
  match n with
  | NaN => str "NaN"
  | Infinity neg => (if neg then [hyphen] else []) ++ str "Infinity"
  | Finite neg mant exp10 =>
      (if neg && negb (mant =? 0)%N then [hyphen] else [])
      ++ decimal mant
      ++ (if exp10 =? 0 then [] else str "e" ++ decimal_Z exp10)
  end.

(** A browser set to US English, five hours behind UTC. *)
Definition rt : Runtime :=
  {| NumberToString := number_toString;
     navigator_language := str "en-US";
     LocalTZA := -18000000;
     NumberFormat := fun _ _ => Some usd;
     DateTimeFormat := fun _ => Some medium_date |}.

(** A host whose language tag no formatter accepts, nine hours ahead of
    UTC: only the fixed en-US formatters can be built. *)
Definition rt_unsupported : Runtime :=
  {| NumberToString := number_toString;
     navigator_language := str "x";
     LocalTZA := 32400000;
     NumberFormat := fun l _ =>
                       if jstring_eqb l (str "en-US") then Some usd
                       else None;
     DateTimeFormat := fun l =>
                         if jstring_eqb l (str "en-US")
                         then Some medium_date else None |}.

(** Shorthands for building raw records. *)
Definition fld (k : string) (v : value) : jstring * value := (str k, v).
Arguments fld k%_string v.
Definition s (x : string) : value := VStr (str x).
Arguments s x%_string.
Definition num (z : Z) : value :=
  VNum (Finite (z <? 0) (Z.to_N (Z.abs z)) 0).

(** A group with two fees, one of them discounted and the other without
    description or name, and one misc discount. *)
Definition group : value :=
  VObj
    [fld "sectionId" (s "S1");
     fld "billingScheduleGroupName" (s "Family");
     fld "nextBillingDate" (s "2025-01-05");
     fld "feeTotal" (num 100);
     fld "discountTotal" (num 15);
     fld "netTotal" (s "85");
     fld "items"
       (VArr
          [VObj [fld "feeName" (s "Dues"); fld "feeAmount" (num 60);
                 fld "feeScheduleId" (s "F1");
                 fld "discounts"
                   (VArr [VObj [fld "name" (s "Senior");
                                fld "amount" (num 10);
                                fld "discountScheduleId" (s "D1")]])];
           VObj [fld "feeAmount" (num 40); fld "feeScheduleId" (s "F2")]]);
     fld "miscDiscounts"
       (VArr [VObj [fld "tliDescription" (s "Promo");
                    fld "amount" (num 5);
                    fld "discountScheduleId" (s "D9")]])].

(** Seven groups. *)
Definition payload : value := VArr (repeat group 7).

(** The three documented shapes of a wire error. *)
Definition error_list : value :=
  VObj [fld "body" (VArr [VObj [fld "message" (s "A")];
                          VObj [fld "message" (s "B")]])].
Definition error_single : value :=
  VObj [fld "body" (VObj [fld "message" (s "C")])].
Definition error_empty : value := VObj [].

(** The two payment methods of the design document's scenario. *)
Definition bill_method : value :=
  VObj [fld "displayType" (s "BILL_TO_ACCOUNT")].
Definition visa_method : value :=
  VObj [fld "nickname" (s "Visa"); fld "cardType" (s "VISA");
        fld "endingIn" (s "1234")].

(** The instance after the wire adapter has delivered [payload]. *)
Definition loaded : Component :=
  state_of (wiredPayments rt initial payload VUndef).

End Sample.

(* ================================================================== *)
(** * Properties                                                       *)
(* ================================================================== *)

(** ** Completions *)

Lemma mapM_Forall2 {A B} (f : A -> result B) (l : list A) (l' : list B) :
  mapM f l = Ok l' -> Forall2 (fun x y => f x = Ok y) l l'.
Proof.
  revert l'; induction l as [|x r IH]; intros l' H; simpl in H.
  - injection H as <-. constructor.
  - destruct (f x) as [y|] eqn:Hx; simpl in H; [|discriminate].
    destruct (mapM f r) as [ys|] eqn:Hr; simpl in H; [|discriminate].
    injection H as <-. constructor; auto.
Qed.

Lemma mapM_total {A B} (f : A -> result B) (l : list A) :
  Forall (fun x => exists y, f x = Ok y) l -> exists l', mapM f l = Ok l'.
Proof.
  induction 1 as [|x r [y Hy] _ [ys Hys]]; simpl.
  - now exists [].
  - exists (y :: ys). now rewrite Hy, Hys.
Qed.

Lemma Forall2_length_eq {A B} (R : A -> B -> Prop) l l' :
  Forall2 R l l' -> List.length l = List.length l'.
Proof. induction 1; simpl; congruence. Qed.

Lemma Forall2_weaken {A B} (R S : A -> B -> Prop) l l' :
  (forall x y, R x y -> S x y) -> Forall2 R l l' -> Forall2 S l l'.
Proof. intros HRS; induction 1; constructor; auto. Qed.

Lemma Forall2_map_eq {A B C} (f : A -> C) (g : B -> C) l l' :
  Forall2 (fun x y => g y = f x) l l' -> map g l' = map f l.
Proof. induction 1; simpl; congruence. Qed.

Lemma get_not_nullish v key : nullish v = false -> get v key = Ok (prop v key).
Proof. unfold get; now intros ->. Qed.

Lemma no_nullish_Forall l :
  no_nullish l = true -> Forall (fun v => nullish v = false) l.
Proof.
  unfold no_nullish; rewrite forallb_forall, Forall_forall.
  intros H x Hx. apply H in Hx. now destruct (nullish x).
Qed.

(** ** Conversions *)

(** Induction on values that reaches the elements of arrays. *)
Lemma value_elems_ind (P : value -> Prop) :
  P VUndef -> P VNull -> (forall b, P (VBool b)) -> (forall n, P (VNum n)) ->
  (forall s, P (VStr s)) ->
  (forall elems, Forall P elems -> P (VArr elems)) ->
  (forall fields, P (VObj fields)) ->
  forall v, P v.
Proof.
  intros Hu Hn Hb Hnum Hs Ha Ho.
  fix IH 1. intros [| | b | n | s | elems | fields].
  - exact Hu.
  - exact Hn.
  - apply Hb.
  - apply Hnum.
  - apply Hs.
  - apply Ha. revert elems. fix IHl 1.
    intros [|e r]; constructor; [apply IH | apply IHl].
  - apply Ho.
Qed.

Lemma ToString_prints f v :
  ToString f v = if prints v then Ok (print f v) else Throw.
Proof.
  induction v as [| | b | n | s | elems IH | fields] using value_elems_ind;
    try reflexivity.
  - destruct b; reflexivity.
  - cbn [ToString prints print].
    match goal with
    | |- bind ?each _ = _ =>
        assert (He : each = if forallb (fun x => match x with
                                                 | VUndef | VNull => true
                                                 | _ => prints x
                                                 end) elems
                            then Ok (map (fun x => match x with
                                                   | VUndef | VNull => []
                                                   | _ => print f x
                                                   end) elems)
                            else Throw)
    end.
    { induction IH as [|e r He _ IHr]; [reflexivity|].
      cbn [forallb map]. rewrite IHr.
      destruct e; try rewrite He; cbn [prints bind andb];
        try (destruct (forallb _ r); reflexivity).
      - destruct (forallb _ elems); cbn [andb bind]; [|reflexivity].
        destruct (forallb _ r); reflexivity.
      - destruct (negb _); cbn [andb bind]; [|reflexivity].
        destruct (forallb _ r); reflexivity. }
    rewrite He. destruct (forallb _ elems); reflexivity.
  - cbn [ToString prints print]. destruct (has_key _ fields); reflexivity.
Qed.

Lemma subst_prints rt v :
  subst rt v = if prints v then Ok (text rt v) else Throw.
Proof. apply ToString_prints. Qed.

Lemma subst_returns rt v s : subst rt v = Ok s -> s = text rt v.
Proof.
  rewrite subst_prints. destruct (prints v); [|discriminate].
  now intros [= <-].
Qed.

Lemma join_prints f sep l :
  join f sep l
  = if forallb (fun e => nullish e || prints e) l
    then Ok (joined f sep l) else Throw.
Proof.
  unfold join, joined.
  assert (H : mapM (fun e => if nullish e then Ok [] else ToString f e) l
              = if forallb (fun e => nullish e || prints e) l
                then Ok (map (fun e => if nullish e then [] else print f e) l)
                else Throw).
  { induction l as [|e r IH]; [reflexivity|].
    cbn [mapM forallb map]. rewrite IH.
    destruct (nullish e); cbn [orb bind andb].
    - destruct (forallb _ r); reflexivity.
    - rewrite ToString_prints. destruct (prints e); cbn [bind andb];
        [|reflexivity].
      destruct (forallb _ r); reflexivity. }
  rewrite H. destruct (forallb _ l); reflexivity.
Qed.

Lemma ToNumber_prints f v :
  ToNumber f v = if prints v then Ok (number_value f v) else Throw.
Proof.
  destruct v as [| | [|] | n | s | elems | fields]; try reflexivity;
    unfold ToNumber, number_value; rewrite ToString_prints;
    destruct (prints _); reflexivity.
Qed.

(** ** Truthiness *)

Lemma or_else_description tli name :
  or_else (or_else tli name) (VStr em_dash) = description_of tli name.
Proof.
  unfold or_else, description_of.
  destruct (ToBoolean tli) eqn:Ht; [now rewrite Ht|].
  now destruct (ToBoolean name).
Qed.

Lemma description_of_truthy tli name :
  ToBoolean (description_of tli name) = true.
Proof.
  unfold description_of.
  destruct (ToBoolean tli) eqn:Ht; [assumption|].
  destruct (ToBoolean name) eqn:Hn; [assumption|reflexivity].
Qed.

(** ** Amount formatting *)

Lemma formatDiscount_formatCurrency rt v :
  formatDiscount rt v = formatCurrency rt v.
Proof. reflexivity. Qed.

Lemma formatCurrency_unfold rt v :
  formatCurrency rt v
  = if prints v then
      let num := number_value (NumberToString rt) v in
      if isNaN num then Ok v
      else match formatter rt with
           | Some format => Ok (VStr (format num))
           | None => Throw
           end
    else Throw.
Proof.
  unfold formatCurrency, formatter.
  assert (Hn : match v with
               | VNum n => Ok n
               | _ => ToNumber (NumberToString rt) v
               end = ToNumber (NumberToString rt) v)
    by (destruct v; reflexivity).
  rewrite Hn, ToNumber_prints. destruct (prints v); [|reflexivity].
  cbn [bind]. cbv zeta. destruct (isNaN _); [reflexivity|].
  destruct (NumberFormat rt (locale rt) currency); reflexivity.
Qed.

Lemma formatCurrency_ToNumber rt v :
  formatCurrency rt v
  = (num <- ToNumber (NumberToString rt) v ;;
     if isNaN num then Ok v
     else match formatter rt with
          | Some format => Ok (VStr (format num))
          | None => Throw
          end).
Proof.
  unfold formatCurrency, formatter.
  assert (Hn : match v with
               | VNum n => Ok n
               | _ => ToNumber (NumberToString rt) v
               end = ToNumber (NumberToString rt) v)
    by (destruct v; reflexivity).
  rewrite Hn. destruct (ToNumber _ v) as [num|]; [|reflexivity].
  cbn [bind]. destruct (isNaN num); [reflexivity|].
  destruct (NumberFormat rt (locale rt) currency); reflexivity.
Qed.

Lemma has_fallback_formatter rt :
  has_fallback rt = true -> exists format, formatter rt = Some format.
Proof.
  unfold has_fallback, formatter.
  destruct (NumberFormat rt (locale rt) currency); [eauto|].
  destruct (NumberFormat rt (str "en-US") (str "USD")); [eauto|discriminate].
Qed.

Lemma formatCurrency_total rt v :
  has_fallback rt = true -> prints v = true ->
  exists r, formatCurrency rt v = Ok r.
Proof.
  intros Hf Hp. rewrite formatCurrency_unfold, Hp. cbv zeta.
  destruct (isNaN _); [eauto|].
  destruct (has_fallback_formatter rt Hf) as [format ->]. eauto.
Qed.

Lemma formatCurrency_throws rt v :
  prints v = false -> formatCurrency rt v = Throw.
Proof. intros Hp. now rewrite formatCurrency_unfold, Hp. Qed.

(** What [formatCurrency] returns prints, and so did its argument. *)
Lemma formatCurrency_prints rt v r :
  formatCurrency rt v = Ok r -> prints v = true /\ prints r = true.
Proof.
  rewrite formatCurrency_unfold. destruct (prints v) eqn:Hp; [|discriminate].
  cbv zeta. destruct (isNaN _).
  - intros [= <-]. auto.
  - destruct (formatter rt); [|discriminate]. intros [= <-]. auto.
Qed.

(** ** Flattening *)

Lemma fee_row_cases rt fee :
  fee_row rt fee
  = if prints (FeeItem.feeScheduleId fee) then Ok (fee_row_of rt fee)
    else Throw.
Proof.
  unfold fee_row. rewrite subst_prints.
  destruct (prints _); reflexivity.
Qed.

Lemma discount_row_cases rt prefix disc :
  discount_row rt prefix disc
  = if discount_row_defined disc then Ok (discount_row_of rt prefix disc)
    else Throw.
Proof.
  unfold discount_row, discount_row_defined. rewrite !subst_prints.
  destruct (prints (Discount.discountScheduleId disc)); [|reflexivity].
  destruct (prints (Discount.amount disc)); reflexivity.
Qed.

Lemma forEach_push rt prefix (l : list Discount.t) (acc : list DetailRow.t) :
  forEach (fun rows disc => r <- discount_row rt prefix disc ;;
                            Ok (push rows r)) l acc
  = if forallb discount_row_defined l
    then Ok (acc ++ map (discount_row_of rt prefix) l)
    else Throw.
Proof.
  revert acc; induction l as [|x r IH]; intros acc; cbn [forEach forallb map].
  - now rewrite app_nil_r.
  - rewrite discount_row_cases.
    destruct (discount_row_defined x); cbn [bind andb]; [|reflexivity].
    rewrite IH. unfold push. now rewrite <- app_assoc.
Qed.

Lemma forEach_fees rt (fees : list FeeItem.t) (acc : list DetailRow.t) :
  forEach
    (fun rows fee =>
       r <- fee_row rt fee ;;
       forEach
         (fun rows disc => r <- discount_row rt (str "disc-") disc ;;
                           Ok (push rows r))
         (FeeItem.discounts fee) (push rows r))
    fees acc
  = if forallb fee_rows_defined fees
    then Ok (acc ++ flat_map
                      (fun fee =>
                         fee_row_of rt fee
                         :: map (discount_row_of rt (str "disc-"))
                                (FeeItem.discounts fee))
                      fees)
    else Throw.
Proof.
  match goal with |- forEach ?f _ _ = _ => set (F := f) end.
  revert acc; induction fees as [|fee r IH]; intros acc;
    cbn [forEach forallb flat_map].
  - now rewrite app_nil_r.
  - unfold F at 1. rewrite fee_row_cases. unfold fee_rows_defined at 1.
    destruct (prints (FeeItem.feeScheduleId fee)); cbn [bind andb];
      [|reflexivity].
    rewrite forEach_push.
    destruct (forallb discount_row_defined (FeeItem.discounts fee));
      cbn [bind andb]; [|reflexivity].
    rewrite IH. unfold push. rewrite <- !app_assoc. reflexivity.
Qed.

(** [buildDetailRows] returns the flattening, or throws at the first
    template literal without a text. *)
Lemma buildDetailRows_cases rt g :
  buildDetailRows rt g
  = if rows_defined (Group.items g) (Group.miscDiscounts g)
    then Ok (flatten rt (Group.items g) (Group.miscDiscounts g))
    else Throw.
Proof.
  unfold buildDetailRows, flatten, rows_defined. cbv zeta.
  rewrite forEach_fees.
  destruct (forallb fee_rows_defined (Group.items g)); cbn [bind andb];
    [|reflexivity].
  rewrite forEach_push.
  destruct (forallb discount_row_defined (Group.miscDiscounts g));
    reflexivity.
Qed.

Lemma buildDetailRows_flatten rt g rows :
  buildDetailRows rt g = Ok rows ->
  rows = flatten rt (Group.items g) (Group.miscDiscounts g).
Proof.
  rewrite buildDetailRows_cases. destruct (rows_defined _ _); [|discriminate].
  now intros [= <-].
Qed.

Lemma flatten_length rt fees misc :
  List.length (flatten rt fees misc)
  = (List.length fees
     + list_sum (map (fun fee => List.length (FeeItem.discounts fee)) fees)
     + List.length misc)%nat.
Proof.
  unfold flatten. rewrite length_app, length_map. f_equal.
  induction fees as [|fee r IH]; simpl; [reflexivity|].
  rewrite length_app, length_map, IH. lia.
Qed.

(** ** The mappers on raw records *)

Lemma mapDiscount_matches rt raw d :
  mapDiscount rt raw = Ok d -> discount_matches rt raw d.
Proof.
  unfold mapDiscount, get. destruct (nullish raw); [discriminate|]; simpl.
  destruct (formatDiscount rt _) as [amt|] eqn:Ha; simpl; [|discriminate].
  intros H; injection H as <-. repeat split; simpl; auto.
Qed.

Lemma mapDiscounts_matches rt raw ds :
  mapDiscounts rt raw = Ok ds ->
  Forall2 (discount_matches rt) (array_or_empty raw) ds.
Proof.
  intros H. apply mapM_Forall2 in H.
  eapply Forall2_weaken; [|exact H]. apply mapDiscount_matches.
Qed.

Lemma mapSectionItem_matches rt raw fee :
  mapSectionItem rt raw = Ok fee -> fee_matches rt raw fee.
Proof.
  unfold mapSectionItem, get. destruct (nullish raw); [discriminate|]; simpl.
  destruct (formatCurrency rt _) as [amt|] eqn:Ha; simpl; [|discriminate].
  destruct (mapDiscounts rt _) as [ds|] eqn:Hd; simpl; [|discriminate].
  intros H; injection H as <-. repeat split; simpl; auto.
  now apply mapDiscounts_matches.
Qed.

Lemma mapSectionItems_matches rt raw fees :
  mapSectionItems rt raw = Ok fees ->
  Forall2 (fee_matches rt) (array_or_empty raw) fees.
Proof.
  intros H. apply mapM_Forall2 in H.
  eapply Forall2_weaken; [|exact H]. apply mapSectionItem_matches.
Qed.

Lemma mapM_domain {A B} (f : A -> result B) (l : list A) (l' : list B) :
  mapM f l = Ok l' -> Forall (fun x => exists y, f x = Ok y) l.
Proof.
  intros H. apply mapM_Forall2 in H.
  induction H; constructor; eauto.
Qed.

Lemma mapM_throws {A B} (f : A -> result B) (l : list A) :
  mapM f l = Throw -> exists x, In x l /\ f x = Throw.
Proof.
  induction l as [|x r IH]; simpl; [discriminate|].
  destruct (f x) as [y|] eqn:Hx; simpl.
  - destruct (mapM f r) as [ys|]; simpl; [discriminate|].
    intros _. destruct (IH eq_refl) as (z & Hz & Hf). eauto.
  - eauto.
Qed.

Lemma mapDiscount_total rt d :
  has_fallback rt = true -> nullish d = false -> amount_prints d = true ->
  exists y, mapDiscount rt d = Ok y.
Proof.
  intros Hf Hd Hp. unfold mapDiscount, get. rewrite Hd; simpl.
  rewrite formatDiscount_formatCurrency.
  destruct (formatCurrency_total rt (prop d (str "amount")) Hf Hp) as [a ->].
  simpl. eauto.
Qed.

Lemma mapDiscount_returns rt d y :
  mapDiscount rt d = Ok y -> nullish d = false /\ amount_prints d = true.
Proof.
  unfold mapDiscount, get. destruct (nullish d); [discriminate|]; simpl.
  destruct (formatDiscount rt _) as [amt|] eqn:Ha; simpl; [|discriminate].
  intros _. apply formatCurrency_prints in Ha as [Ha _]. auto.
Qed.

Lemma mapDiscounts_total rt raw :
  has_fallback rt = true -> no_nullish (array_or_empty raw) = true ->
  forallb amount_prints (array_or_empty raw) = true ->
  exists ds, mapDiscounts rt raw = Ok ds.
Proof.
  intros Hf Hn Hp. apply mapM_total.
  apply no_nullish_Forall in Hn. rewrite forallb_forall in Hp.
  rewrite Forall_forall in *. intros d Hd.
  apply mapDiscount_total; auto.
Qed.

Lemma mapDiscounts_returns rt raw ds :
  mapDiscounts rt raw = Ok ds ->
  no_nullish (array_or_empty raw) = true
  /\ forallb amount_prints (array_or_empty raw) = true.
Proof.
  intros H. apply mapM_domain in H. rewrite Forall_forall in H.
  unfold no_nullish. rewrite !forallb_forall.
  split; intros d Hd; destruct (H d Hd) as [y Hy];
    apply mapDiscount_returns in Hy as [Hn Hp]; [now rewrite Hn | exact Hp].
Qed.

Lemma mapSectionItem_total rt it :
  has_fallback rt = true -> nullish it = false ->
  no_nullish (raw_discounts it) = true -> fee_amounts_print it = true ->
  exists y, mapSectionItem rt it = Ok y.
Proof.
  intros Hf Hn Hd Hp. apply andb_prop in Hp as [Ha Hp].
  unfold mapSectionItem, get. rewrite Hn; simpl.
  destruct (formatCurrency_total rt (prop it (str "feeAmount")) Hf Ha)
    as [a ->]. simpl.
  destruct (mapDiscounts_total rt (prop it (str "discounts")) Hf Hd Hp)
    as [ds ->].
  simpl. eauto.
Qed.

Lemma mapSectionItem_returns rt it y :
  mapSectionItem rt it = Ok y ->
  nullish it = false /\ no_nullish (raw_discounts it) = true
  /\ fee_amounts_print it = true.
Proof.
  unfold mapSectionItem, get. destruct (nullish it); [discriminate|]; simpl.
  destruct (formatCurrency rt _) as [amt|] eqn:Ha; simpl; [|discriminate].
  destruct (mapDiscounts rt (prop it (str "discounts"))) as [ds|] eqn:Hd;
    [|discriminate].
  intros _. apply formatCurrency_prints in Ha as [Ha _].
  apply mapDiscounts_returns in Hd as [Hd Hp].
  unfold fee_amounts_print, raw_discounts. rewrite Ha, Hp. auto.
Qed.

Lemma mapSectionItems_total rt raw :
  has_fallback rt = true ->
  no_nullish (array_or_empty raw) = true ->
  forallb (fun fee => no_nullish (raw_discounts fee)) (array_or_empty raw)
  = true ->
  forallb fee_amounts_print (array_or_empty raw) = true ->
  exists fees, mapSectionItems rt raw = Ok fees.
Proof.
  intros Hf Hn Hd Hp. apply mapM_total.
  apply no_nullish_Forall in Hn. rewrite forallb_forall in Hd, Hp.
  rewrite Forall_forall in *. intros it Hit.
  apply mapSectionItem_total; auto.
Qed.

Lemma mapSectionItems_returns rt raw fees :
  mapSectionItems rt raw = Ok fees ->
  no_nullish (array_or_empty raw) = true
  /\ forallb (fun fee => no_nullish (raw_discounts fee)) (array_or_empty raw)
     = true
  /\ forallb fee_amounts_print (array_or_empty raw) = true.
Proof.
  intros H. apply mapM_domain in H. rewrite Forall_forall in H.
  unfold no_nullish at 1. rewrite !forallb_forall.
  repeat split; intros it Hit; destruct (H it Hit) as [y Hy];
    apply mapSectionItem_returns in Hy as (Hn & Hd & Hp); auto.
  now rewrite Hn.
Qed.

(** The rows of mapped records are defined exactly when the raw schedule
    ids print: a mapped amount always prints. *)
Lemma discount_rows_defined rt raws ds :
  Forall2 (discount_matches rt) raws ds ->
  forallb discount_row_defined ds = forallb id_prints raws.
Proof.
  induction 1 as [|raw d raws ds H _ IH]; [reflexivity|].
  cbn [forallb]. rewrite IH. f_equal.
  destruct H as (_ & Hi & _ & _ & Ha).
  apply formatCurrency_prints in Ha as [_ Ha].
  unfold discount_row_defined, id_prints. now rewrite Hi, Ha, andb_true_r.
Qed.

Lemma fee_rows_all_defined rt raws fees :
  Forall2 (fee_matches rt) raws fees ->
  forallb fee_rows_defined fees = forallb fee_ids_print raws.
Proof.
  induction 1 as [|raw fee raws fees H _ IH]; [reflexivity|].
  cbn [forallb]. rewrite IH. f_equal.
  destruct H as (_ & Hi & _ & _ & Hd).
  unfold fee_rows_defined, fee_ids_print.
  now rewrite Hi, (discount_rows_defined rt _ _ Hd).
Qed.

Lemma mapPaymentMethod_total pm :
  exists view, mapPaymentMethod pm = Ok view.
Proof.
  unfold mapPaymentMethod, get.
  destruct (ToBoolean pm) eqn:Hb; simpl; [|eauto].
  assert (Hn : nullish pm = false) by (destruct pm; simpl in *; congruence).
  rewrite Hn; simpl. destruct (strict_eq_str _ _); simpl; eauto.
Qed.

(** ** Row keys *)

Lemma discount_row_key rt prefix raw d :
  discount_matches rt raw d ->
  key_of (discount_row_of rt prefix d) = raw_discount_key rt prefix raw.
Proof.
  intros (Hn & Hi & _ & Ht & _).
  unfold key_of, discount_row_of, raw_discount_key; simpl.
  now rewrite or_else_description, Hn, Hi, Ht.
Qed.

Lemma fee_row_key rt raw fee :
  fee_matches rt raw fee -> key_of (fee_row_of rt fee) = raw_fee_key rt raw.
Proof.
  intros (Hn & Hi & Ht & _).
  unfold key_of, fee_row_of, raw_fee_key; simpl.
  now rewrite or_else_description, Hn, Hi, Ht.
Qed.

Lemma discount_rows_keys rt prefix raws ds :
  Forall2 (discount_matches rt) raws ds ->
  map key_of (map (discount_row_of rt prefix) ds)
  = map (raw_discount_key rt prefix) raws.
Proof.
  induction 1 as [|raw d raws ds H _ IH]; simpl; [reflexivity|].
  now rewrite IH, (discount_row_key rt prefix raw d H).
Qed.

Lemma flatten_keys rt raw_items raw_miscs fees misc :
  Forall2 (fee_matches rt) raw_items fees ->
  Forall2 (discount_matches rt) raw_miscs misc ->
  map key_of (flatten rt fees misc)
  = flat_map
      (fun fee =>
         raw_fee_key rt fee
         :: map (raw_discount_key rt (str "disc-")) (raw_discounts fee))
      raw_items
    ++ map (raw_discount_key rt (str "disc-misc-")) raw_miscs.
Proof.
  intros Hf Hm. unfold flatten. rewrite map_app.
  rewrite (discount_rows_keys rt _ _ _ Hm). f_equal.
  induction Hf as [|raw fee raws fees H _ IH]; simpl; [reflexivity|].
  rewrite map_app, IH, (fee_row_key rt raw fee H).
  destruct H as (_ & _ & _ & _ & Hd).
  now rewrite (discount_rows_keys rt _ _ _ Hd).
Qed.

Lemma flatten_count rt raw_items raw_miscs fees misc :
  Forall2 (fee_matches rt) raw_items fees ->
  Forall2 (discount_matches rt) raw_miscs misc ->
  List.length (flatten rt fees misc)
  = (List.length raw_items
     + list_sum (map (fun fee => List.length (raw_discounts fee)) raw_items)
     + List.length raw_miscs)%nat.
Proof.
  intros Hf Hm. rewrite flatten_length.
  rewrite <- (Forall2_length_eq _ _ _ Hf), <- (Forall2_length_eq _ _ _ Hm).
  do 2 f_equal.
  induction Hf as [|raw fee raws fees H _ IH]; simpl; [reflexivity|].
  destruct H as (_ & _ & _ & _ & Hd).
  now rewrite IH, (Forall2_length_eq _ _ _ Hd).
Qed.

Lemma flatten_descriptions rt fees misc :
  Forall (fun r => ToBoolean (DetailRow.description r) = true)
         (flatten rt fees misc).
Proof.
  unfold flatten. apply Forall_app; split.
  - induction fees as [|fee r IH]; simpl; [constructor|].
    constructor.
    + simpl. rewrite or_else_description. apply description_of_truthy.
    + apply Forall_app; split; [|exact IH].
      apply Forall_forall; intros row Hrow.
      apply in_map_iff in Hrow as (d & <- & _); simpl.
      rewrite or_else_description. apply description_of_truthy.
  - apply Forall_forall; intros row Hrow.
    apply in_map_iff in Hrow as (d & <- & _); simpl.
    rewrite or_else_description. apply description_of_truthy.
Qed.

(** What [mapGroup] returns, when it returns. *)
Lemma mapGroup_inv rt g mapped :
  mapGroup rt g = Ok mapped ->
  nullish g = false
  /\ formatCurrency rt (prop g (str "feeTotal")) = Ok (Group.feeTotal mapped)
  /\ formatDiscount rt (prop g (str "discountTotal"))
     = Ok (Group.discountTotal mapped)
  /\ formatCurrency rt (prop g (str "netTotal")) = Ok (Group.netTotal mapped)
  /\ mapSectionItems rt (prop g (str "items")) = Ok (Group.items mapped)
  /\ mapDiscounts rt (prop g (str "miscDiscounts"))
     = Ok (Group.miscDiscounts mapped)
  /\ buildDetailRows rt mapped = Ok (Group.detailRows mapped).
Proof.
  unfold mapGroup, get. destruct (nullish g); [discriminate|]; simpl.
  destruct (formatCurrency rt (prop g (str "feeTotal"))); simpl;
    [|discriminate].
  destruct (formatDiscount rt _); simpl; [|discriminate].
  destruct (formatCurrency rt (prop g (str "netTotal"))); simpl;
    [|discriminate].
  destruct (mapPaymentMethod _); simpl; [|discriminate].
  destruct (mapSectionItems rt _); simpl; [|discriminate].
  destruct (mapDiscounts rt _); simpl; [|discriminate].
  destruct (buildDetailRows rt _) as [rows|] eqn:Hr; simpl; [|discriminate].
  destruct (subst rt a); simpl; [|discriminate].
  destruct (subst rt a0); simpl; [|discriminate].
  intros H; injection H as <-. simpl. repeat split; auto.
Qed.

Lemma mapGroup_total rt g :
  has_fallback rt = true -> mappable g = true ->
  exists mapped, mapGroup rt g = Ok mapped.
Proof.
  unfold mappable, walkable, printable, amounts_print, ids_print.
  intros Hf Hw.
  apply andb_prop in Hw as [Hw Hp]. apply andb_prop in Hp as [Hp Hids].
  apply andb_prop in Hids as [Hfi Hmi].
  apply andb_prop in Hp as [Hp Hma]. apply andb_prop in Hp as [Hp Hfa].
  apply andb_prop in Hp as [Hp Hnet]. apply andb_prop in Hp as [Hfee Hdisc].
  apply andb_prop in Hw as [Hw Hm]. apply andb_prop in Hw as [Hw Hd].
  apply andb_prop in Hw as [Hg Hi].
  apply negb_true_iff in Hg.
  unfold mapGroup, get. rewrite Hg; cbn [bind].
  destruct (formatCurrency_total rt _ Hf Hfee) as [a Ha]. rewrite Ha.
  cbn [bind]. rewrite formatDiscount_formatCurrency.
  destruct (formatCurrency_total rt _ Hf Hdisc) as [b Hb]. rewrite Hb.
  cbn [bind].
  destruct (formatCurrency_total rt _ Hf Hnet) as [c ->]. cbn [bind].
  destruct (mapPaymentMethod_total (prop g (str "paymentMethod")))
    as [pm ->]. cbn [bind].
  destruct (mapSectionItems_total rt (prop g (str "items")) Hf Hi Hd Hfa)
    as [fees Hfees]. rewrite Hfees. cbn [bind].
  destruct (mapDiscounts_total rt (prop g (str "miscDiscounts")) Hf Hm Hma)
    as [misc Hmisc]. rewrite Hmisc. cbn [bind].
  rewrite buildDetailRows_cases. cbn [Group.items Group.miscDiscounts].
  apply mapSectionItems_matches in Hfees. apply mapDiscounts_matches in Hmisc.
  unfold rows_defined.
  rewrite (fee_rows_all_defined rt _ _ Hfees),
    (discount_rows_defined rt _ _ Hmisc).
  unfold raw_fees in Hfi. unfold raw_misc in Hmi. rewrite Hfi, Hmi.
  cbn [andb bind Group.set_detailRows Group.feeTotal Group.discountTotal].
  apply formatCurrency_prints in Ha as [_ Ha].
  apply formatCurrency_prints in Hb as [_ Hb].
  rewrite !subst_prints, Ha, Hb. cbn [bind]. eauto.
Qed.

Lemma mapGroup_returns rt g mapped :
  mapGroup rt g = Ok mapped -> mappable g = true.
Proof.
  intros H.
  destruct (mapGroup_inv rt g mapped H)
    as (Hg & Hfee & Hdisc & Hnet & Hi & Hm & Hr).
  apply formatCurrency_prints in Hfee as [Hfee _].
  apply formatCurrency_prints in Hdisc as [Hdisc _].
  apply formatCurrency_prints in Hnet as [Hnet _].
  rewrite buildDetailRows_cases in Hr.
  destruct (rows_defined _ _) eqn:Hrows; [|discriminate].
  unfold rows_defined in Hrows.
  rewrite (fee_rows_all_defined rt _ _ (mapSectionItems_matches rt _ _ Hi)),
    (discount_rows_defined rt _ _ (mapDiscounts_matches rt _ _ Hm)) in Hrows.
  apply mapSectionItems_returns in Hi as (Hi1 & Hi2 & Hi3).
  apply mapDiscounts_returns in Hm as (Hm1 & Hm2).
  unfold mappable, walkable, printable, amounts_print, ids_print,
    raw_fees, raw_misc.
  now rewrite Hg, Hfee, Hdisc, Hnet, Hi1, Hi2, Hi3, Hm1, Hm2, Hrows.
Qed.

Lemma mapGroup_throws rt g : mappable g = false -> mapGroup rt g = Throw.
Proof.
  intros Hm. destruct (mapGroup rt g) as [mapped|] eqn:H; [|reflexivity].
  apply mapGroup_returns in H. congruence.
Qed.

(** C1.  For every raw group, the rows that [buildDetailRows] produces
    for it number (fee items) + (sum of the fee items' discount counts) +
    (misc discounts); they are, for each fee item in input order, its Fee
    row followed by its Discount rows in input order, and, after all fee
    items, one Discount row per misc discount in input order, with the
    ids ["fee-" id], ["disc-" id] and ["disc-misc-" id].  No row is
    dropped for a missing field: a description that is missing falls back
    to the name and, failing that, to the em-dash, so that it is never
    empty.  The rows are produced whenever the group and the elements of
    its arrays are records whose amounts and schedule ids have a text
    (and the fixed en-US formatter can be built); on any other group the
    mapping throws: on a [null] or [undefined] element, and on an amount
    or schedule id that is a record with a [toString] entry of its own. *)
Theorem buildDetailRows_length_and_order rt g :
  (forall mapped,
      mapGroup rt g = Ok mapped ->
      buildDetailRows rt mapped = Ok (Group.detailRows mapped)
      /\ Group.detailRows mapped
         = flatten rt (Group.items mapped) (Group.miscDiscounts mapped)
      /\ Forall2 (fee_matches rt) (raw_fees g) (Group.items mapped)
      /\ Forall2 (discount_matches rt) (raw_misc g)
                 (Group.miscDiscounts mapped)
      /\ List.length (Group.detailRows mapped) = expected_row_count g
      /\ map key_of (Group.detailRows mapped) = expected_keys rt g
      /\ Forall (fun r => ToBoolean (DetailRow.description r) = true)
                (Group.detailRows mapped))
  /\ (has_fallback rt = true -> mappable g = true ->
      exists mapped, mapGroup rt g = Ok mapped)
  /\ (mappable g = false -> mapGroup rt g = Throw).
Proof.
  split; [|split; [apply mapGroup_total | apply mapGroup_throws]].
  intros mapped Hm.
  destruct (mapGroup_inv rt g mapped Hm) as (_ & _ & _ & _ & Hi & Hd & Hr).
  apply mapSectionItems_matches in Hi. apply mapDiscounts_matches in Hd.
  split; [exact Hr|].
  rewrite (buildDetailRows_flatten rt mapped _ Hr).
  repeat split; auto.
  - now apply flatten_count.
  - now apply flatten_keys.
  - apply flatten_descriptions.
Qed.

Lemma buildDetailRows_length_and_order_witness :
  exists mapped,
    mapGroup Sample.rt Sample.group = Ok mapped
    /\ List.length (Group.detailRows mapped) = 4%nat
    /\ map DetailRow.id (Group.detailRows mapped)
       = [str "fee-F1"; str "disc-D1"; str "fee-F2"; str "disc-misc-D9"].
Proof.
  destruct (buildDetailRows_length_and_order Sample.rt Sample.group)
    as (Hrows & Htotal & _).
  destruct (Htotal eq_refl eq_refl) as [mapped Hm].
  destruct (Hrows mapped Hm) as (_ & _ & _ & _ & Hlen & Hkeys & _).
  exists mapped. repeat split; [exact Hm | exact Hlen |].
  change (map DetailRow.id (Group.detailRows mapped))
    with (map (fun r => fst (fst (fst (key_of r)))) (Group.detailRows mapped)).
  rewrite <- (map_map key_of (fun k => fst (fst (fst k)))), Hkeys.
  reflexivity.
Defined.

(** ** Pagination *)

Lemma ceil_div_bounds a b :
  0 < b -> (ceil_div a b - 1) * b < a <= ceil_div a b * b.
Proof.
  intros Hb. unfold ceil_div.
  pose proof (Z.div_mod (- a) b ltac:(lia)) as Hdm.
  pose proof (Z.mod_pos_bound (- a) b Hb) as Hm.
  nia.
Qed.

Lemma ceil_div_unique a b k :
  0 < b -> (k - 1) * b < a <= k * b -> ceil_div a b = k.
Proof.
  intros Hb Hk. pose proof (ceil_div_bounds a b Hb) as Hc. nia.
Qed.

Lemma firstn_past {A} (l : list A) (n m : nat) :
  (List.length l <= n)%nat -> (List.length l <= m)%nat ->
  firstn n l = firstn m l.
Proof. intros Hn Hm. now rewrite !firstn_all2. Qed.

Lemma slice_window {A} (l : list A) (start size : Z) :
  0 <= start -> 0 <= size ->
  slice l start (start + size)
  = firstn (Z.to_nat size) (skipn (Z.to_nat start) l).
Proof.
  intros Hs Hz. unfold slice, relative_index.
  set (len := Z.of_nat (List.length l)).
  assert (Hlen : 0 <= len) by (subst len; lia).
  destruct (Z.ltb_spec start 0); [lia|].
  destruct (Z.ltb_spec (start + size) 0); [lia|].
  destruct (Z.le_gt_cases start len) as [Hin|Hout].
  - rewrite (Z.min_l start len) by lia.
    destruct (Z.le_gt_cases (start + size) len).
    + rewrite Z.min_l by lia. f_equal. lia.
    + rewrite Z.min_r by lia.
      apply firstn_past; rewrite length_skipn; subst len; lia.
  - rewrite (Z.min_r start len) by lia.
    rewrite !skipn_all2 by (subst len; lia).
    now rewrite !firstn_nil.
Qed.

Lemma slice_length {A} (l : list A) (start stop : Z) :
  start <= stop ->
  Z.of_nat (List.length (slice l start stop)) <= stop - start.
Proof.
  intros Hle. unfold slice, relative_index.
  rewrite length_firstn, length_skipn.
  destruct (Z.ltb_spec start 0); destruct (Z.ltb_spec stop 0); lia.
Qed.

Lemma slice_incl {A} (l : list A) (start stop : Z) :
  incl (slice l start stop) l.
Proof.
  unfold slice. intros x Hx.
  set (k := Z.to_nat (relative_index (Z.of_nat (List.length l)) start)) in *.
  rewrite <- (firstn_skipn k l). apply in_or_app; right.
  match type of Hx with
  | In _ (firstn ?n ?r) => rewrite <- (firstn_skipn n r)
  end.
  apply in_or_app; now left.
Qed.

Lemma paginate_beyond {A} (l : list A) (page size : Z) :
  1 <= size -> Z.of_nat (List.length l) <= (page - 1) * size ->
  paginate l page size = [].
Proof.
  intros Hs Hp. unfold paginate.
  rewrite skipn_all2 by lia. apply firstn_nil.
Qed.

Lemma refreshDisplayed_fields c :
  groups (refreshDisplayed c) = groups c
  /\ pageSize (refreshDisplayed c) = pageSize c
  /\ currentPage (refreshDisplayed c) = currentPage c
  /\ totalPages (refreshDisplayed c) = totalPages c.
Proof. repeat split. Qed.

Lemma totalPages_positive c : 1 <= totalPages c.
Proof. unfold totalPages. lia. Qed.

(** ** Navigation keeps the page in range *)

Ltac nav_cases :=
  repeat match goal with
         | |- context [negb (?a <=? ?b)] => destruct (Z.leb_spec a b); simpl
         end.

Lemma handleFirst_in_range c : page_in_range c -> page_in_range (handleFirst c).
Proof.
  unfold handleFirst, page_in_range, disablePrev; intros H. nav_cases; auto.
  pose proof (totalPages_positive c).
  change (1 <= 1 <= totalPages c). lia.
Qed.

Lemma handlePrev_in_range c : page_in_range c -> page_in_range (handlePrev c).
Proof.
  unfold handlePrev, page_in_range, disablePrev; intros H. nav_cases; auto.
  change (1 <= currentPage c - 1 <= totalPages c). lia.
Qed.

Lemma handleNext_in_range c : page_in_range c -> page_in_range (handleNext c).
Proof.
  unfold handleNext, page_in_range, disableNext; intros H. nav_cases; auto.
  change (1 <= currentPage c + 1 <= totalPages c). lia.
Qed.

Lemma handleLast_in_range c : page_in_range c -> page_in_range (handleLast c).
Proof.
  unfold handleLast, page_in_range, disableNext; intros H. nav_cases; auto.
  change (1 <= totalPages c <= totalPages c).
  pose proof (totalPages_positive c). lia.
Qed.

Lemma navigation_keeps_pageSize c :
  pageSize (handleFirst c) = pageSize c
  /\ pageSize (handlePrev c) = pageSize c
  /\ pageSize (handleNext c) = pageSize c
  /\ pageSize (handleLast c) = pageSize c.
Proof.
  unfold handleFirst, handlePrev, handleNext, handleLast.
  destruct (negb (disablePrev c)), (negb (disableNext c)); auto.
Qed.

(** ** The wire handler *)

(** The three ways [wiredPayments] can end. *)
Lemma wiredPayments_cases rt c data err :
  (exists raw gs,
      data = VArr raw
      /\ mapM (mapGroup rt) raw = Ok gs
      /\ wiredPayments rt c data err
         = Returned
             {| groups := gs;
                displayedGroups := slice gs 0 (pageSize c);
                error := VUndef; loading := false;
                activeSectionNames := activeSectionNames c;
                pageSize := pageSize c; currentPage := 1 |})
  \/ (exists message,
         ToBoolean data = false /\ ToBoolean err = true
         /\ normalizeError rt err = Ok message
         /\ wiredPayments rt c data err
            = Returned
                {| groups := []; displayedGroups := [];
                   error := message; loading := false;
                   activeSectionNames := activeSectionNames c;
                   pageSize := pageSize c; currentPage := 1 |})
  \/ (ToBoolean data = false /\ ToBoolean err = false
      /\ wiredPayments rt c data err = Returned (set_loading false c))
  \/ wiredPayments rt c data err = Threw (set_loading false c).
Proof.
  unfold wiredPayments.
  destruct (ToBoolean data) eqn:Hd.
  - unfold or_else; rewrite Hd.
    destruct data as [| | | | |raw|]; try (do 3 right; reflexivity).
    simpl. destruct (mapM (mapGroup rt) raw) as [gs|] eqn:Hm.
    + left. exists raw, gs. auto.
    + do 3 right. reflexivity.
  - destruct (ToBoolean err) eqn:He.
    + destruct (normalizeError rt err) as [message|] eqn:Hn.
      * right; left. exists message. auto.
      * do 3 right. reflexivity.
    + right; right; left. auto.
Qed.

Lemma wiredPayments_in_range rt c data err :
  page_in_range c -> page_in_range (state_of (wiredPayments rt c data err)).
Proof.
  intros H.
  destruct (wiredPayments_cases rt c data err)
    as [(raw & gs & _ & _ & ->) | [(m & _ & _ & _ & ->) | [(_ & _ & ->) | ->]]];
    simpl; auto;
    unfold page_in_range, totalPages; simpl; lia.
Qed.

Lemma wiredPayments_keeps_pageSize rt c data err :
  pageSize (state_of (wiredPayments rt c data err)) = pageSize c.
Proof.
  destruct (wiredPayments_cases rt c data err)
    as [(raw & gs & _ & _ & ->) | [(m & _ & _ & _ & ->) | [(_ & _ & ->) | ->]]];
    reflexivity.
Qed.

Lemma step_in_range rt c e :
  page_in_range c -> page_in_range (step rt c e).
Proof.
  destruct e; simpl.
  - apply wiredPayments_in_range.
  - apply handleFirst_in_range.
  - apply handlePrev_in_range.
  - apply handleNext_in_range.
  - apply handleLast_in_range.
Qed.

Lemma step_keeps_pageSize rt c e : pageSize (step rt c e) = pageSize c.
Proof.
  destruct e; simpl; [apply wiredPayments_keeps_pageSize | | | | ];
    apply navigation_keeps_pageSize.
Qed.

Lemma run_invariant rt es c :
  page_in_range c ->
  page_in_range (run rt c es) /\ pageSize (run rt c es) = pageSize c.
Proof.
  unfold run. revert c; induction es as [|e es IH]; intros c H; simpl.
  - auto.
  - destruct (IH (step rt c e) (step_in_range rt c e H)) as [Hr Hp].
    split; [exact Hr|]. rewrite Hp. apply step_keeps_pageSize.
Qed.

Lemma initial_in_range : page_in_range initial.
Proof. unfold page_in_range, totalPages; simpl. lia. Qed.

Lemma wiredPayments_data_returns rt c raw err :
  has_fallback rt = true -> forallb mappable raw = true ->
  exists gs,
    mapM (mapGroup rt) raw = Ok gs
    /\ wiredPayments rt c (VArr raw) err
       = Returned
           {| groups := gs;
              displayedGroups := slice gs 0 (pageSize c);
              error := VUndef; loading := false;
              activeSectionNames := activeSectionNames c;
              pageSize := pageSize c; currentPage := 1 |}.
Proof.
  intros Hf Hw.
  assert (Ht : exists gs, mapM (mapGroup rt) raw = Ok gs).
  { apply mapM_total. rewrite forallb_forall in Hw.
    apply Forall_forall; intros g Hg. apply mapGroup_total; auto. }
  destruct Ht as [gs Hgs]. exists gs. split; [exact Hgs|].
  unfold wiredPayments; simpl. rewrite Hgs. reflexivity.
Qed.

Lemma refreshDisplayed_slice c page :
  displayedGroups (refreshDisplayed (set_currentPage page c))
  = slice (groups c) ((page - 1) * pageSize c)
          ((page - 1) * pageSize c + pageSize c).
Proof. reflexivity. Qed.

Lemma refreshDisplayed_window c page :
  1 <= pageSize c -> 1 <= page ->
  displayedGroups (refreshDisplayed (set_currentPage page c))
  = paginate (groups c) page (pageSize c).
Proof.
  intros Hps Hp. rewrite refreshDisplayed_slice. unfold paginate.
  apply slice_window; nia.
Qed.

(** C2.  For every page size of at least 1 and every list of groups,
    [totalPages] is max(1, ceil(count / pageSize)), the ceiling being the
    one integer [k] with (k - 1) * pageSize < count <= k * pageSize; and
    for every page number whatever, [refreshDisplayed] sets the displayed
    slice to [groups.slice((page - 1) * pageSize, page * pageSize)], which
    from page 1 on is the window of the page cut at the end of the list,
    holds at most pageSize groups, all of them taken from [groups], and is
    empty past the last page.  [refreshDisplayed] is a total function: no
    page number makes it fail. *)
Theorem totalPages_and_displayed_slice c :
  1 <= pageSize c ->
  let count := Z.of_nat (List.length (groups c)) in
  (exists k,
      (k - 1) * pageSize c < count <= k * pageSize c
      /\ totalPages c = Z.max 1 k)
  /\ forall page,
      let shown := displayedGroups (refreshDisplayed (set_currentPage page c)) in
      shown = slice (groups c) ((page - 1) * pageSize c) (page * pageSize c)
      /\ (1 <= page -> shown = paginate (groups c) page (pageSize c))
      /\ Z.of_nat (List.length shown) <= pageSize c
      /\ incl shown (groups c)
      /\ (totalPages c < page -> shown = []).
Proof.
  intros Hps count. split.
  - exists (ceil_div count (pageSize c)). split; [|reflexivity].
    apply ceil_div_bounds. lia.
  - intros page shown.
    assert (Hshown : shown = slice (groups c) ((page - 1) * pageSize c)
                                   ((page - 1) * pageSize c + pageSize c))
      by apply refreshDisplayed_slice.
    assert (Hwin : 1 <= page -> shown = paginate (groups c) page (pageSize c))
      by (intros Hp; now apply refreshDisplayed_window).
    repeat split.
    + rewrite Hshown. f_equal. ring.
    + exact Hwin.
    + rewrite Hshown.
      etransitivity; [apply slice_length; lia|]. lia.
    + rewrite Hshown. apply slice_incl.
    + intros Hlast. rewrite (Hwin ltac:(pose proof (totalPages_positive c); lia)).
      apply paginate_beyond; [exact Hps|].
      pose proof (ceil_div_bounds count (pageSize c) ltac:(lia)) as Hc.
      unfold totalPages in Hlast. fold count in Hlast. nia.
Qed.

Lemma totalPages_and_displayed_slice_witness :
  totalPages Sample.loaded = 3
  /\ Z.of_nat (List.length
                 (displayedGroups
                    (refreshDisplayed (set_currentPage 3 Sample.loaded)))) <= 3
  /\ displayedGroups (refreshDisplayed (set_currentPage 4 Sample.loaded)) = [].
Proof.
  destruct (totalPages_and_displayed_slice Sample.loaded
              ltac:(vm_compute; discriminate))
    as [(k & Hk & Htp) Hpage].
  assert (Hcount : Z.of_nat (List.length (groups Sample.loaded)) = 7)
    by (vm_compute; reflexivity).
  assert (Hsize : pageSize Sample.loaded = 3) by (vm_compute; reflexivity).
  rewrite Hcount, Hsize in Hk.
  assert (Hk3 : k = 3) by lia.
  assert (Ht : totalPages Sample.loaded = 3) by (rewrite Htp, Hk3; reflexivity).
  split; [exact Ht|]. split.
  - destruct (Hpage 3) as (_ & _ & Hlen & _). exact Hlen.
  - destruct (Hpage 4) as (_ & _ & _ & _ & Hpast).
    apply Hpast. rewrite Ht. reflexivity.
Defined.

(** C3.  Previous on page 1 and Next on the last page change nothing:
    neither the page number nor the displayed slice, nor any other field.
    In every other state whose page is in range, Previous takes one from
    the page number, Next adds one to it, and the slice is computed again
    for the new page. *)
Theorem prev_next_noop_at_the_ends c :
  (currentPage c = 1 -> handlePrev c = c)
  /\ (currentPage c = totalPages c -> handleNext c = c)
  /\ (page_in_range c -> currentPage c <> 1 ->
      handlePrev c = refreshDisplayed (set_currentPage (currentPage c - 1) c)
      /\ currentPage (handlePrev c) = currentPage c - 1
      /\ (1 <= pageSize c ->
          displayedGroups (handlePrev c)
          = paginate (groups c) (currentPage c - 1) (pageSize c)))
  /\ (page_in_range c -> currentPage c <> totalPages c ->
      handleNext c = refreshDisplayed (set_currentPage (currentPage c + 1) c)
      /\ currentPage (handleNext c) = currentPage c + 1
      /\ (1 <= pageSize c ->
          displayedGroups (handleNext c)
          = paginate (groups c) (currentPage c + 1) (pageSize c))).
Proof.
  unfold page_in_range.
  split; [|split; [|split]].
  - intros H. unfold handlePrev, disablePrev. rewrite H. reflexivity.
  - intros H. unfold handleNext, disableNext. rewrite H, Z.leb_refl.
    reflexivity.
  - intros Hr Hne.
    assert (Hp : handlePrev c
                 = refreshDisplayed (set_currentPage (currentPage c - 1) c)).
    { unfold handlePrev, disablePrev.
      destruct (Z.leb_spec (currentPage c) 1); [lia|reflexivity]. }
    rewrite Hp. repeat split.
    intros Hps. apply refreshDisplayed_window; lia.
  - intros Hr Hne.
    assert (Hn : handleNext c
                 = refreshDisplayed (set_currentPage (currentPage c + 1) c)).
    { unfold handleNext, disableNext.
      destruct (Z.leb_spec (totalPages c) (currentPage c)); [lia|reflexivity]. }
    rewrite Hn. repeat split.
    intros Hps. apply refreshDisplayed_window; lia.
Qed.

Lemma prev_next_noop_at_the_ends_witness :
  handlePrev Sample.loaded = Sample.loaded
  /\ currentPage (handleNext Sample.loaded) = 2
  /\ handleNext (handleLast Sample.loaded) = handleLast Sample.loaded.
Proof.
  destruct (prev_next_noop_at_the_ends Sample.loaded)
    as (Hprev & _ & _ & Hnext).
  destruct (prev_next_noop_at_the_ends (handleLast Sample.loaded))
    as (_ & Hlast & _).
  split; [apply Hprev; reflexivity|]. split.
  - destruct Hnext as (_ & Hcp & _).
    + vm_compute. split; discriminate.
    + vm_compute. discriminate.
    + rewrite Hcp. reflexivity.
  - apply Hlast. vm_compute. reflexivity.
Defined.

(** ** normalizeError *)

Lemma mapM_get key body :
  mapM (fun e => get e key) body
  = if no_nullish body then Ok (map (fun e => prop e key) body) else Throw.
Proof.
  induction body as [|e r IH]; [reflexivity|].
  cbn [mapM map]. unfold no_nullish in *. cbn [forallb].
  rewrite IH. unfold get. destruct (nullish e); cbn [negb andb bind];
    [reflexivity|].
  destruct (forallb _ r); reflexivity.
Qed.

Lemma joinable_split body :
  forallb joinable body
  = no_nullish body
    && forallb (fun m => nullish m || prints m)
               (map (fun e => prop e (str "message")) body).
Proof.
  unfold no_nullish. induction body as [|e r IH]; [reflexivity|].
  cbn [forallb map]. rewrite IH. unfold joinable.
  destruct (negb (nullish e)), (nullish (prop e (str "message")) || prints _),
    (forallb (fun v => negb (nullish v)) r); reflexivity.
Qed.

Lemma normalizeError_array rt err body :
  get_opt err (str "body") = VArr body ->
  normalizeError rt err
  = if forallb joinable body
    then Ok (VStr (joined (NumberToString rt) (str ", ")
                     (map (fun e => prop e (str "message")) body)))
    else Throw.
Proof.
  intros Hb. unfold normalizeError. rewrite Hb.
  rewrite mapM_get, joinable_split.
  destruct (no_nullish body); cbn [bind andb]; [|reflexivity].
  rewrite join_prints. destruct (forallb _ _); reflexivity.
Qed.

Lemma normalizeError_array_join rt err body :
  get_opt err (str "body") = VArr body ->
  no_nullish body = true ->
  normalizeError rt err
  = (text <- join (NumberToString rt) (str ", ")
               (map (fun e => prop e (str "message")) body) ;;
     Ok (VStr text)).
Proof.
  intros Hb Hn. unfold normalizeError. rewrite Hb, mapM_get, Hn. reflexivity.
Qed.

Lemma normalizeError_not_array rt err :
  isArray (get_opt err (str "body")) = false ->
  normalizeError rt err
  = Ok (let message := get_opt (get_opt err (str "body")) (str "message") in
        if ToBoolean message then message
        else or_else (get_opt err (str "statusText"))
                     (VStr (str "Unknown error"))).
Proof.
  intros Hb. unfold normalizeError.
  destruct (get_opt err (str "body")) eqn:E; simpl in Hb; try discriminate;
    cbv zeta;
    match goal with |- context [ToBoolean ?m] => destruct (ToBoolean m) end;
    reflexivity.
Qed.

Lemma normalizeError_total rt err :
  forallb joinable (array_or_empty (get_opt err (str "body"))) = true ->
  exists message, normalizeError rt err = Ok message.
Proof.
  intros Hn. destruct (isArray (get_opt err (str "body"))) eqn:Ha.
  - destruct (get_opt err (str "body")) eqn:E; simpl in Ha; try discriminate.
    rewrite (normalizeError_array rt err elems E). simpl in Hn. rewrite Hn.
    eauto.
  - rewrite (normalizeError_not_array rt err Ha). eauto.
Qed.

Lemma normalizeError_returns rt err message :
  normalizeError rt err = Ok message ->
  forallb joinable (array_or_empty (get_opt err (str "body"))) = true.
Proof.
  destruct (get_opt err (str "body")) as [| | | | |body|] eqn:Hb;
    try reflexivity.
  rewrite (normalizeError_array rt err body Hb). simpl.
  destruct (forallb joinable body); [reflexivity|discriminate].
Qed.

Lemma normalizeError_throws rt err :
  normalizeError rt err = Throw ->
  forallb joinable (array_or_empty (get_opt err (str "body"))) = false.
Proof.
  intros H.
  destruct (forallb joinable (array_or_empty (get_opt err (str "body"))))
    eqn:Hn; [|reflexivity].
  destruct (normalizeError_total rt err Hn) as [m Hm]. congruence.
Qed.

Lemma slice_nil {A} (start stop : Z) : slice (@nil A) start stop = [].
Proof. unfold slice. now rewrite skipn_nil, firstn_nil. Qed.

(** C4.  The page number stays in [1, totalPages], where totalPages is
    max(1, ceil(groups.length / pageSize)): it does in every state the
    instance reaches from its initial fields through deliveries of the
    wire adapter (data, error, or neither; well-formed or not) and the
    four navigation handlers, where moreover pageSize is 3; and each of
    these operations keeps it from any state that has it.  A delivery of
    data or of an error that the handler processes to its end sets the
    page to 1 and the slice to the first page of the new group list,
    which is the mapped payload, or empty after an error.  A payload of
    groups that can be mapped (no [null] or [undefined] among the groups
    and the elements of their arrays, and a text for every amount and
    schedule id) is always processed to the end, the fixed en-US
    formatter being available; and so is an error whose [body], when an
    array, holds no [null] or [undefined] and no message without a
    text. *)
Theorem currentPage_always_in_range rt :
  (forall events,
      let c := run rt initial events in
      pageSize c = 3 /\ 1 <= currentPage c <= totalPages c)
  /\ (forall c e, page_in_range c -> page_in_range (step rt c e))
  /\ (forall c data err c',
        ToBoolean data = true \/ ToBoolean err = true ->
        wiredPayments rt c data err = Returned c' ->
        currentPage c' = 1
        /\ displayedGroups c' = slice (groups c') 0 (pageSize c')
        /\ (1 <= pageSize c ->
            displayedGroups c' = paginate (groups c') 1 (pageSize c'))
        /\ (ToBoolean data = true ->
            exists raw, data = VArr raw
                        /\ mapM (mapGroup rt) raw = Ok (groups c'))
        /\ (ToBoolean data = false -> groups c' = []))
  /\ (forall c raw err,
        has_fallback rt = true -> forallb mappable raw = true ->
        exists c', wiredPayments rt c (VArr raw) err = Returned c')
  /\ (forall c data err,
        ToBoolean data = false -> ToBoolean err = true ->
        forallb joinable (array_or_empty (get_opt err (str "body"))) = true ->
        exists c', wiredPayments rt c data err = Returned c').
Proof.
  split; [|split; [|split; [|split]]].
  - intros events c.
    destruct (run_invariant rt events initial initial_in_range) as [Hr Hp].
    split; [exact Hp | exact Hr].
  - apply step_in_range.
  - intros c data err c' Harr Hret.
    destruct (wiredPayments_cases rt c data err)
      as [(raw & gs & Hd & Hm & H) | [(m & Hd & He & Hn & H) | [(Hd & He & H) | H]]];
      rewrite H in Hret; try discriminate; injection Hret as <-; simpl.
    + split; [reflexivity|]. split; [reflexivity|]. split; [|split].
      * intros Hps. unfold paginate. rewrite <- (slice_window gs 0) by lia.
        reflexivity.
      * intros _. exists raw; auto.
      * subst data. discriminate.
    + split; [reflexivity|]. split; [now rewrite slice_nil|]. split; [|split].
      * intros _. unfold paginate. now rewrite skipn_nil, firstn_nil.
      * congruence.
      * reflexivity.
    + destruct Harr; congruence.
  - intros c raw err Hf Hw.
    destruct (wiredPayments_data_returns rt c raw err Hf Hw) as (gs & _ & H).
    eauto.
  - intros c data err Hd He Hn.
    destruct (normalizeError_total rt err Hn) as [message Hm].
    unfold wiredPayments. rewrite Hd, He, Hm. eauto.
Qed.

Lemma currentPage_always_in_range_witness :
  exists c',
    wiredPayments Sample.rt (handleLast Sample.loaded) Sample.payload VUndef
    = Returned c'
    /\ currentPage c' = 1
    /\ page_in_range (step Sample.rt Sample.loaded Next).
Proof.
  destruct (currentPage_always_in_range Sample.rt)
    as (_ & Hstep & Hreset & Hret & _).
  destruct (Hret (handleLast Sample.loaded)
              (array_or_empty Sample.payload) VUndef eq_refl eq_refl)
    as [c' Hc'].
  change (VArr (array_or_empty Sample.payload)) with Sample.payload in Hc'.
  exists c'. split; [exact Hc'|]. split.
  - destruct (Hreset (handleLast Sample.loaded) Sample.payload VUndef c'
                (or_introl eq_refl) Hc') as (Hcp & _).
    exact Hcp.
  - apply Hstep. vm_compute. split; discriminate.
Defined.

(** C8.  A delivery without data and with an error, once [normalizeError]
    has returned its message, leaves the instance with that message as
    [error], no groups, no displayed groups and page 1, whatever the
    groups, slice, page and error were before; only the fields the
    handler never writes (page size, open sections) survive.
    [normalizeError] returns for every error whose [body], when an array,
    holds no [null] or [undefined] and no message without a text. *)
Theorem error_arrival_clears_state rt c data err :
  ToBoolean data = false ->
  ToBoolean err = true ->
  (forall message,
      normalizeError rt err = Ok message ->
      wiredPayments rt c data err
      = Returned
          {| groups := []; displayedGroups := [];
             error := message; loading := false;
             activeSectionNames := activeSectionNames c;
             pageSize := pageSize c; currentPage := 1 |})
  /\ (forallb joinable (array_or_empty (get_opt err (str "body"))) = true ->
      exists message, normalizeError rt err = Ok message).
Proof.
  intros Hd He. split.
  - intros message Hn. unfold wiredPayments. rewrite Hd, He, Hn. reflexivity.
  - apply normalizeError_total.
Qed.

Lemma error_arrival_clears_state_witness :
  wiredPayments Sample.rt Sample.loaded VUndef Sample.error_list
  = Returned
      {| groups := []; displayedGroups := [];
         error := Sample.s "A, B"; loading := false;
         activeSectionNames := []; pageSize := 3; currentPage := 1 |}.
Proof.
  destruct (error_arrival_clears_state Sample.rt Sample.loaded VUndef
              Sample.error_list eq_refl eq_refl) as [H _].
  apply (H (Sample.s "A, B")). vm_compute. reflexivity.
Defined.

(** C7.  [normalizeError] tries four cases in order and the first that
    applies decides: a [body] that is an array gives its elements'
    [message] fields joined with ", ", which is a string when no element
    is [null] or [undefined] and every message that is there has a text,
    and an exception otherwise; when [body] is no array, a truthy
    [body.message] is returned; otherwise a truthy [statusText];
    otherwise the literal "Unknown error".  So
    {body: [{message: "A"}, {message: "B"}]} gives "A, B",
    {body: {message: "C"}} gives "C", and {} gives "Unknown error". *)
Theorem normalizeError_priority_chain rt :
  (forall err,
      let body := get_opt err (str "body") in
      let message := get_opt body (str "message") in
      let statusText := get_opt err (str "statusText") in
      (forall subs,
          body = VArr subs ->
          let messages := map (fun e => prop e (str "message")) subs in
          (no_nullish subs = true ->
           normalizeError rt err
           = (text <- join (NumberToString rt) (str ", ") messages ;;
              Ok (VStr text)))
          /\ (forallb joinable subs = true ->
              normalizeError rt err
              = Ok (VStr (joined (NumberToString rt) (str ", ") messages)))
          /\ (forallb joinable subs = false ->
              normalizeError rt err = Throw))
      /\ (isArray body = false -> ToBoolean message = true ->
          normalizeError rt err = Ok message)
      /\ (isArray body = false -> ToBoolean message = false ->
          ToBoolean statusText = true ->
          normalizeError rt err = Ok statusText)
      /\ (isArray body = false -> ToBoolean message = false ->
          ToBoolean statusText = false ->
          normalizeError rt err = Ok (VStr (str "Unknown error"))))
  /\ normalizeError rt Sample.error_list = Ok (Sample.s "A, B")
  /\ normalizeError rt Sample.error_single = Ok (Sample.s "C")
  /\ normalizeError rt Sample.error_empty = Ok (Sample.s "Unknown error").
Proof.
  split; [|repeat split].
  intros err body message statusText. split; [|split; [|split]].
  - intros subs Hb messages. split; [|split].
    + intros Hn. now apply normalizeError_array_join.
    + intros Hj. now rewrite (normalizeError_array rt err subs Hb), Hj.
    + intros Hj. now rewrite (normalizeError_array rt err subs Hb), Hj.
  - intros Ha Hm. rewrite (normalizeError_not_array rt err Ha).
    cbv zeta. fold body. fold message. now rewrite Hm.
  - intros Ha Hm Hs. rewrite (normalizeError_not_array rt err Ha).
    cbv zeta. fold body. fold message. rewrite Hm.
    unfold or_else. fold statusText. now rewrite Hs.
  - intros Ha Hm Hs. rewrite (normalizeError_not_array rt err Ha).
    cbv zeta. fold body. fold message. rewrite Hm.
    unfold or_else. fold statusText. now rewrite Hs.
Qed.

Lemma normalizeError_priority_chain_witness :
  normalizeError Sample.rt
    (VObj [Sample.fld "body" (VObj [Sample.fld "message" (Sample.s "C")]);
           Sample.fld "statusText" (Sample.s "Bad Request")])
  = Ok (Sample.s "C")
  /\ normalizeError Sample.rt
       (VObj [Sample.fld "statusText" (Sample.s "Bad Request")])
     = Ok (Sample.s "Bad Request")
  /\ normalizeError Sample.rt
       (VObj [Sample.fld "body"
                (VArr [VObj [Sample.fld "message" (Sample.s "A")];
                       VObj [Sample.fld "message"
                               (VObj [Sample.fld "toString"
                                        (Sample.s "x")])]])])
     = Throw.
Proof.
  destruct (normalizeError_priority_chain Sample.rt) as [H _].
  split; [|split].
  - destruct (H (VObj [Sample.fld "body"
                         (VObj [Sample.fld "message" (Sample.s "C")]);
                       Sample.fld "statusText" (Sample.s "Bad Request")]))
      as (_ & Hmsg & _).
    apply Hmsg; reflexivity.
  - destruct (H (VObj [Sample.fld "statusText" (Sample.s "Bad Request")]))
      as (_ & _ & Hst & _).
    apply Hst; reflexivity.
  - destruct (H (VObj [Sample.fld "body"
                         (VArr [VObj [Sample.fld "message" (Sample.s "A")];
                                VObj [Sample.fld "message"
                                        (VObj [Sample.fld "toString"
                                                 (Sample.s "x")])]])]))
      as (Harr & _).
    destruct (Harr _ eq_refl) as (_ & _ & Hthrow).
    apply Hthrow. reflexivity.
Defined.

(** C9.  [mapPaymentMethod] never throws and has two outcomes only.  An
    absent input ([null] or [undefined]; any falsy value is treated as
    absent) and an input whose [displayType] is 'BILL_TO_ACCOUNT' give
    the bill-to-account view: the label 'Bill to Account' and every other
    field [null].  Every other input, in particular every other record,
    gives the stored-account view: [nickname], [cardType], [endingIn] and
    [expiration] as they are in the input, and a [null] label. *)
Theorem mapPaymentMethod_two_way pm :
  exists view,
    mapPaymentMethod pm = Ok view
    /\ (PaymentMethod.type view = BILL_TO_ACCOUNT
        \/ PaymentMethod.type view = STORED_ACCOUNT)
    /\ (nullish pm = true -> view = bill_to_account_view)
    /\ (strict_eq_str (prop pm (str "displayType")) BILL_TO_ACCOUNT = true ->
        view = bill_to_account_view)
    /\ (is_record pm = true ->
        strict_eq_str (prop pm (str "displayType")) BILL_TO_ACCOUNT = false ->
        view = stored_account_view pm)
    /\ view = (if negb (ToBoolean pm)
                  || strict_eq_str (prop pm (str "displayType")) BILL_TO_ACCOUNT
               then bill_to_account_view
               else stored_account_view pm).
Proof.
  assert (H : mapPaymentMethod pm
              = Ok (if negb (ToBoolean pm)
                       || strict_eq_str (prop pm (str "displayType"))
                                        BILL_TO_ACCOUNT
                    then bill_to_account_view
                    else stored_account_view pm)).
  { unfold mapPaymentMethod, get.
    destruct (ToBoolean pm) eqn:Hb; [|reflexivity].
    assert (Hn : nullish pm = false) by (destruct pm; simpl in *; congruence).
    rewrite Hn. cbn [negb orb bind].
    destruct (strict_eq_str _ _); reflexivity. }
  eexists; split; [exact H|].
  split; [|split; [|split; [|split]]].
  - destruct (_ || _); [left|right]; reflexivity.
  - intros Hn. destruct pm; try discriminate; reflexivity.
  - intros ->. now rewrite orb_true_r.
  - intros Hr ->. destruct pm; try discriminate. reflexivity.
  - reflexivity.
Qed.

Lemma mapPaymentMethod_two_way_witness :
  mapPaymentMethod VNull = Ok bill_to_account_view
  /\ mapPaymentMethod Sample.bill_method = Ok bill_to_account_view
  /\ mapPaymentMethod Sample.visa_method
     = Ok {| PaymentMethod.label := VNull;
             PaymentMethod.nickname := Sample.s "Visa";
             PaymentMethod.cardType := Sample.s "VISA";
             PaymentMethod.endingIn := Sample.s "1234";
             PaymentMethod.expiration := VUndef;
             PaymentMethod.type := STORED_ACCOUNT |}.
Proof.
  split; [|split].
  - destruct (mapPaymentMethod_two_way VNull) as (v & Hv & _ & Hnull & _).
    rewrite Hv, (Hnull eq_refl). reflexivity.
  - destruct (mapPaymentMethod_two_way Sample.bill_method)
      as (v & Hv & _ & _ & Hbill & _).
    rewrite Hv, (Hbill eq_refl). reflexivity.
  - destruct (mapPaymentMethod_two_way Sample.visa_method)
      as (v & Hv & _ & _ & _ & Hstored & _).
    rewrite Hv, (Hstored eq_refl eq_refl). reflexivity.
Defined.

(** ** Amounts *)

(** C6.  When [Number(value)] is NaN, as it is for "N/A", [formatCurrency]
    returns [value] itself and nothing is thrown.  Otherwise it returns
    the string that the currency formatter of the host's locale prints
    for the number, or, when that formatter cannot be built, the string
    the fixed en-US / USD formatter prints.  ([Number(value)] is a number
    for every value but a record with a [toString] entry of its own, or
    an array that holds one: it throws there, and so does
    [formatCurrency].) *)
Theorem formatCurrency_passthrough_and_fallback rt v :
  (forall num,
      ToNumber (NumberToString rt) v = Ok num ->
      (isNaN num = true -> formatCurrency rt v = Ok v)
      /\ (forall format,
            isNaN num = false ->
            NumberFormat rt (locale rt) currency = Some format ->
            formatCurrency rt v = Ok (VStr (format num)))
      /\ (forall format,
            isNaN num = false ->
            NumberFormat rt (locale rt) currency = None ->
            NumberFormat rt (str "en-US") (str "USD") = Some format ->
            formatCurrency rt v = Ok (VStr (format num))))
  /\ (ToNumber (NumberToString rt) v = Throw -> formatCurrency rt v = Throw)
  /\ (prints v = true -> exists num, ToNumber (NumberToString rt) v = Ok num)
  /\ ToNumber (NumberToString rt) (VStr (str "N/A")) = Ok NaN
  /\ formatCurrency rt (VStr (str "N/A")) = Ok (VStr (str "N/A")).
Proof.
  rewrite formatCurrency_ToNumber.
  split; [|split; [|split; [|split]]].
  - intros num ->. cbn [bind]. split; [|split].
    + now intros ->.
    + intros format -> Hf. unfold formatter. now rewrite Hf.
    + intros format -> Hl Hf. unfold formatter. now rewrite Hl, Hf.
  - now intros ->.
  - intros Hp. rewrite ToNumber_prints, Hp. eauto.
  - reflexivity.
  - reflexivity.
Qed.

Lemma formatCurrency_passthrough_and_fallback_witness :
  formatCurrency Sample.rt (VObj []) = Ok (VObj [])
  /\ formatCurrency Sample.rt (Sample.s "1234.5") = Ok (Sample.s "$1,234.50")
  /\ formatCurrency Sample.rt_unsupported (Sample.num 7) = Ok (Sample.s "$7.00").
Proof.
  split; [|split].
  - destruct (formatCurrency_passthrough_and_fallback Sample.rt (VObj []))
      as (H & _).
    destruct (H NaN eq_refl) as (Hnan & _).
    apply Hnan. reflexivity.
  - destruct (formatCurrency_passthrough_and_fallback Sample.rt
                (Sample.s "1234.5")) as (H & _).
    destruct (H _ eq_refl) as (_ & Hfmt & _).
    rewrite (Hfmt Sample.usd eq_refl eq_refl). reflexivity.
  - destruct (formatCurrency_passthrough_and_fallback Sample.rt_unsupported
                (Sample.num 7)) as (H & _).
    destruct (H _ eq_refl) as (_ & _ & Hfb).
    rewrite (Hfb Sample.usd eq_refl eq_refl eq_refl). reflexivity.
Defined.

(** C10.  [null] and the empty string are not passed through by
    [formatCurrency] and [formatDiscount]: [Number] turns both into 0, not
    NaN, so both come out as whatever the currency formatter prints for
    zero ("$0.00" in en-US), exactly as the number 0 does. *)
Theorem null_and_empty_amounts_format_as_zero rt v format :
  v = VNull \/ v = VStr [] ->
  formatter rt = Some format ->
  ToNumber (NumberToString rt) v = Ok pos_zero
  /\ formatCurrency rt v = Ok (VStr (format pos_zero))
  /\ formatDiscount rt v = Ok (VStr (format pos_zero))
  /\ formatCurrency rt v = formatCurrency rt (VNum pos_zero)
  /\ (format pos_zero <> [] ->
      formatCurrency rt v <> Ok v /\ formatDiscount rt v <> Ok v).
Proof.
  intros Hv Hf.
  assert (Hz : ToNumber (NumberToString rt) v = Ok pos_zero)
    by (destruct Hv as [-> | ->]; reflexivity).
  assert (Hc : formatCurrency rt v = Ok (VStr (format pos_zero))).
  { rewrite formatCurrency_ToNumber, Hz. cbn [bind]. rewrite Hf.
    reflexivity. }
  split; [exact Hz|]. split; [exact Hc|].
  split; [now rewrite formatDiscount_formatCurrency|].
  split.
  - rewrite Hc, formatCurrency_ToNumber. simpl. now rewrite Hf.
  - intros Hne. change (formatDiscount rt v) with (formatCurrency rt v).
    rewrite Hc. split; destruct Hv as [-> | ->]; congruence.
Qed.

Lemma null_and_empty_amounts_format_as_zero_witness :
  formatCurrency Sample.rt VNull = Ok (Sample.s "$0.00")
  /\ formatDiscount Sample.rt (VStr []) = Ok (Sample.s "$0.00")
  /\ formatCurrency Sample.rt (VStr []) <> Ok (VStr []).
Proof.
  split; [|split].
  - destruct (null_and_empty_amounts_format_as_zero Sample.rt VNull Sample.usd
                (or_introl eq_refl) eq_refl) as (_ & H & _).
    rewrite H. reflexivity.
  - destruct (null_and_empty_amounts_format_as_zero Sample.rt (VStr [])
                Sample.usd (or_intror eq_refl) eq_refl) as (_ & _ & H & _).
    rewrite H. reflexivity.
  - destruct (null_and_empty_amounts_format_as_zero Sample.rt (VStr [])
                Sample.usd (or_intror eq_refl) eq_refl) as (_ & _ & _ & _ & H).
    apply H. vm_compute. discriminate.
Defined.

(** ** Calendar arithmetic *)

Lemma YearFromDay_spec d :
  DayFromYear (YearFromDay d) <= d < DayFromYear (YearFromDay d + 1).
Proof.
  unfold YearFromDay, DayFromYear.
  repeat match goal with
         | |- context [ ?a <=? ?b ] => destruct (Z.leb_spec a b)
         end;
    Z.to_euclidean_division_equations; lia.
Qed.

Lemma DayFromYear_mono a b : a <= b -> DayFromYear a <= DayFromYear b.
Proof.
  unfold DayFromYear. intros H. Z.to_euclidean_division_equations. lia.
Qed.

Lemma YearFromDay_unique y d :
  DayFromYear y <= d < DayFromYear (y + 1) -> YearFromDay d = y.
Proof.
  intros Hy. pose proof (YearFromDay_spec d) as Hs.
  destruct (Z.lt_trichotomy (YearFromDay d) y) as [Hlt | [Heq | Hgt]];
    [exfalso | exact Heq | exfalso].
  - pose proof (DayFromYear_mono (YearFromDay d + 1) y ltac:(lia)). lia.
  - pose proof (DayFromYear_mono (y + 1) (YearFromDay d) ltac:(lia)). lia.
Qed.

Lemma InLeapYear_cases y : InLeapYear y = 0 \/ InLeapYear y = 1.
Proof.
  unfold InLeapYear, DaysInYear, DayFromYear.
  Z.to_euclidean_division_equations. lia.
Qed.

Lemma Day_MakeDate day : Day (MakeDate day 0) = day.
Proof.
  unfold Day, MakeDate. rewrite Z.add_0_r. apply Z.div_mul.
  unfold msPerDay. lia.
Qed.

Lemma filter_keep {A} (f : A -> bool) a l :
  f a = true -> filter f (a :: l) = a :: filter f l.
Proof. simpl. now intros ->. Qed.

Lemma filter_drop {A} (f : A -> bool) a l :
  f a = false -> filter f (a :: l) = filter f l.
Proof. simpl. now intros ->. Qed.

Ltac month_cases m :=
  assert (m = 0 \/ m = 1 \/ m = 2 \/ m = 3 \/ m = 4 \/ m = 5 \/ m = 6
          \/ m = 7 \/ m = 8 \/ m = 9 \/ m = 10 \/ m = 11) as Hcases by lia;
  repeat (destruct Hcases as [-> | Hcases]); [.. | subst m].

Ltac count_starts :=
  repeat first
    [ rewrite filter_keep by (cbv beta; apply Z.leb_le; lia)
    | rewrite filter_drop by (cbv beta; apply Z.leb_gt; lia) ].

Lemma month_index_start leap m d :
  leap = 0 \/ leap = 1 ->
  0 <= m <= 11 -> 1 <= d <= days_in_month leap m ->
  let start := nth (Z.to_nat m) (month_starts leap) 0 in
  month_index leap (start + d - 1) = m
  /\ 0 <= start + d - 1 < 365 + leap.
Proof.
  intros Hleap Hm Hd.
  destruct Hleap as [-> | ->]; month_cases m;
    cbv [days_in_month nth Z.to_nat Pos.to_nat Pos.iter_op Nat.add] in Hd;
    cbv [month_index month_starts nth Z.to_nat Pos.to_nat Pos.iter_op Nat.add];
    count_starts; cbn [List.length filter]; lia.
Qed.

(** The calendar fields of the local midnight that [MakeDay] builds. *)
Lemma fields_of_MakeDay y m d :
  0 <= m <= 11 -> 1 <= d <= days_in_month (InLeapYear y) m ->
  let t := MakeDate (MakeDay y m d) 0 in
  YearFromTime t = y /\ MonthFromTime t = m /\ DateFromTime t = d.
Proof.
  intros Hm Hd t.
  destruct (month_index_start (InLeapYear y) m d (InLeapYear_cases y) Hm Hd)
    as [Hidx Hrange].
  set (start := nth (Z.to_nat m) (month_starts (InLeapYear y)) 0) in *.
  assert (Hday : Day t = DayFromYear y + start + d - 1).
  { unfold t. rewrite Day_MakeDate. unfold MakeDay.
    rewrite (Z.div_small m 12), (Z.mod_small m 12), !Z.add_0_r by lia.
    reflexivity. }
  assert (Hyear : YearFromTime t = y).
  { unfold YearFromTime. rewrite Hday. apply YearFromDay_unique.
    unfold InLeapYear, DaysInYear in Hrange. lia. }
  assert (Hdwy : DayWithinYear t = start + d - 1)
    by (unfold DayWithinYear; rewrite Hyear, Hday; lia).
  assert (Hmonth : MonthFromTime t = m)
    by (unfold MonthFromTime; rewrite Hyear, Hdwy; exact Hidx).
  repeat split; auto.
  unfold DateFromTime. rewrite Hmonth, Hyear, Hdwy. fold start. lia.
Qed.

(** A date built from local fields reads back as the same fields in the
    same zone, whatever the zone's offset (of less than a day). *)
Lemma new_Date_local_fields tza y m d :
  Z.abs tza <= msPerDay ->
  100 <= y <= 200000 ->
  0 <= m <= 11 -> 1 <= d <= days_in_month (InLeapYear y) m ->
  exists tv,
    new_Date tza (Some y) m d = Some tv
    /\ local_fields tza tv = (y, m, d).
Proof.
  intros Htz Hy Hm Hd.
  destruct (fields_of_MakeDay y m d Hm Hd) as (Hyear & Hmonth & Hdate).
  set (t := MakeDate (MakeDay y m d) 0) in *.
  exists (t - tza). split.
  - unfold new_Date, MakeFullYear.
    destruct (Z.leb_spec y 99); [lia|]. rewrite andb_false_r.
    fold t. unfold UTC, TimeClip.
    assert (Hbound : Z.abs (t - tza) <= 8640000000000000).
    { destruct (month_index_start (InLeapYear y) m d (InLeapYear_cases y) Hm Hd)
        as [_ Hrange].
      unfold t, MakeDate, MakeDay.
      rewrite (Z.div_small m 12), (Z.mod_small m 12), !Z.add_0_r by lia.
      pose proof (DayFromYear_mono 100 y ltac:(lia)) as Hlo.
      pose proof (DayFromYear_mono y 200000 ltac:(lia)) as Hhi.
      change (DayFromYear 100) with (-683003) in Hlo.
      change (DayFromYear 200000) with 72328972 in Hhi.
      pose proof (InLeapYear_cases y) as Hl.
      unfold msPerDay in *. lia. }
    apply Z.leb_le in Hbound. now rewrite Hbound.
  - unfold local_fields, LocalTime.
    replace (t - tza + tza) with t by lia.
    now rewrite Hyear, Hmonth, Hdate.
Qed.

(** ** formatDate *)

(** What [formatDate] does with a string. *)
Lemma formatDate_string rt s :
  formatDate rt (VStr s)
  = let parts := date_parts s in
    match DateTimeFormat rt (locale rt),
          new_Date (LocalTZA rt) (nth 0 parts None)
                   (or_one (nth 1 parts None) - 1) (or_one (nth 2 parts None))
    with
    | Some format, Some tv =>
        let '(year, month, day) := local_fields (LocalTZA rt) tv in
        VStr (format year month day)
    | _, _ => VStr s
    end.
Proof.
  unfold formatDate, formatDate_try, or_else, date_parts.
  destruct s as [|c s'].
  - cbn [ToBoolean]. cbv zeta. cbn [bind].
    change (nth 0 (map parseInt10 (split hyphen [])) None) with (@None Z).
    cbn [new_Date].
    destruct (DateTimeFormat rt (locale rt)); reflexivity.
  - cbn [ToBoolean]. cbv zeta. cbn [bind].
    destruct (DateTimeFormat rt (locale rt)); [|reflexivity].
    cbn [bind].
    destruct (new_Date _ _ _ _) as [tv|]; [|reflexivity].
    cbn [bind]. destruct (local_fields (LocalTZA rt) tv) as [[y m] d].
    reflexivity.
Qed.

Lemma formatDate_falsy rt v : ToBoolean v = false -> formatDate rt v = v.
Proof.
  intros Hv. unfold formatDate, formatDate_try, or_else. rewrite Hv.
  cbn [bind].
  change (nth 0 (map parseInt10 (split hyphen [])) None) with (@None Z).
  cbn [new_Date].
  destruct (DateTimeFormat rt (locale rt)); reflexivity.
Qed.

Lemma formatDate_not_string rt v : is_string v = false -> formatDate rt v = v.
Proof.
  intros Hs. destruct (ToBoolean v) eqn:Hv.
  - unfold formatDate, formatDate_try, or_else. rewrite Hv.
    destruct v; try discriminate; reflexivity.
  - now apply formatDate_falsy.
Qed.

Lemma formatDate_no_formatter rt v :
  DateTimeFormat rt (locale rt) = None -> formatDate rt v = v.
Proof.
  intros Hf. destruct v; try (apply formatDate_not_string; reflexivity).
  rewrite formatDate_string. cbv zeta. now rewrite Hf.
Qed.

Lemma formatDate_fields rt format s y m d :
  DateTimeFormat rt (locale rt) = Some format ->
  Z.abs (LocalTZA rt) <= msPerDay ->
  nth 0 (date_parts s) None = Some y ->
  or_one (nth 1 (date_parts s) None) = m ->
  or_one (nth 2 (date_parts s) None) = d ->
  100 <= y <= 200000 ->
  1 <= m <= 12 ->
  1 <= d <= days_in_month (InLeapYear y) (m - 1) ->
  formatDate rt (VStr s) = VStr (format y (m - 1) d).
Proof.
  intros Hf Htz Hy Hm Hd Hyr Hmr Hdr.
  rewrite formatDate_string. cbv zeta. rewrite Hf, Hy, Hm, Hd.
  destruct (new_Date_local_fields (LocalTZA rt) y (m - 1) d Htz Hyr
              ltac:(lia) Hdr) as (tv & -> & ->).
  reflexivity.
Qed.

(** C5, as the code has it.  [formatDate] reads the integers at the start
    of the first three hyphen-separated parts of the string as year,
    month and day, builds the local date from them and prints that date's
    local calendar fields, with no passage through UTC: whatever the
    zone's offset, the fields printed are the fields read (for a year from
    100 on and a day that exists in the month), so "2025-01-05" comes out
    as January 5, 2025.  The input comes back unchanged when it is absent
    or empty, when it is not a string, when its first part does not start
    with an integer, or when the date formatter cannot be built.  A month
    or day part that is missing, zero or not a number is not a failure:
    it is read as 1. *)
Theorem formatDate_local_calendar_date rt :
  (forall format s y,
      DateTimeFormat rt (locale rt) = Some format ->
      Z.abs (LocalTZA rt) <= msPerDay ->
      nth 0 (date_parts s) None = Some y ->
      let m := or_one (nth 1 (date_parts s) None) in
      let d := or_one (nth 2 (date_parts s) None) in
      100 <= y <= 200000 ->
      1 <= m <= 12 ->
      1 <= d <= days_in_month (InLeapYear y) (m - 1) ->
      formatDate rt (VStr s) = VStr (format y (m - 1) d))
  /\ (forall format,
        DateTimeFormat rt (locale rt) = Some format ->
        Z.abs (LocalTZA rt) <= msPerDay ->
        formatDate rt (VStr (str "2025-01-05")) = VStr (format 2025 0 5)
        /\ formatDate rt (VStr (str "2025-xx-05")) = VStr (format 2025 0 5)
        /\ formatDate rt (VStr (str "2025-03")) = VStr (format 2025 2 1))
  /\ (forall v, ToBoolean v = false -> formatDate rt v = v)
  /\ (forall v, is_string v = false -> formatDate rt v = v)
  /\ (forall s,
        nth 0 (date_parts s) None = None -> formatDate rt (VStr s) = VStr s)
  /\ (DateTimeFormat rt (locale rt) = None -> forall v, formatDate rt v = v).
Proof.
  split; [|split; [|split; [|split; [|split]]]].
  - intros format s y Hf Htz Hy m d Hyr Hmr Hdr.
    now apply (formatDate_fields rt format s y m d).
  - intros format Hf Htz. repeat split.
    + apply (formatDate_fields rt format _ 2025 1 5); auto;
        try reflexivity; try lia. vm_compute. split; discriminate.
    + apply (formatDate_fields rt format _ 2025 1 5); auto;
        try reflexivity; try lia. vm_compute. split; discriminate.
    + apply (formatDate_fields rt format _ 2025 3 1); auto;
        try reflexivity; try lia. vm_compute. split; discriminate.
  - apply formatDate_falsy.
  - apply formatDate_not_string.
  - intros s Hy. rewrite formatDate_string. cbv zeta. rewrite Hy.
    cbn [new_Date]. destruct (DateTimeFormat rt (locale rt)); reflexivity.
  - intros Hf v. now apply formatDate_no_formatter.
Qed.

Lemma formatDate_local_calendar_date_witness :
  formatDate Sample.rt (Sample.s "2025-01-05") = Sample.s "Jan 5, 2025"
  /\ formatDate Sample.rt (Sample.s "2024-02-29") = Sample.s "Feb 29, 2024"
  /\ formatDate Sample.rt (Sample.s "n/a") = Sample.s "n/a"
  /\ formatDate Sample.rt_unsupported (Sample.s "2025-01-05")
     = Sample.s "2025-01-05".
Proof.
  destruct (formatDate_local_calendar_date Sample.rt)
    as (Hfields & Hjan & _ & _ & Hyear & _).
  destruct (formatDate_local_calendar_date Sample.rt_unsupported)
    as (_ & _ & _ & _ & _ & Hnone).
  unfold Sample.s. split; [|split; [|split]].
  - destruct (Hjan Sample.medium_date eq_refl) as (H & _).
    + vm_compute. discriminate.
    + rewrite H. reflexivity.
  - rewrite (Hfields Sample.medium_date (str "2024-02-29") 2024 eq_refl).
    + reflexivity.
    + vm_compute. discriminate.
    + reflexivity.
    + lia.
    + vm_compute. split; discriminate.
    + vm_compute. split; discriminate.
  - apply Hyear. reflexivity.
  - apply Hnone. reflexivity.
Defined.

(** C5 as stated fails where it says that a failed parse returns the
    input: the month of "2025-xx-05" does not parse, and what comes back
    is a date in January, not the input. *)
Lemma formatDate_unparsed_month_is_january :
  parseInt10 (str "xx") = None
  /\ formatDate Sample.rt (Sample.s "2025-xx-05") = Sample.s "Jan 5, 2025"
  /\ formatDate Sample.rt (Sample.s "2025-xx-05") <> Sample.s "2025-xx-05".
Proof.
  split; [reflexivity|].
  assert (H : formatDate Sample.rt (Sample.s "2025-xx-05")
              = Sample.s "Jan 5, 2025") by (vm_compute; reflexivity).
  split; [exact H|]. rewrite H. vm_compute. discriminate.
Qed.

(** Reading the same fields as UTC, as [new Date("2025-01-05")] does,
    shows the day before in a zone behind UTC: the shift that building the
    date from local fields avoids. *)
Remark utc_fields_shift_the_day :
  option_map (local_fields (LocalTZA Sample.rt))
             (Date_of_utc_fields 2025 0 5) = Some (2025, 0, 4)
  /\ option_map (local_fields (LocalTZA Sample.rt))
                (new_Date (LocalTZA Sample.rt) (Some 2025) 0 5)
     = Some (2025, 0, 5).
Proof. split; vm_compute; reflexivity. Qed.

(** ** The scenario of the design document

    Seven groups: three pages; the first shows groups 1 to 3; Next shows
    4 to 6 on page 2; Last shows group 7 alone on page 3; Next then does
    nothing. *)
Example seven_groups_scenario :
  let c1 := Sample.loaded in
  let c2 := handleNext c1 in
  let c3 := handleLast c2 in
  totalPages c1 = 3
  /\ currentPage c1 = 1
  /\ displayedGroups c1 = firstn 3 (groups c1)
  /\ currentPage c2 = 2
  /\ displayedGroups c2 = firstn 3 (skipn 3 (groups c1))
  /\ currentPage c3 = 3
  /\ displayedGroups c3 = skipn 6 (groups c1)
  /\ List.length (displayedGroups c3) = 1%nat
  /\ handleNext c3 = c3.
Proof. vm_compute. repeat split. Qed.

(** The rows of the sample group: a fee with a name, its discount, a fee
    with neither description nor name, and a misc discount. *)
Example sample_group_rows :
  option_map
    (fun g => map (fun r => (DetailRow.id r, DetailRow.description r,
                             DetailRow.type r, DetailRow.amount r))
                  (Group.detailRows g))
    (match mapGroup Sample.rt Sample.group with
     | Ok g => Some g
     | Throw => None
     end)
  = Some
      [(str "fee-F1", Sample.s "Dues", str "Fee", Sample.s "$60.00");
       (str "disc-D1", Sample.s "Senior", str "Discount", Sample.s "-$10.00");
       (str "fee-F2", VStr em_dash, str "Fee", Sample.s "$40.00");
       (str "disc-misc-D9", Sample.s "Promo", str "Discount",
        Sample.s "-$5.00")].
Proof. vm_compute. reflexivity. Qed.

(** A record with a [toString] entry of its own has no text: the
    template literal, [Number] and [join] all throw on it, also inside an
    array, while an entry named [valueOf] does no harm. *)
Example own_toString_has_no_text :
  let hidden := VObj [Sample.fld "toString" (Sample.s "x")] in
  subst Sample.rt hidden = Throw
  /\ subst Sample.rt (VArr [Sample.num 1; hidden]) = Throw
  /\ ToNumber (NumberToString Sample.rt)
       (VObj [Sample.fld "toString" VNull]) = Throw
  /\ join (NumberToString Sample.rt) (str ", ") [Sample.s "A"; hidden]
     = Throw
  /\ subst Sample.rt (VObj [Sample.fld "valueOf" (Sample.s "x")])
     = Ok (str "[object Object]")
  /\ subst Sample.rt (VArr [VNull; Sample.s "a"; VArr [VUndef; Sample.s "b"]])
     = Ok (str ",a,,b")
  /\ formatCurrency Sample.rt hidden = Throw
  /\ mapDiscounts Sample.rt (VArr [VObj [Sample.fld "amount" hidden]])
     = Throw
  /\ mapGroup Sample.rt
       (VObj [Sample.fld "items"
                (VArr [VObj [Sample.fld "feeScheduleId" hidden]])])
     = Throw
  /\ normalizeError Sample.rt
       (VObj [Sample.fld "body" (VArr [VObj [Sample.fld "message" hidden]])])
     = Throw.
Proof. vm_compute. repeat split. Qed.

(* ================================================================== *)
(** * Further properties of the pager                                  *)
(* ================================================================== *)

Lemma navigation_keeps_groups c :
  groups (handleFirst c) = groups c
  /\ groups (handlePrev c) = groups c
  /\ groups (handleNext c) = groups c
  /\ groups (handleLast c) = groups c.
Proof.
  unfold handleFirst, handlePrev, handleNext, handleLast.
  destruct (negb (disablePrev c)), (negb (disableNext c)); auto.
Qed.

Lemma refreshDisplayed_shows c : shows_current_page (refreshDisplayed c).
Proof. reflexivity. Qed.

Lemma navigation_shows_current_page c :
  shows_current_page c ->
  shows_current_page (handleFirst c)
  /\ shows_current_page (handlePrev c)
  /\ shows_current_page (handleNext c)
  /\ shows_current_page (handleLast c).
Proof.
  intros H. unfold handleFirst, handlePrev, handleNext, handleLast.
  destruct (negb (disablePrev c)), (negb (disableNext c));
    repeat split; auto; apply refreshDisplayed_shows.
Qed.

Lemma wiredPayments_shows_current_page rt c data err :
  shows_current_page c ->
  shows_current_page (state_of (wiredPayments rt c data err)).
Proof.
  intros H.
  destruct (wiredPayments_cases rt c data err)
    as [(raw & gs & _ & _ & ->) | [(m & _ & _ & _ & ->) | [(_ & _ & ->) | ->]]];
    simpl; auto.
  - reflexivity.
  - unfold shows_current_page; simpl. now rewrite slice_nil.
Qed.

Lemma step_shows_current_page rt c e :
  shows_current_page c -> shows_current_page (step rt c e).
Proof.
  intros H. destruct e; simpl.
  - now apply wiredPayments_shows_current_page.
  - now apply navigation_shows_current_page.
  - now apply navigation_shows_current_page.
  - now apply navigation_shows_current_page.
  - now apply navigation_shows_current_page.
Qed.

Lemma run_shows_current_page rt es c :
  shows_current_page c -> shows_current_page (run rt c es).
Proof.
  unfold run. revert c; induction es as [|e es IH]; intros c H; simpl; auto.
  apply IH. now apply step_shows_current_page.
Qed.

(** A page in range of a non-empty list is not empty. *)
Lemma paginate_not_empty {A} (l : list A) (page size : Z) :
  1 <= size -> l <> [] ->
  1 <= page <= Z.max 1 (ceil_div (Z.of_nat (List.length l)) size) ->
  paginate l page size <> [].
Proof.
  intros Hs Hl Hp.
  assert (Hcount : 0 < Z.of_nat (List.length l))
    by (destruct l; [congruence | simpl; lia]).
  pose proof (ceil_div_bounds (Z.of_nat (List.length l)) size ltac:(lia)) as Hc.
  assert (Hk : (page - 1) * size < Z.of_nat (List.length l)) by nia.
  unfold paginate.
  destruct (skipn (Z.to_nat ((page - 1) * size)) l) as [|x r] eqn:Hskip.
  - assert (Hlen : List.length (skipn (Z.to_nat ((page - 1) * size)) l) = 0%nat)
      by now rewrite Hskip.
    rewrite length_skipn in Hlen. lia.
  - destruct (Z.to_nat size) eqn:Hn; [lia|]. simpl. discriminate.
Qed.

(** X1.  In every state the instance reaches, the groups on display are
    the window of the current page: [groups.slice((p - 1) * 3, p * 3)]
    for the current page [p], which is the page's window cut at the end
    of the list.  So the display is empty exactly when there are no groups
    at all ([hasData] is false): no reachable page is blank. *)
Theorem displayed_is_current_page rt events :
  let c := run rt initial events in
  shows_current_page c
  /\ displayedGroups c = paginate (groups c) (currentPage c) 3
  /\ Z.of_nat (List.length (displayedGroups c)) <= 3
  /\ (displayedGroups c = [] <-> groups c = [])
  /\ hasData c = negb (Nat.eqb (List.length (displayedGroups c)) 0).
Proof.
  intros c.
  assert (Hshow : shows_current_page c)
    by (apply run_shows_current_page; reflexivity).
  destruct (run_invariant rt events initial initial_in_range) as [Hr Hp].
  fold c in Hr, Hp. change (pageSize initial) with 3 in Hp.
  assert (Hwin : displayedGroups c = paginate (groups c) (currentPage c) 3).
  { unfold shows_current_page in Hshow. rewrite Hshow, Hp.
    unfold paginate. apply slice_window; unfold page_in_range in Hr; lia. }
  assert (Hiff : displayedGroups c = [] <-> groups c = []).
  { split; intros H.
    - destruct (groups c) as [|g gs] eqn:Hg; [reflexivity|exfalso].
      revert H. rewrite Hwin. apply paginate_not_empty; [lia|discriminate|].
      unfold page_in_range, totalPages in Hr. rewrite Hp in Hr.
      rewrite ?Hg in Hr. exact Hr.
    - rewrite Hwin, H. unfold paginate. now rewrite skipn_nil, firstn_nil. }
  split; [exact Hshow|]. split; [exact Hwin|]. split; [|split; [exact Hiff|]].
  - unfold shows_current_page in Hshow. rewrite Hshow, Hp.
    etransitivity; [apply slice_length; lia|]. lia.
  - unfold hasData.
    destruct (displayedGroups c) as [|d ds] eqn:Hd.
    + rewrite (proj1 Hiff eq_refl). reflexivity.
    + destruct (groups c) as [|g gs] eqn:Hg.
      * destruct Hiff as [_ Hiff]. discriminate (Hiff eq_refl).
      * reflexivity.
Qed.

(** ** The pages cover the list *)

Lemma firstn_add {A} (a b : nat) (l : list A) :
  firstn (a + b) l = firstn a l ++ firstn b (skipn a l).
Proof.
  revert l; induction a as [|a IH]; intros l; simpl; [reflexivity|].
  destruct l as [|x r]; simpl.
  - now rewrite firstn_nil.
  - now rewrite IH.
Qed.

Lemma windows_concat {A} (l : list A) (size : Z) (n : nat) :
  1 <= size ->
  List.concat (map (fun p => paginate l p size) (map Z.of_nat (seq 1 n)))
  = firstn (n * Z.to_nat size) l.
Proof.
  intros Hs. induction n as [|n IH]; [reflexivity|].
  rewrite seq_S, !map_app, concat_app, IH. cbn [map List.concat].
  rewrite app_nil_r. unfold paginate.
  replace (Z.to_nat ((Z.of_nat (1 + n) - 1) * size))
    with (n * Z.to_nat size)%nat by nia.
  replace (S n * Z.to_nat size)%nat
    with (n * Z.to_nat size + Z.to_nat size)%nat by lia.
  symmetry. apply firstn_add.
Qed.

(** X2.  The pages partition the list of groups: the windows of the pages
    1 to [totalPages], one after the other, are the groups themselves, in
    order, each group on one page and none left out. *)
Theorem pages_partition_groups c :
  1 <= pageSize c ->
  List.concat (map (fun p => paginate (groups c) p (pageSize c))
              (page_numbers (totalPages c)))
  = groups c.
Proof.
  intros Hs. unfold page_numbers. rewrite (windows_concat _ _ _ Hs).
  apply firstn_all2.
  pose proof (ceil_div_bounds (Z.of_nat (List.length (groups c))) (pageSize c)
                ltac:(lia)) as Hc.
  unfold totalPages. nia.
Qed.

Lemma pages_partition_groups_witness :
  List.concat (map (fun p => paginate (groups Sample.loaded) p 3) [1; 2; 3])
  = groups Sample.loaded.
Proof.
  exact (pages_partition_groups Sample.loaded ltac:(vm_compute; discriminate)).
Defined.

(** ** How the navigation handlers compose *)

Lemma refreshDisplayed_twice c p q :
  refreshDisplayed (set_currentPage p (refreshDisplayed (set_currentPage q c)))
  = refreshDisplayed (set_currentPage p c).
Proof. reflexivity. Qed.

Lemma refreshDisplayed_same_page c :
  shows_current_page c ->
  refreshDisplayed (set_currentPage (currentPage c) c) = c.
Proof.
  unfold shows_current_page, refreshDisplayed, set_displayedGroups,
    set_currentPage.
  destruct c; simpl. now intros <-.
Qed.

Lemma handleNext_moves c :
  currentPage c < totalPages c ->
  handleNext c = refreshDisplayed (set_currentPage (currentPage c + 1) c).
Proof.
  intros H. unfold handleNext, disableNext.
  destruct (Z.leb_spec (totalPages c) (currentPage c)); [lia|reflexivity].
Qed.

Lemma handlePrev_moves c :
  1 < currentPage c ->
  handlePrev c = refreshDisplayed (set_currentPage (currentPage c - 1) c).
Proof.
  intros H. unfold handlePrev, disablePrev.
  destruct (Z.leb_spec (currentPage c) 1); [lia|reflexivity].
Qed.

(** X3.  Next and Previous undo each other: from a state that shows its
    current page, Next followed by Previous gives the state back whenever
    there is a next page, and Previous followed by Next gives it back
    whenever there is a previous page within range. *)
Theorem next_prev_round_trip c :
  shows_current_page c ->
  (1 <= currentPage c < totalPages c -> handlePrev (handleNext c) = c)
  /\ (1 < currentPage c <= totalPages c -> handleNext (handlePrev c) = c).
Proof.
  intros Hshow. split; intros Hr.
  - rewrite (handleNext_moves c) by lia.
    rewrite handlePrev_moves
      by (change (1 < currentPage c + 1); lia).
    rewrite refreshDisplayed_twice.
    change (currentPage (refreshDisplayed (set_currentPage (currentPage c + 1) c)))
      with (currentPage c + 1).
    replace (currentPage c + 1 - 1) with (currentPage c) by lia.
    now apply refreshDisplayed_same_page.
  - rewrite (handlePrev_moves c) by lia.
    rewrite handleNext_moves
      by (change (currentPage c - 1 < totalPages c); lia).
    rewrite refreshDisplayed_twice.
    change (currentPage (refreshDisplayed (set_currentPage (currentPage c - 1) c)))
      with (currentPage c - 1).
    replace (currentPage c - 1 + 1) with (currentPage c) by lia.
    now apply refreshDisplayed_same_page.
Qed.

Lemma next_prev_round_trip_witness :
  handlePrev (handleNext Sample.loaded) = Sample.loaded
  /\ handleNext (handlePrev (handleLast Sample.loaded))
     = handleLast Sample.loaded.
Proof.
  split.
  - destruct (next_prev_round_trip Sample.loaded eq_refl) as [H _].
    apply H. vm_compute. split; [discriminate|reflexivity].
  - destruct (next_prev_round_trip (handleLast Sample.loaded) eq_refl)
      as [_ H].
    apply H. vm_compute. split; [reflexivity|discriminate].
Defined.

Lemma iter_handleNext c (n : nat) :
  currentPage c + Z.of_nat (S n) <= totalPages c ->
  Nat.iter (S n) handleNext c
  = refreshDisplayed (set_currentPage (currentPage c + Z.of_nat (S n)) c).
Proof.
  induction n as [|n IH]; intros H.
  - cbn [Nat.iter]. rewrite handleNext_moves by lia. reflexivity.
  - rewrite Nat.iter_succ, IH by lia.
    rewrite handleNext_moves
      by (change (currentPage c + Z.of_nat (S n) < totalPages c); lia).
    rewrite refreshDisplayed_twice.
    change (currentPage (refreshDisplayed
                           (set_currentPage (currentPage c + Z.of_nat (S n)) c)))
      with (currentPage c + Z.of_nat (S n)).
    f_equal. f_equal. lia.
Qed.

Lemma iter_handlePrev c (n : nat) :
  1 <= currentPage c - Z.of_nat (S n) ->
  Nat.iter (S n) handlePrev c
  = refreshDisplayed (set_currentPage (currentPage c - Z.of_nat (S n)) c).
Proof.
  induction n as [|n IH]; intros H.
  - cbn [Nat.iter]. rewrite handlePrev_moves by lia. reflexivity.
  - rewrite Nat.iter_succ, IH by lia.
    rewrite handlePrev_moves
      by (change (1 < currentPage c - Z.of_nat (S n)); lia).
    rewrite refreshDisplayed_twice.
    change (currentPage (refreshDisplayed
                           (set_currentPage (currentPage c - Z.of_nat (S n)) c)))
      with (currentPage c - Z.of_nat (S n)).
    f_equal. f_equal. lia.
Qed.

(** X4.  Last is as many Next as there are pages ahead, and First as many
    Previous as there are pages behind: from a state whose page is in
    range, [handleLast] gives what [totalPages - currentPage] calls of
    [handleNext] give, and [handleFirst] what [currentPage - 1] calls of
    [handlePrev] give.  So Last ends on page [totalPages], First on page
    1, and a second Last or First changes nothing. *)
Theorem first_last_are_repeated_steps c :
  page_in_range c ->
  handleLast c
  = Nat.iter (Z.to_nat (totalPages c - currentPage c)) handleNext c
  /\ handleFirst c
     = Nat.iter (Z.to_nat (currentPage c - 1)) handlePrev c
  /\ currentPage (handleLast c) = totalPages c
  /\ currentPage (handleFirst c) = 1
  /\ handleLast (handleLast c) = handleLast c
  /\ handleFirst (handleFirst c) = handleFirst c.
Proof.
  unfold page_in_range. intros Hr.
  assert (Hlast : handleLast c
                  = if currentPage c <? totalPages c
                    then refreshDisplayed (set_currentPage (totalPages c) c)
                    else c).
  { unfold handleLast, disableNext.
    destruct (Z.leb_spec (totalPages c) (currentPage c));
      destruct (Z.ltb_spec (currentPage c) (totalPages c)); try lia;
      reflexivity. }
  assert (Hfirst : handleFirst c
                   = if 1 <? currentPage c
                     then refreshDisplayed (set_currentPage 1 c)
                     else c).
  { unfold handleFirst, disablePrev.
    destruct (Z.leb_spec (currentPage c) 1);
      destruct (Z.ltb_spec 1 (currentPage c)); try lia; reflexivity. }
  split; [|split; [|split; [|split; [|split]]]].
  - rewrite Hlast. destruct (Z.ltb_spec (currentPage c) (totalPages c)).
    + destruct (Z.to_nat (totalPages c - currentPage c)) as [|n] eqn:Hn; [lia|].
      rewrite iter_handleNext by lia. f_equal. f_equal. lia.
    + replace (totalPages c - currentPage c) with 0 by lia. reflexivity.
  - rewrite Hfirst. destruct (Z.ltb_spec 1 (currentPage c)).
    + destruct (Z.to_nat (currentPage c - 1)) as [|n] eqn:Hn; [lia|].
      rewrite iter_handlePrev by lia. f_equal. f_equal. lia.
    + replace (currentPage c - 1) with 0 by lia. reflexivity.
  - rewrite Hlast. destruct (Z.ltb_spec (currentPage c) (totalPages c));
      [reflexivity|lia].
  - rewrite Hfirst. destruct (Z.ltb_spec 1 (currentPage c));
      [reflexivity|lia].
  - rewrite Hlast. destruct (Z.ltb_spec (currentPage c) (totalPages c)).
    + unfold handleLast, disableNext.
      change (totalPages (refreshDisplayed (set_currentPage (totalPages c) c)))
        with (totalPages c).
      change (currentPage (refreshDisplayed (set_currentPage (totalPages c) c)))
        with (totalPages c).
      now rewrite Z.leb_refl.
    + unfold handleLast, disableNext.
      destruct (Z.leb_spec (totalPages c) (currentPage c)); [reflexivity|lia].
  - rewrite Hfirst. destruct (Z.ltb_spec 1 (currentPage c)).
    + reflexivity.
    + unfold handleFirst, disablePrev.
      destruct (Z.leb_spec (currentPage c) 1); [reflexivity|lia].
Qed.

Lemma first_last_are_repeated_steps_witness :
  handleLast Sample.loaded = handleNext (handleNext Sample.loaded)
  /\ currentPage (handleLast Sample.loaded) = 3.
Proof.
  destruct (first_last_are_repeated_steps Sample.loaded
              ltac:(vm_compute; split; discriminate))
    as (Hlast & _ & Hpage & _).
  split.
  - rewrite Hlast. reflexivity.
  - rewrite Hpage. reflexivity.
Defined.

(** X5.  The pagination bar is needed exactly when there is more than one
    page: for a page size of at least 1, [hasPagination] holds if and
    only if [totalPages] exceeds 1.  Without it, in a state whose page is
    in range, Previous and Next are both disabled and none of the four
    handlers changes anything. *)
Theorem hasPagination_iff_several_pages c :
  1 <= pageSize c ->
  (hasPagination c = true <-> 1 < totalPages c)
  /\ (hasPagination c = false -> page_in_range c ->
      disablePrev c = true /\ disableNext c = true
      /\ handleFirst c = c /\ handlePrev c = c
      /\ handleNext c = c /\ handleLast c = c).
Proof.
  intros Hs.
  pose proof (ceil_div_bounds (Z.of_nat (List.length (groups c))) (pageSize c)
                ltac:(lia)) as Hc.
  assert (Hiff : hasPagination c = true <-> 1 < totalPages c).
  { unfold hasPagination, totalPages. rewrite Z.ltb_lt. split; intros H; nia. }
  split; [exact Hiff|].
  intros Hno Hr. unfold page_in_range in Hr.
  assert (Hone : totalPages c = 1).
  { destruct (Z.lt_ge_cases 1 (totalPages c)) as [Hlt|Hge].
    - apply Hiff in Hlt. congruence.
    - pose proof (totalPages_positive c). lia. }
  assert (Hp : disablePrev c = true)
    by (unfold disablePrev; apply Z.leb_le; lia).
  assert (Hn : disableNext c = true)
    by (unfold disableNext; apply Z.leb_le; lia).
  unfold handleFirst, handlePrev, handleNext, handleLast.
  rewrite Hp, Hn. repeat split.
Qed.

Lemma hasPagination_iff_several_pages_witness :
  hasPagination Sample.loaded = true /\ 1 < totalPages Sample.loaded
  /\ handleNext initial = initial /\ handleLast initial = initial.
Proof.
  destruct (hasPagination_iff_several_pages Sample.loaded
              ltac:(vm_compute; discriminate)) as [[H _] _].
  destruct (hasPagination_iff_several_pages initial
              ltac:(vm_compute; discriminate)) as [_ Hnone].
  split; [reflexivity|]. split; [apply H; reflexivity|].
  destruct (Hnone eq_refl ltac:(vm_compute; split; discriminate))
    as (_ & _ & _ & _ & Hnext & Hlast).
  split; [exact Hnext | exact Hlast].
Defined.

(* ================================================================== *)
(** * Further properties of the wire handler and the mappers           *)
(* ================================================================== *)

(** X6.  [mapGroup] returns exactly for the groups it can map: given that
    the fixed en-US formatter can be built, it returns a display group if
    and only if the raw group, every element of its [items], every
    element of each item's [discounts] and every element of its
    [miscDiscounts] is neither [null] nor [undefined], and the values it
    converts have a text: the three totals, every fee amount and
    discount amount (handed to [Number]), every fee and discount
    schedule id (substituted in a row id).  Otherwise it throws.  A list
    field that is missing or is not an array counts as an empty array and
    never makes it throw. *)
Theorem mapGroup_returns_iff_mappable rt g :
  has_fallback rt = true ->
  ((exists mapped, mapGroup rt g = Ok mapped) <-> mappable g = true)
  /\ (mapGroup rt g = Throw <-> mappable g = false)
  /\ (nullish g = false ->
      isArray (prop g (str "items")) = false ->
      isArray (prop g (str "miscDiscounts")) = false ->
      prints (prop g (str "feeTotal")) = true ->
      prints (prop g (str "discountTotal")) = true ->
      prints (prop g (str "netTotal")) = true ->
      exists mapped,
        mapGroup rt g = Ok mapped
        /\ Group.items mapped = []
        /\ Group.miscDiscounts mapped = []
        /\ Group.detailRows mapped = []).
Proof.
  intros Hf.
  assert (Hiff : (exists mapped, mapGroup rt g = Ok mapped)
                 <-> mappable g = true).
  { split.
    - intros [mapped H]. now apply mapGroup_returns in H.
    - now apply mapGroup_total. }
  split; [exact Hiff|]. split.
  - split; intros H.
    + destruct (mappable g) eqn:Hw; [|reflexivity].
      destruct (mapGroup_total rt g Hf Hw) as [mapped Hm]. congruence.
    + now apply mapGroup_throws.
  - intros Hg Hi Hm Hp1 Hp2 Hp3.
    assert (Hi' : array_or_empty (prop g (str "items")) = [])
      by (destruct (prop g (str "items")); try discriminate; reflexivity).
    assert (Hm' : array_or_empty (prop g (str "miscDiscounts")) = [])
      by (destruct (prop g (str "miscDiscounts")); try discriminate;
          reflexivity).
    assert (Hw : mappable g = true).
    { unfold mappable, walkable, printable, amounts_print, ids_print,
        raw_fees, raw_misc.
      now rewrite Hg, Hi', Hm', Hp1, Hp2, Hp3. }
    destruct (mapGroup_total rt g Hf Hw) as [mapped H]. exists mapped.
    destruct (mapGroup_inv rt g mapped H)
      as (_ & _ & _ & _ & Hitems & Hmisc & Hrows).
    unfold mapSectionItems in Hitems. unfold mapDiscounts in Hmisc.
    rewrite Hi' in Hitems. rewrite Hm' in Hmisc.
    simpl in Hitems, Hmisc.
    injection Hitems as Hitems. injection Hmisc as Hmisc.
    split; [exact H|]. split; [auto|]. split; [auto|].
    apply buildDetailRows_flatten in Hrows.
    rewrite Hrows, <- Hitems, <- Hmisc. reflexivity.
Qed.

Lemma mapGroup_returns_iff_mappable_witness :
  (exists mapped, mapGroup Sample.rt Sample.group = Ok mapped)
  /\ mapGroup Sample.rt
       (VObj [Sample.fld "items" (VArr [VNull])]) = Throw
  /\ mapGroup Sample.rt
       (VObj [Sample.fld "feeTotal"
                (VObj [Sample.fld "toString" VNull])]) = Throw
  /\ mapGroup Sample.rt
       (VObj [Sample.fld "items"
                (VArr [VObj [Sample.fld "feeScheduleId"
                               (VObj [Sample.fld "toString"
                                        (Sample.s "x")])]])]) = Throw
  /\ exists mapped,
       mapGroup Sample.rt (VObj [Sample.fld "items" (Sample.s "none")])
       = Ok mapped
       /\ Group.detailRows mapped = [].
Proof.
  split; [|split; [|split; [|split]]].
  - destruct (mapGroup_returns_iff_mappable Sample.rt Sample.group eq_refl)
      as [H _].
    apply H. reflexivity.
  - destruct (mapGroup_returns_iff_mappable Sample.rt
                (VObj [Sample.fld "items" (VArr [VNull])]) eq_refl)
      as (_ & H & _).
    apply H. reflexivity.
  - destruct (mapGroup_returns_iff_mappable Sample.rt
                (VObj [Sample.fld "feeTotal"
                         (VObj [Sample.fld "toString" VNull])]) eq_refl)
      as (_ & H & _).
    apply H. reflexivity.
  - destruct (mapGroup_returns_iff_mappable Sample.rt
                (VObj [Sample.fld "items"
                         (VArr [VObj [Sample.fld "feeScheduleId"
                                        (VObj [Sample.fld "toString"
                                                 (Sample.s "x")])]])])
                eq_refl)
      as (_ & H & _).
    apply H. reflexivity.
  - destruct (mapGroup_returns_iff_mappable Sample.rt
                (VObj [Sample.fld "items" (Sample.s "none")]) eq_refl)
      as (_ & _ & H).
    destruct (H eq_refl eq_refl eq_refl eq_refl eq_refl eq_refl)
      as (mapped & Hm & _ & _ & Hrows).
    exists mapped. auto.
Defined.

(** X7.  [wiredPayments] runs to its end exactly on a deliverable input
    (the fixed en-US formatter being available): truthy data must be an
    array of groups that [mapGroup] can map, and a truthy error without
    data must carry, in a [body] that is an array, no [null] or
    [undefined] and no message without a text.  On anything else a
    TypeError escapes, and the instance keeps its groups, its displayed
    slice, its page and its previous error: only [loading] has been
    cleared. *)
Theorem wiredPayments_returns_iff_deliverable rt c data err :
  has_fallback rt = true ->
  (is_returned (wiredPayments rt c data err) = deliverable data err)
  /\ (forall c', wiredPayments rt c data err = Threw c' ->
                 c' = set_loading false c).
Proof.
  intros Hf. split.
  - unfold deliverable.
    destruct (wiredPayments_cases rt c data err)
      as [(raw & gs & Hd & Hm & H) | [(m & Hd & He & Hn & H)
                                     | [(Hd & He & H) | H]]].
    + rewrite H. subst data. simpl.
      apply mapM_domain in Hm. rewrite Forall_forall in Hm.
      symmetry. apply forallb_forall. intros g Hg.
      destruct (Hm g Hg) as [y Hy]. now apply mapGroup_returns in Hy.
    + rewrite H, Hd, He. simpl. symmetry.
      now apply normalizeError_returns in Hn.
    + rewrite H, Hd, He. reflexivity.
    + rewrite H. simpl. symmetry.
      unfold wiredPayments in H.
      destruct (ToBoolean data) eqn:Hd.
      * unfold or_else in H. rewrite Hd in H.
        destruct data as [| | | | |raw|]; try reflexivity.
        simpl in H.
        destruct (mapM (mapGroup rt) raw) as [gs|] eqn:Hm; [discriminate|].
        apply mapM_throws in Hm as (g & Hg & Hthrow).
        destruct (forallb mappable raw) eqn:Hall; [|reflexivity].
        rewrite forallb_forall in Hall.
        destruct (mapGroup_total rt g Hf (Hall g Hg)) as [y Hy]. congruence.
      * destruct (ToBoolean err) eqn:He; [|discriminate].
        destruct (normalizeError rt err) as [m|] eqn:Hn; [discriminate|].
        now apply normalizeError_throws in Hn.
  - intros c' H.
    destruct (wiredPayments_cases rt c data err)
      as [(raw & gs & _ & _ & H') | [(m & _ & _ & _ & H')
                                    | [(_ & _ & H') | H']]];
      rewrite H' in H; try discriminate. now injection H as <-.
Qed.

Lemma wiredPayments_returns_iff_deliverable_witness :
  wiredPayments Sample.rt Sample.loaded (VArr [Sample.group; VNull]) VUndef
  = Threw Sample.loaded
  /\ is_returned (wiredPayments Sample.rt Sample.loaded Sample.payload VUndef)
     = true
  /\ is_returned
       (wiredPayments Sample.rt Sample.loaded
          (VArr [VObj [Sample.fld "items"
                         (VArr [VObj [Sample.fld "feeScheduleId"
                                        (VObj [Sample.fld "toString"
                                                 (Sample.s "x")])]])]])
          VUndef)
     = false
  /\ is_returned
       (wiredPayments Sample.rt Sample.loaded VUndef
          (VObj [Sample.fld "body"
                   (VArr [VObj [Sample.fld "message"
                                  (VObj [Sample.fld "toString"
                                           (Sample.s "x")])]])]))
     = false.
Proof.
  destruct (wiredPayments_returns_iff_deliverable Sample.rt Sample.loaded
              (VArr [Sample.group; VNull]) VUndef eq_refl) as [Hret Hthrew].
  destruct (wiredPayments_returns_iff_deliverable Sample.rt Sample.loaded
              Sample.payload VUndef eq_refl) as [Hok _].
  split; [|split; [rewrite Hok; reflexivity|split]].
  - destruct (wiredPayments Sample.rt Sample.loaded
                (VArr [Sample.group; VNull]) VUndef) as [c'|c'] eqn:Hw.
    + vm_compute in Hret. discriminate.
    + rewrite (Hthrew c' eq_refl). reflexivity.
  - match goal with
    | |- is_returned (wiredPayments _ _ ?d ?e) = _ =>
        destruct (wiredPayments_returns_iff_deliverable Sample.rt
                    Sample.loaded d e eq_refl) as [H _]
    end.
    rewrite H. reflexivity.
  - match goal with
    | |- is_returned (wiredPayments _ _ ?d ?e) = _ =>
        destruct (wiredPayments_returns_iff_deliverable Sample.rt
                    Sample.loaded d e eq_refl) as [H _]
    end.
    rewrite H. reflexivity.
Defined.

(** ** What a delivery keeps and what it forgets *)

(** Each navigation handler leaves the state alone or moves to some page
    and refreshes. *)
Lemma navigation_shape c :
  let moved h := h = c \/ exists p, h = refreshDisplayed (set_currentPage p c) in
  moved (handleFirst c) /\ moved (handlePrev c)
  /\ moved (handleNext c) /\ moved (handleLast c).
Proof.
  unfold handleFirst, handlePrev, handleNext, handleLast.
  destruct (negb (disablePrev c)), (negb (disableNext c));
    repeat split; eauto.
Qed.

Lemma moved_error_excludes_groups c h :
  h = c \/ (exists p, h = refreshDisplayed (set_currentPage p c)) ->
  error_excludes_groups c -> error_excludes_groups h.
Proof.
  intros [-> | [p ->]] H; [exact H|].
  unfold error_excludes_groups in *. simpl. intros He.
  destruct (H He) as [Hg _]. split; [exact Hg|].
  rewrite Hg. apply slice_nil.
Qed.

Lemma step_error_excludes_groups rt c e :
  error_excludes_groups c -> error_excludes_groups (step rt c e).
Proof.
  intros H. destruct (navigation_shape c) as (Hf & Hp & Hn & Hl).
  destruct e as [data err| | | |]; simpl;
    try (eapply moved_error_excludes_groups; eauto; fail).
  destruct (wiredPayments_cases rt c data err)
    as [(raw & gs & _ & _ & ->) | [(m & _ & _ & _ & ->) | [(_ & _ & ->) | ->]]];
    simpl; auto; unfold error_excludes_groups; simpl; auto; discriminate.
Qed.

Lemma step_keeps_sections rt c e :
  activeSectionNames (step rt c e) = activeSectionNames c.
Proof.
  destruct (navigation_shape c) as (Hf & Hp & Hn & Hl).
  destruct e as [data err| | | |]; simpl.
  - destruct (wiredPayments_cases rt c data err)
      as [(raw & gs & _ & _ & ->) | [(m & _ & _ & _ & ->) | [(_ & _ & ->) | ->]]];
      reflexivity.
  - destruct Hf as [-> | [p ->]]; reflexivity.
  - destruct Hp as [-> | [p ->]]; reflexivity.
  - destruct Hn as [-> | [p ->]]; reflexivity.
  - destruct Hl as [-> | [p ->]]; reflexivity.
Qed.

Lemma step_loading rt c e :
  loading (step rt c e)
  = match e with Wired _ _ => false | _ => loading c end.
Proof.
  destruct (navigation_shape c) as (Hf & Hp & Hn & Hl).
  destruct e as [data err| | | |]; simpl.
  - destruct (wiredPayments_cases rt c data err)
      as [(raw & gs & _ & _ & ->) | [(m & _ & _ & _ & ->) | [(_ & _ & ->) | ->]]];
      reflexivity.
  - destruct Hf as [-> | [p ->]]; reflexivity.
  - destruct Hp as [-> | [p ->]]; reflexivity.
  - destruct Hn as [-> | [p ->]]; reflexivity.
  - destruct Hl as [-> | [p ->]]; reflexivity.
Qed.

(** X8.  An error and groups are never on display together: in every
    state the instance reaches, a truthy [error] comes with an empty
    [groups] and an empty displayed slice, so [hasData] is false.  Data
    that arrives clears the error; an error that arrives clears the
    groups; navigation changes neither. *)
Theorem error_never_beside_groups rt events :
  let c := run rt initial events in
  ToBoolean (error c) = true ->
  groups c = [] /\ displayedGroups c = [] /\ hasData c = false.
Proof.
  intros c.
  assert (H : error_excludes_groups c).
  { unfold c, run.
    assert (H0 : error_excludes_groups initial) by (intros H; discriminate H).
    revert H0. generalize initial.
    induction events as [|e es IH]; intros c0 H0; simpl; [exact H0|].
    apply IH. now apply step_error_excludes_groups. }
  intros He. destruct (H He) as [Hg Hd]. repeat split; auto.
  unfold hasData. now rewrite Hg.
Qed.

Lemma error_never_beside_groups_witness :
  let c := run Sample.rt initial
             [Wired Sample.payload VUndef; Next;
              Wired VUndef Sample.error_single; Last] in
  error c = Sample.s "C" /\ groups c = [] /\ displayedGroups c = [].
Proof.
  intros c.
  destruct (error_never_beside_groups Sample.rt
              [Wired Sample.payload VUndef; Next;
               Wired VUndef Sample.error_single; Last] eq_refl)
    as (Hg & Hd & _).
  split; [reflexivity|]. split; [exact Hg | exact Hd].
Defined.

Lemma run_keeps_sections rt es c :
  activeSectionNames (run rt c es) = activeSectionNames c.
Proof.
  unfold run. revert c; induction es as [|e es IH]; intros c; simpl; auto.
  rewrite IH. apply step_keeps_sections.
Qed.

Lemma run_keeps_pageSize rt es c : pageSize (run rt c es) = pageSize c.
Proof.
  unfold run. revert c; induction es as [|e es IH]; intros c; simpl; auto.
  rewrite IH. apply step_keeps_pageSize.
Qed.

Lemma run_loading_stays_false rt es c :
  loading c = false -> loading (run rt c es) = false.
Proof.
  unfold run. revert c; induction es as [|e es IH]; intros c H; simpl; auto.
  apply IH. rewrite step_loading. now destruct e.
Qed.

(** X9.  Nothing brings the spinner back and nothing closes or opens a
    section behind the user's back: the first delivery of the wire
    adapter, whatever it carries and even if the handler throws on it,
    sets [loading] to false, and no later delivery or navigation sets it
    to true again; and the wire handler and the four navigation handlers
    leave [activeSectionNames] and [pageSize] as they were, also across a
    refresh of the data. *)
Theorem loading_cleared_for_good rt c data err events :
  let c' := run rt c (Wired data err :: events) in
  loading c' = false
  /\ activeSectionNames c' = activeSectionNames c
  /\ pageSize c' = pageSize c.
Proof.
  intros c'. split; [|split].
  - unfold c', run. cbn [fold_left]. apply run_loading_stays_false.
    now rewrite step_loading.
  - apply run_keeps_sections.
  - apply run_keeps_pageSize.
Qed.

(** X10.  A delivery that is processed to its end forgets the past: the
    state it leaves depends on the state before only through the page
    size and the open sections.  The same payload or error delivered to
    two instances that agree on those gives the same state, whatever
    their groups, pages and errors were; in particular delivering it
    twice, or after any navigation, gives what delivering it once
    gives. *)
Theorem delivery_forgets_the_past rt c1 c2 data err c' :
  pageSize c1 = pageSize c2 ->
  activeSectionNames c1 = activeSectionNames c2 ->
  ToBoolean data = true \/ ToBoolean err = true ->
  wiredPayments rt c1 data err = Returned c' ->
  wiredPayments rt c2 data err = Returned c'
  /\ wiredPayments rt c' data err = Returned c'
  /\ wiredPayments rt (handleFirst c') data err = Returned c'
  /\ wiredPayments rt (handlePrev c') data err = Returned c'
  /\ wiredPayments rt (handleNext c') data err = Returned c'
  /\ wiredPayments rt (handleLast c') data err = Returned c'.
Proof.
  intros Hs Ha Harr H1.
  assert (Hany : forall c, pageSize c = pageSize c1 ->
                           activeSectionNames c = activeSectionNames c1 ->
                           wiredPayments rt c data err = Returned c').
  { intros c Hps Hsec.
    destruct (wiredPayments_cases rt c1 data err)
      as [(raw & gs & Hd & Hm & H) | [(m & Hd & He & Hn & H)
                                     | [(Hd & He & H) | H]]];
      rewrite H in H1; try discriminate.
    - injection H1 as <-. subst data. unfold wiredPayments. simpl.
      rewrite Hm. destruct c, c1; simpl in *; subst; reflexivity.
    - injection H1 as <-. unfold wiredPayments.
      rewrite Hd, He, Hn. destruct c, c1; simpl in *; subst; reflexivity.
    - destruct Harr; congruence. }
  assert (Hc' : pageSize c' = pageSize c1
                /\ activeSectionNames c' = activeSectionNames c1).
  { pose proof (wiredPayments_keeps_pageSize rt c1 data err) as Hp.
    pose proof (step_keeps_sections rt c1 (Wired data err)) as Hsec.
    simpl in Hsec. rewrite H1 in Hp, Hsec. auto. }
  destruct Hc' as [Hp Hsec].
  destruct (navigation_keeps_pageSize c') as (Pf & Pp & Pn & Pl).
  split; [apply Hany; auto|]. split; [apply Hany; auto|].
  pose proof (step_keeps_sections rt c' First) as Sf.
  pose proof (step_keeps_sections rt c' Prev) as Sp.
  pose proof (step_keeps_sections rt c' Next) as Sn.
  pose proof (step_keeps_sections rt c' Last) as Sl.
  simpl in Sf, Sp, Sn, Sl.
  repeat split; apply Hany; congruence.
Qed.

Lemma delivery_forgets_the_past_witness :
  wiredPayments Sample.rt (handleLast Sample.loaded) Sample.payload VUndef
  = Returned Sample.loaded.
Proof.
  destruct (delivery_forgets_the_past Sample.rt initial initial
              Sample.payload VUndef Sample.loaded eq_refl eq_refl
              (or_introl eq_refl) eq_refl)
    as (_ & _ & _ & _ & _ & H).
  exact H.
Defined.

(* ================================================================== *)
(** * Further properties of the detail rows                            *)
(* ================================================================== *)

Lemma starts_with_app p x : starts_with p (p ++ x) = true.
Proof.
  induction p as [|c p IH]; simpl; [reflexivity|].
  now rewrite N.eqb_refl, IH.
Qed.

Lemma NoDup_map_prepend (p : jstring) (l : list jstring) :
  NoDup l -> NoDup (map (app p) l).
Proof.
  induction 1 as [|x l Hx _ IH]; simpl; constructor; auto.
  intros Hin. apply in_map_iff in Hin as (y & Hy & Hin).
  apply app_inv_head in Hy. subst y. contradiction.
Qed.

Lemma NoDup_app_disjoint {A} (l1 l2 : list A) a :
  NoDup (l1 ++ l2) -> In a l1 -> In a l2 -> False.
Proof.
  induction l1 as [|x l1 IH]; simpl; intros Hn H1 H2; [contradiction|].
  inversion Hn as [|? ? Hx Hn']; subst.
  destruct H1 as [-> | H1]; [|eauto].
  apply Hx, in_or_app. now right.
Qed.

Lemma fee_not_disc a b : str "fee-" ++ a <> str "disc-" ++ b.
Proof. unfold str; simpl. discriminate. Qed.

Lemma fee_not_misc a b : str "fee-" ++ a <> str "disc-misc-" ++ b.
Proof. unfold str; simpl. discriminate. Qed.

Lemma disc_is_misc a b :
  str "disc-" ++ a = str "disc-misc-" ++ b -> a = str "misc-" ++ b.
Proof.
  change (str "disc-misc-") with (str "disc-" ++ str "misc-").
  rewrite <- app_assoc. apply app_inv_head.
Qed.

(** The ids of the rows, read off the mapped records. *)
Lemma flatten_ids rt fees misc :
  map DetailRow.id (flatten rt fees misc)
  = flat_map
      (fun fee =>
         (str "fee-" ++ fee_id_text rt fee)
         :: map (app (str "disc-"))
                (map (discount_id_text rt) (FeeItem.discounts fee)))
      fees
    ++ map (app (str "disc-misc-")) (map (discount_id_text rt) misc).
Proof.
  unfold flatten. rewrite map_app, !map_map. f_equal.
  induction fees as [|fee r IH]; simpl; [reflexivity|].
  rewrite map_app, IH, !map_map. reflexivity.
Qed.

Lemma in_fee_ids rt fees x :
  In x (flat_map
          (fun fee =>
             (str "fee-" ++ fee_id_text rt fee)
             :: map (app (str "disc-"))
                    (map (discount_id_text rt) (FeeItem.discounts fee)))
          fees) ->
  (exists t, In t (map (fee_id_text rt) fees) /\ x = str "fee-" ++ t)
  \/ (exists t, In t (map (discount_id_text rt) (fee_discounts fees))
                /\ x = str "disc-" ++ t).
Proof.
  induction fees as [|fee r IH]; cbn [flat_map map]; [contradiction|].
  intros Hin. apply in_app_or in Hin as [Hin | Hin].
  - destruct Hin as [<- | Hin].
    + left. exists (fee_id_text rt fee). split; [now left|reflexivity].
    + right. apply in_map_iff in Hin as (t & <- & Ht).
      exists t. split; [|reflexivity].
      unfold fee_discounts; cbn [flat_map]. rewrite map_app.
      apply in_or_app. now left.
  - destruct (IH Hin) as [(t & Ht & ->) | (t & Ht & ->)].
    + left. exists t. split; [now right|reflexivity].
    + right. exists t. split; [|reflexivity].
      unfold fee_discounts in *; cbn [flat_map]. rewrite map_app.
      apply in_or_app. now right.
Qed.

Lemma NoDup_fee_ids rt fees :
  NoDup (map (fee_id_text rt) fees) ->
  NoDup (map (discount_id_text rt) (fee_discounts fees)) ->
  NoDup (flat_map
           (fun fee =>
              (str "fee-" ++ fee_id_text rt fee)
              :: map (app (str "disc-"))
                     (map (discount_id_text rt) (FeeItem.discounts fee)))
           fees).
Proof.
  induction fees as [|fee r IH]; cbn [flat_map map]; intros Hf Hd;
    [constructor|].
  unfold fee_discounts in Hd; cbn [flat_map] in Hd. rewrite map_app in Hd.
  inversion Hf as [|? ? Hfee Hf']; subst.
  change (NoDup ((str "fee-" ++ fee_id_text rt fee)
                 :: (map (app (str "disc-"))
                         (map (discount_id_text rt) (FeeItem.discounts fee))
                     ++ flat_map
                          (fun fee =>
                             (str "fee-" ++ fee_id_text rt fee)
                             :: map (app (str "disc-"))
                                    (map (discount_id_text rt)
                                         (FeeItem.discounts fee))) r))).
  constructor.
  - intros Hin. apply in_app_or in Hin as [Hin | Hin].
    + apply in_map_iff in Hin as (t & Ht & _).
      symmetry in Ht. now apply fee_not_disc in Ht.
    + apply in_fee_ids in Hin as [(t & Ht & Heq) | (t & Ht & Heq)].
      * apply app_inv_head in Heq. subst t. contradiction.
      * now apply fee_not_disc in Heq.
  - apply NoDup_app.
    + apply NoDup_map_prepend. now apply NoDup_app_remove_r in Hd.
    + apply IH; [exact Hf'|]. now apply NoDup_app_remove_l in Hd.
    + intros x H1 H2. apply in_map_iff in H1 as (t & <- & Ht).
      apply in_fee_ids in H2 as [(u & Hu & Heq) | (u & Hu & Heq)].
      * symmetry in Heq. now apply fee_not_disc in Heq.
      * apply app_inv_head in Heq. subst u.
        exact (NoDup_app_disjoint _ _ t Hd Ht Hu).
Qed.

Lemma rows_defined_amounts fees misc d :
  rows_defined fees misc = true ->
  In d (fee_discounts fees) \/ In d misc ->
  prints (Discount.amount d) = true.
Proof.
  unfold rows_defined. intros H Hin. apply andb_prop in H as [Hf Hm].
  rewrite forallb_forall in Hf, Hm.
  assert (Hd : discount_row_defined d = true).
  { destruct Hin as [Hin | Hin]; [|now apply Hm].
    unfold fee_discounts in Hin. apply in_flat_map in Hin as (fee & Hfee & Hd).
    specialize (Hf fee Hfee). apply andb_prop in Hf as [_ Hf].
    rewrite forallb_forall in Hf. now apply Hf. }
  now apply andb_prop in Hd as [_ Hd].
Qed.

(** X11.  The row ids of a group are pairwise distinct, as a key for the
    rows must be, provided the schedule ids are: no two fee items print
    the same fee schedule id, no two discounts of the fee items print the
    same discount schedule id, no two misc discounts print the same
    discount schedule id, and no discount of a fee item has an id that
    starts with "misc-" (which would make its "disc-" id look like a
    misc discount's).  The rows exist whenever the schedule ids and the
    discount amounts have a text. *)
Theorem row_ids_distinct rt g :
  NoDup (map (fee_id_text rt) (Group.items g)) ->
  NoDup (map (discount_id_text rt) (fee_discounts (Group.items g))) ->
  NoDup (map (discount_id_text rt) (Group.miscDiscounts g)) ->
  Forall (fun d => starts_with (str "misc-") (discount_id_text rt d) = false)
         (fee_discounts (Group.items g)) ->
  (forall rows,
      buildDetailRows rt g = Ok rows -> NoDup (map DetailRow.id rows))
  /\ (rows_defined (Group.items g) (Group.miscDiscounts g) = true ->
      exists rows,
        buildDetailRows rt g = Ok rows /\ NoDup (map DetailRow.id rows)).
Proof.
  intros Hf Hd Hm Hp.
  assert (Hno : NoDup (map DetailRow.id
                         (flatten rt (Group.items g) (Group.miscDiscounts g)))).
  { rewrite flatten_ids.
    apply NoDup_app.
    - now apply NoDup_fee_ids.
    - now apply NoDup_map_prepend.
    - intros x H1 H2. apply in_map_iff in H2 as (u & <- & Hu).
      apply in_fee_ids in H1 as [(t & Ht & Heq) | (t & Ht & Heq)].
      + symmetry in Heq. now apply fee_not_misc in Heq.
      + symmetry in Heq. apply disc_is_misc in Heq.
        apply in_map_iff in Ht as (d & <- & Hd').
        rewrite Forall_forall in Hp. specialize (Hp d Hd').
        rewrite Heq, starts_with_app in Hp. discriminate. }
  split.
  - intros rows Hr. now rewrite (buildDetailRows_flatten rt g rows Hr).
  - intros Hdef. rewrite buildDetailRows_cases, Hdef. eauto.
Qed.

Lemma row_ids_distinct_witness :
  match hd_error (groups Sample.loaded) with
  | Some g =>
      exists rows,
        buildDetailRows Sample.rt g = Ok rows
        /\ NoDup (map DetailRow.id rows)
  | None => False
  end.
Proof.
  destruct (hd_error (groups Sample.loaded)) as [g|] eqn:E;
    vm_compute in E; [injection E as <-|discriminate].
  apply row_ids_distinct.
  - vm_compute. repeat constructor; simpl; intuition discriminate.
  - vm_compute. repeat constructor; simpl; intuition discriminate.
  - vm_compute. repeat constructor; simpl; intuition discriminate.
  - repeat constructor.
  - reflexivity.
Defined.

(** X12.  Every row is a Fee row or a Discount row.  A Fee row carries
    its fee's mapped amount unchanged and the fee schedule id as record
    id.  A Discount row's amount is always a string: a minus sign followed
    by the text of the discount's mapped amount, whatever that is (a
    formatted figure, a value passed through unformatted, or a missing
    one, which prints as "undefined"); the sign is prefixed without
    looking at the amount.  There are as many Fee rows as fee items and
    as many Discount rows as discounts. *)
Theorem rows_are_fees_or_signed_discounts rt g rows :
  buildDetailRows rt g = Ok rows ->
  Forall
    (fun r =>
       (DetailRow.type r = str "Fee"
        /\ exists fee,
            In fee (Group.items g)
            /\ DetailRow.amount r = FeeItem.feeAmount fee
            /\ DetailRow.recordId r = FeeItem.feeScheduleId fee)
       \/ (DetailRow.type r = str "Discount"
           /\ exists d,
               (In d (fee_discounts (Group.items g))
                \/ In d (Group.miscDiscounts g))
               /\ (exists amount,
                      subst rt (Discount.amount d) = Ok amount
                      /\ DetailRow.amount r = VStr (hyphen :: amount))
               /\ DetailRow.amount r
                  = VStr (hyphen :: text rt (Discount.amount d))
               /\ DetailRow.recordId r = Discount.discountScheduleId d))
    rows
  /\ List.length (filter is_fee_row rows) = List.length (Group.items g)
  /\ List.length (filter is_discount_row rows)
     = (List.length (fee_discounts (Group.items g))
        + List.length (Group.miscDiscounts g))%nat.
Proof.
  rewrite buildDetailRows_cases.
  destruct (rows_defined _ _) eqn:Hdef; [|discriminate].
  intros [= <-]. unfold flatten.
  assert (Hsub : forall d,
             In d (fee_discounts (Group.items g))
             \/ In d (Group.miscDiscounts g) ->
             exists amount,
               subst rt (Discount.amount d) = Ok amount
               /\ VStr (str "-" ++ text rt (Discount.amount d))
                  = VStr (hyphen :: amount)).
  { intros d Hd. exists (text rt (Discount.amount d)).
    rewrite subst_prints, (rows_defined_amounts _ _ d Hdef Hd).
    split; reflexivity. }
  clear Hdef. split; [|split].
  - apply Forall_app. split.
    + apply Forall_forall. intros r Hr.
      apply in_flat_map in Hr as (fee & Hfee & [<- | Hr]).
      * left. split; [reflexivity|]. exists fee. auto.
      * right. apply in_map_iff in Hr as (d & <- & Hd).
        assert (Hin : In d (fee_discounts (Group.items g))
                      \/ In d (Group.miscDiscounts g)).
        { left. unfold fee_discounts. apply in_flat_map. eauto. }
        split; [reflexivity|]. exists d.
        split; [exact Hin|]. split; [apply Hsub, Hin|].
        split; reflexivity.
    + apply Forall_forall. intros r Hr.
      apply in_map_iff in Hr as (d & <- & Hd).
      right. split; [reflexivity|]. exists d.
      split; [auto|]. split; [apply Hsub; auto|]. split; reflexivity.
  - clear Hsub. rewrite filter_app, length_app.
    assert (Hm : forall p l,
               filter is_fee_row (map (discount_row_of rt p) l) = []).
    { intros p l. induction l as [|d l IH]; [reflexivity|].
      cbn [map filter]. exact IH. }
    rewrite Hm. cbn [List.length]. rewrite Nat.add_0_r.
    induction (Group.items g) as [|fee r IH]; [reflexivity|].
    cbn [flat_map]. rewrite filter_app, length_app, IH.
    change (filter is_fee_row
              (fee_row_of rt fee
               :: map (discount_row_of rt (str "disc-")) (FeeItem.discounts fee)))
      with (fee_row_of rt fee
            :: filter is_fee_row
                 (map (discount_row_of rt (str "disc-")) (FeeItem.discounts fee))).
    rewrite Hm. reflexivity.
  - clear Hsub. rewrite filter_app, length_app.
    assert (Hm : forall p l,
               filter is_discount_row (map (discount_row_of rt p) l)
               = map (discount_row_of rt p) l).
    { intros p l. induction l as [|d l IH]; [reflexivity|].
      cbn [map filter].
      change (is_discount_row (discount_row_of rt p d)) with true.
      cbv iota. now rewrite IH. }
    rewrite Hm, length_map. f_equal.
    unfold fee_discounts.
    induction (Group.items g) as [|fee r IH]; [reflexivity|].
    cbn [flat_map]. rewrite filter_app, !length_app, IH.
    change (filter is_discount_row
              (fee_row_of rt fee
               :: map (discount_row_of rt (str "disc-")) (FeeItem.discounts fee)))
      with (filter is_discount_row
              (map (discount_row_of rt (str "disc-")) (FeeItem.discounts fee))).
    now rewrite Hm, length_map.
Qed.

Lemma rows_are_fees_or_signed_discounts_witness :
  match hd_error (groups Sample.loaded) with
  | Some g =>
      List.length (filter is_fee_row (Group.detailRows g)) = 2%nat
      /\ List.length (filter is_discount_row (Group.detailRows g)) = 2%nat
  | None => False
  end.
Proof.
  destruct (hd_error (groups Sample.loaded)) as [g|] eqn:E;
    vm_compute in E; [injection E as <-|discriminate].
  match goal with
  | |- List.length (filter _ (Group.detailRows ?g)) = _ /\ _ =>
      destruct (rows_are_fees_or_signed_discounts Sample.rt g
                  (Group.detailRows g) eq_refl) as (_ & Hfees & Hdiscounts)
  end.
  split; [exact Hfees | exact Hdiscounts].
Defined.

(** X13.  [mapDiscounts] and [mapSectionItems] map an array element by
    element, in order: the result has the length of the input, each
    mapped record carries the raw record's fields as they are and its
    amount formatted.  Anything that is not an array (a missing field,
    [null], a string, an object) gives the empty list.  They throw
    exactly on an array with a [null] or [undefined] element or with an
    amount that has no text (for fee items: also in a [discounts]
    array), the fixed en-US formatter being available. *)
Theorem mappers_go_element_by_element rt raw :
  has_fallback rt = true ->
  ((exists ds, mapDiscounts rt raw = Ok ds)
   <-> no_nullish (array_or_empty raw) = true
       /\ forallb amount_prints (array_or_empty raw) = true)
  /\ ((exists fees, mapSectionItems rt raw = Ok fees)
      <-> no_nullish (array_or_empty raw) = true
          /\ forallb (fun fee => no_nullish (raw_discounts fee))
                     (array_or_empty raw) = true
          /\ forallb fee_amounts_print (array_or_empty raw) = true)
  /\ (mapDiscounts rt raw = Throw
      <-> no_nullish (array_or_empty raw)
          && forallb amount_prints (array_or_empty raw) = false)
  /\ (mapSectionItems rt raw = Throw
      <-> no_nullish (array_or_empty raw)
          && forallb (fun fee => no_nullish (raw_discounts fee))
                     (array_or_empty raw)
          && forallb fee_amounts_print (array_or_empty raw) = false)
  /\ (forall ds,
        mapDiscounts rt raw = Ok ds ->
        List.length ds = List.length (array_or_empty raw)
        /\ Forall2 (discount_matches rt) (array_or_empty raw) ds)
  /\ (forall fees,
        mapSectionItems rt raw = Ok fees ->
        List.length fees = List.length (array_or_empty raw)
        /\ Forall2 (fee_matches rt) (array_or_empty raw) fees)
  /\ (isArray raw = false ->
      mapDiscounts rt raw = Ok [] /\ mapSectionItems rt raw = Ok []).
Proof.
  intros Hf.
  assert (Hd : (exists ds, mapDiscounts rt raw = Ok ds)
               <-> no_nullish (array_or_empty raw) = true
                   /\ forallb amount_prints (array_or_empty raw) = true).
  { split.
    - intros [ds H]. now apply mapDiscounts_returns in H.
    - intros [H1 H2]. now apply mapDiscounts_total. }
  assert (Hi : (exists fees, mapSectionItems rt raw = Ok fees)
               <-> no_nullish (array_or_empty raw) = true
                   /\ forallb (fun fee => no_nullish (raw_discounts fee))
                              (array_or_empty raw) = true
                   /\ forallb fee_amounts_print (array_or_empty raw) = true).
  { split.
    - intros [fees H]. now apply mapSectionItems_returns in H.
    - intros (H1 & H2 & H3). now apply mapSectionItems_total. }
  split; [exact Hd|]. split; [exact Hi|].
  split; [|split; [|split; [|split]]].
  - destruct (mapDiscounts rt raw) as [ds|] eqn:E.
    + destruct Hd as [Hd _]. destruct (Hd (ex_intro _ ds eq_refl)) as [-> ->].
      split; discriminate.
    + split; [intros _|reflexivity].
      destruct (no_nullish _) eqn:H1; [|reflexivity].
      destruct (forallb amount_prints _) eqn:H2; [|reflexivity].
      destruct Hd as [_ Hd]. destruct (Hd (conj eq_refl eq_refl)). discriminate.
  - destruct (mapSectionItems rt raw) as [fees|] eqn:E.
    + destruct Hi as [Hi _].
      destruct (Hi (ex_intro _ fees eq_refl)) as (-> & -> & ->).
      split; discriminate.
    + split; [intros _|reflexivity].
      destruct (no_nullish _) eqn:H1; [|reflexivity].
      destruct (forallb (fun fee => no_nullish _) _) eqn:H2; [|reflexivity].
      destruct (forallb fee_amounts_print _) eqn:H3; [|reflexivity].
      destruct Hi as [_ Hi].
      destruct (Hi (conj eq_refl (conj eq_refl eq_refl))). discriminate.
  - intros ds H. apply mapDiscounts_matches in H.
    split; [|exact H]. symmetry. exact (Forall2_length_eq _ _ _ H).
  - intros fees H. apply mapSectionItems_matches in H.
    split; [|exact H]. symmetry. exact (Forall2_length_eq _ _ _ H).
  - intros Ha. unfold mapDiscounts, mapSectionItems.
    destruct raw; try discriminate; split; reflexivity.
Qed.

Lemma mappers_go_element_by_element_witness :
  mapDiscounts Sample.rt VNull = Ok []
  /\ mapSectionItems Sample.rt (Sample.s "none") = Ok []
  /\ mapDiscounts Sample.rt
       (VArr [VObj [Sample.fld "amount"
                      (VObj [Sample.fld "toString" (Sample.s "x")])]])
     = Throw
  /\ exists fees,
       mapSectionItems Sample.rt (prop Sample.group (str "items")) = Ok fees
       /\ List.length fees = 2%nat.
Proof.
  destruct (mappers_go_element_by_element Sample.rt
              (VArr [VObj [Sample.fld "amount"
                             (VObj [Sample.fld "toString" (Sample.s "x")])]])
              eq_refl)
    as (_ & _ & [_ Hthrow] & _).
  destruct (mappers_go_element_by_element Sample.rt VNull eq_refl)
    as (_ & _ & _ & _ & _ & _ & Hnull).
  destruct (mappers_go_element_by_element Sample.rt (Sample.s "none") eq_refl)
    as (_ & _ & _ & _ & _ & _ & Hstr).
  destruct (mappers_go_element_by_element Sample.rt
              (prop Sample.group (str "items")) eq_refl)
    as (_ & [_ Hex] & _ & _ & _ & Hlen & _).
  split; [exact (proj1 (Hnull eq_refl))|].
  split; [exact (proj2 (Hstr eq_refl))|].
  split; [exact (Hthrow eq_refl)|].
  destruct (Hex (conj eq_refl (conj eq_refl eq_refl))) as [fees Hfees].
  exists fees. split; [exact Hfees|].
  destruct (Hlen fees Hfees) as [H _]. exact H.
Defined.

(* ================================================================== *)
(** * Further properties of the formatters                             *)
(* ================================================================== *)

(** X14.  [formatCurrency] throws exactly when [Number(value)] does: on
    a record with a [toString] entry of its own and on an array that
    holds one (the fixed en-US formatter being available).  On every
    other value it returns, and what it returns is the argument itself or
    a string, which in turn has a text.  [formatDiscount] does the same
    as [formatCurrency] on every input. *)
Theorem formatCurrency_returns_argument_or_string rt v :
  has_fallback rt = true ->
  (prints v = true ->
   exists r, formatCurrency rt v = Ok r /\ (r = v \/ is_string r = true))
  /\ (prints v = false -> formatCurrency rt v = Throw)
  /\ (forall r, formatCurrency rt v = Ok r -> prints r = true)
  /\ formatDiscount rt v = formatCurrency rt v.
Proof.
  intros Hf. split; [|split; [|split; [|reflexivity]]].
  - intros Hp. rewrite formatCurrency_unfold, Hp. cbv zeta.
    destruct (isNaN _); [eauto|].
    destruct (has_fallback_formatter rt Hf) as [format ->]. eauto.
  - apply formatCurrency_throws.
  - intros r Hr. now apply formatCurrency_prints in Hr.
Qed.

Lemma formatCurrency_returns_argument_or_string_witness :
  formatCurrency Sample.rt (VObj [Sample.fld "toString" (Sample.s "x")])
  = Throw
  /\ formatDiscount Sample.rt (VArr [VObj [Sample.fld "toString" VNull]])
     = Throw
  /\ exists r, formatCurrency Sample.rt (VArr [VNull; Sample.num 3]) = Ok r.
Proof.
  split; [|split].
  - destruct (formatCurrency_returns_argument_or_string Sample.rt
                (VObj [Sample.fld "toString" (Sample.s "x")]) eq_refl)
      as (_ & H & _).
    apply H. reflexivity.
  - destruct (formatCurrency_returns_argument_or_string Sample.rt
                (VArr [VObj [Sample.fld "toString" VNull]]) eq_refl)
      as (_ & H & _ & Hd).
    rewrite Hd. apply H. reflexivity.
  - destruct (formatCurrency_returns_argument_or_string Sample.rt
                (VArr [VNull; Sample.num 3]) eq_refl) as (H & _).
    destruct (H eq_refl) as (r & Hr & _). eauto.
Defined.

(** ** Dates that are not what they seem *)

Lemma formatDate_renders rt format s tv :
  DateTimeFormat rt (locale rt) = Some format ->
  new_Date (LocalTZA rt) (nth 0 (date_parts s) None)
           (or_one (nth 1 (date_parts s) None) - 1)
           (or_one (nth 2 (date_parts s) None)) = Some tv ->
  formatDate rt (VStr s)
  = VStr (let '(year, month, day) := local_fields (LocalTZA rt) tv in
          format year month day).
Proof.
  intros Hf Hd. rewrite formatDate_string. cbv zeta. rewrite Hf, Hd.
  destruct (local_fields (LocalTZA rt) tv) as [[y m] d]. reflexivity.
Qed.

Lemma formatDate_invalid rt s :
  new_Date (LocalTZA rt) (nth 0 (date_parts s) None)
           (or_one (nth 1 (date_parts s) None) - 1)
           (or_one (nth 2 (date_parts s) None)) = None ->
  formatDate rt (VStr s) = VStr s.
Proof.
  intros Hd. rewrite formatDate_string. cbv zeta. rewrite Hd.
  destruct (DateTimeFormat rt (locale rt)); reflexivity.
Qed.

Lemma new_Date_two_digit tza y m d :
  0 <= y <= 99 -> new_Date tza (Some y) m d = new_Date tza (Some (1900 + y)) m d.
Proof.
  intros Hy. unfold new_Date, MakeFullYear.
  destruct (Z.leb_spec 0 y); [|lia]. destruct (Z.leb_spec y 99); [|lia].
  destruct (Z.leb_spec (1900 + y) 99); [lia|].
  now rewrite andb_false_r.
Qed.

(** X15.  A year from 0 to 99 is read as 1900 to 1999: for a string whose
    year part is such a number and whose month and day exist,
    [formatDate] renders the date in the twentieth century ("0050-03-07"
    comes out as March 7, 1950), at every UTC offset. *)
Theorem formatDate_two_digit_year rt format s y :
  DateTimeFormat rt (locale rt) = Some format ->
  Z.abs (LocalTZA rt) <= msPerDay ->
  nth 0 (date_parts s) None = Some y ->
  let m := or_one (nth 1 (date_parts s) None) in
  let d := or_one (nth 2 (date_parts s) None) in
  0 <= y <= 99 ->
  1 <= m <= 12 ->
  1 <= d <= days_in_month (InLeapYear (1900 + y)) (m - 1) ->
  formatDate rt (VStr s) = VStr (format (1900 + y) (m - 1) d).
Proof.
  intros Hf Htz Hy m d Hyr Hmr Hdr.
  destruct (new_Date_local_fields (LocalTZA rt) (1900 + y) (m - 1) d Htz
              ltac:(lia) ltac:(lia) Hdr) as (tv & Htv & Hfields).
  rewrite (formatDate_renders rt format s tv Hf).
  - now rewrite Hfields.
  - rewrite Hy. fold m d. now rewrite new_Date_two_digit.
Qed.

Lemma formatDate_two_digit_year_witness :
  formatDate Sample.rt (Sample.s "0050-03-07") = Sample.s "Mar 7, 1950".
Proof.
  unfold Sample.s.
  rewrite (formatDate_two_digit_year Sample.rt Sample.medium_date
             (str "0050-03-07") 50 eq_refl).
  - reflexivity.
  - vm_compute. discriminate.
  - reflexivity.
  - lia.
  - vm_compute. split; discriminate.
  - vm_compute. split; discriminate.
Defined.

Lemma month_start_next leap m :
  leap = 0 \/ leap = 1 -> 0 <= m <= 10 ->
  nth (Z.to_nat (m + 1)) (month_starts leap) 0
  = nth (Z.to_nat m) (month_starts leap) 0 + days_in_month leap m.
Proof.
  intros Hl Hm.
  assert (Hcases : m = 0 \/ m = 1 \/ m = 2 \/ m = 3 \/ m = 4 \/ m = 5
                   \/ m = 6 \/ m = 7 \/ m = 8 \/ m = 9 \/ m = 10) by lia.
  destruct Hl as [-> | ->];
    repeat (destruct Hcases as [-> | Hcases]); try subst m; reflexivity.
Qed.

Lemma MakeDay_small_month y m d :
  0 <= m <= 11 ->
  MakeDay y m d
  = DayFromYear y + nth (Z.to_nat m) (month_starts (InLeapYear y)) 0 + d - 1.
Proof.
  intros Hm. unfold MakeDay.
  now rewrite (Z.div_small m 12), (Z.mod_small m 12), !Z.add_0_r by lia.
Qed.

Lemma MakeDay_day_overflow y m k :
  0 <= m <= 10 ->
  MakeDay y m (days_in_month (InLeapYear y) m + k) = MakeDay y (m + 1) k.
Proof.
  intros Hm. rewrite !MakeDay_small_month by lia.
  rewrite (month_start_next _ m (InLeapYear_cases y) Hm). lia.
Qed.

Lemma MakeDay_december_overflow y k :
  MakeDay y 11 (31 + k) = MakeDay (y + 1) 0 k.
Proof.
  rewrite !MakeDay_small_month by lia.
  cbv [nth Z.to_nat Pos.to_nat Pos.iter_op Nat.add month_starts].
  unfold InLeapYear, DaysInYear. lia.
Qed.

Lemma MakeDay_month_overflow y m d :
  12 <= m <= 23 -> MakeDay y m d = MakeDay (y + 1) (m - 12) d.
Proof.
  intros Hm. rewrite (MakeDay_small_month (y + 1)) by lia. unfold MakeDay.
  replace (m / 12) with 1 by (Z.to_euclidean_division_equations; lia).
  replace (m mod 12) with (m - 12) by (Z.to_euclidean_division_equations; lia).
  reflexivity.
Qed.

Lemma new_Date_same_day tza y y' m m' d d' :
  100 <= y -> 100 <= y' -> MakeDay y m d = MakeDay y' m' d' ->
  new_Date tza (Some y) m d = new_Date tza (Some y') m' d'.
Proof.
  intros Hy Hy' H. unfold new_Date, MakeFullYear.
  destruct (Z.leb_spec y 99); [lia|]. destruct (Z.leb_spec y' 99); [lia|].
  rewrite !andb_false_r. now rewrite H.
Qed.

(** X16.  [formatDate] does not reject a day or a month that does not
    exist; it carries the excess over.  A day up to 28 past the end of
    its month is rendered as that many days into the following month
    (February 31 as March 3, or March 2 in a leap year; December 32 as
    January 1 of the next year), and a month number from 13 to 24 as the
    month twelve earlier in the next year. *)
Theorem formatDate_carries_over rt format s y :
  DateTimeFormat rt (locale rt) = Some format ->
  Z.abs (LocalTZA rt) <= msPerDay ->
  nth 0 (date_parts s) None = Some y ->
  100 <= y <= 199999 ->
  let m := or_one (nth 1 (date_parts s) None) in
  let d := or_one (nth 2 (date_parts s) None) in
  (1 <= m <= 12 ->
   let len := days_in_month (InLeapYear y) (m - 1) in
   len < d <= len + 28 ->
   formatDate rt (VStr s)
   = VStr (if m =? 12 then format (y + 1) 0 (d - len)
           else format y m (d - len)))
  /\ (13 <= m <= 24 ->
      1 <= d <= days_in_month (InLeapYear (y + 1)) (m - 13) ->
      formatDate rt (VStr s) = VStr (format (y + 1) (m - 13) d)).
Proof.
  intros Hf Htz Hy Hyr m d. split.
  - intros Hm len Hd.
    assert (Hshort : forall leap mo, (leap = 0 \/ leap = 1) -> 0 <= mo <= 11 ->
                                     28 <= days_in_month leap mo).
    { intros leap mo Hl Hmo.
      assert (Hc : mo = 0 \/ mo = 1 \/ mo = 2 \/ mo = 3 \/ mo = 4 \/ mo = 5
                   \/ mo = 6 \/ mo = 7 \/ mo = 8 \/ mo = 9 \/ mo = 10
                   \/ mo = 11) by lia.
      destruct Hl as [-> | ->];
        repeat (destruct Hc as [-> | Hc]); try subst mo;
        vm_compute; discriminate. }
    destruct (Z.eqb_spec m 12) as [H12 | H12].
    + assert (Hlen : len = 31) by (unfold len; rewrite H12; reflexivity).
      destruct (new_Date_local_fields (LocalTZA rt) (y + 1) 0 (d - len) Htz
                  ltac:(lia) ltac:(lia))
        as (tv & Htv & Hfields).
      { pose proof (Hshort (InLeapYear (y + 1)) 0
                      (InLeapYear_cases (y + 1)) ltac:(lia)). lia. }
      rewrite (formatDate_renders rt format s tv Hf).
      * now rewrite Hfields.
      * rewrite Hy. fold m d. rewrite <- Htv.
        apply new_Date_same_day; [lia|lia|].
        rewrite H12. change (12 - 1) with 11.
        replace d with (31 + (d - len)) at 1 by lia.
        apply MakeDay_december_overflow.
    + destruct (new_Date_local_fields (LocalTZA rt) y m (d - len) Htz
                  ltac:(lia) ltac:(lia))
        as (tv & Htv & Hfields).
      { pose proof (Hshort (InLeapYear y) m (InLeapYear_cases y) ltac:(lia)).
        lia. }
      rewrite (formatDate_renders rt format s tv Hf).
      * now rewrite Hfields.
      * rewrite Hy. fold m d. rewrite <- Htv.
        apply new_Date_same_day; [lia|lia|].
        replace d with (len + (d - len)) at 1 by lia.
        replace m with (m - 1 + 1) at 2 by lia.
        apply MakeDay_day_overflow. lia.
  - intros Hm Hd.
    destruct (new_Date_local_fields (LocalTZA rt) (y + 1) (m - 13) d Htz
                ltac:(lia) ltac:(lia) Hd) as (tv & Htv & Hfields).
    rewrite (formatDate_renders rt format s tv Hf).
    + now rewrite Hfields.
    + rewrite Hy. fold m d. rewrite <- Htv.
      apply new_Date_same_day; [lia|lia|].
      replace (m - 13) with (m - 1 - 12) by lia.
      apply MakeDay_month_overflow. lia.
Qed.

Lemma formatDate_carries_over_witness :
  formatDate Sample.rt (Sample.s "2025-02-31") = Sample.s "Mar 3, 2025"
  /\ formatDate Sample.rt (Sample.s "2025-13-01") = Sample.s "Jan 1, 2026".
Proof.
  unfold Sample.s. split.
  - destruct (formatDate_carries_over Sample.rt Sample.medium_date
                (str "2025-02-31") 2025 eq_refl) as [H _].
    + vm_compute. discriminate.
    + reflexivity.
    + lia.
    + rewrite H.
      * reflexivity.
      * vm_compute. split; discriminate.
      * vm_compute. split; [reflexivity|discriminate].
  - destruct (formatDate_carries_over Sample.rt Sample.medium_date
                (str "2025-13-01") 2025 eq_refl) as [_ H].
    + vm_compute. discriminate.
    + reflexivity.
    + lia.
    + rewrite H.
      * reflexivity.
      * vm_compute. split; discriminate.
      * vm_compute. split; discriminate.
Defined.

(** ** Reading the parts of a date string *)

Lemma split_on_run sep a cur t :
  ~ In sep a ->
  split_on sep cur (a ++ t) = split_on sep (rev a ++ cur) t.
Proof.
  revert cur; induction a as [|c a IH]; intros cur Hn; [reflexivity|].
  cbn [app split_on].
  destruct (N.eqb_spec c sep) as [-> | Hc]; [exfalso; apply Hn; now left|].
  rewrite IH by (intros H; apply Hn; now right).
  cbn [rev]. now rewrite <- app_assoc.
Qed.

Lemma split_on_head sep s cur :
  exists x rest, split_on sep cur s = (rev cur ++ x) :: rest.
Proof.
  revert cur; induction s as [|c s IH]; intros cur; cbn [split_on].
  - exists [], []. now rewrite app_nil_r.
  - destruct (N.eqb c sep).
    + exists [], (split_on sep [] s). now rewrite app_nil_r.
    + destruct (IH (c :: cur)) as (x & rest & ->).
      exists (c :: x), rest. cbn [rev]. now rewrite <- app_assoc.
Qed.

Lemma split_part sep a b :
  ~ In sep a -> split sep (a ++ sep :: b) = a :: split sep b.
Proof.
  intros Hn. unfold split. rewrite split_on_run by exact Hn.
  cbn [split_on]. rewrite N.eqb_refl, app_nil_r. now rewrite rev_involutive.
Qed.

Lemma split_last_part sep a t :
  ~ In sep a -> clean_tail t = true ->
  exists x rest, split sep (a ++ t) = (a ++ x) :: rest /\ clean_tail x = true.
Proof.
  intros Hn Ht. unfold split. rewrite split_on_run by exact Hn.
  rewrite app_nil_r. destruct t as [|c r]; cbn [split_on].
  - exists [], []. now rewrite rev_involutive, !app_nil_r.
  - destruct (N.eqb c sep).
    + exists [], (split_on sep [] r). now rewrite rev_involutive, !app_nil_r.
    + destruct (split_on_head sep r (c :: rev a)) as (x & rest & ->).
      exists (c :: x), rest. cbn [rev]. rewrite rev_involutive, <- app_assoc.
      split; [reflexivity|exact Ht].
Qed.

Ltac digit_cases c H :=
  unfold is_digit in H; apply andb_prop in H as [?Hlo ?Hhi];
  apply N.leb_le in Hlo; apply N.leb_le in Hhi;
  assert (c = 48 \/ c = 49 \/ c = 50 \/ c = 51 \/ c = 52 \/ c = 53
          \/ c = 54 \/ c = 55 \/ c = 56 \/ c = 57)%N as Hcases by lia;
  clear Hlo Hhi;
  repeat (destruct Hcases as [-> | Hcases]); [.. | subst c].

Lemma digit_facts c :
  is_digit c = true ->
  is_space c = false
  /\ parse_sign (c :: nil) = (false, c :: nil)
  /\ digit_val 10 c = Some (c - 48)%N
  /\ c <> hyphen.
Proof. intros H. digit_cases c H; repeat split; discriminate. Qed.

Lemma parse_sign_digit c r :
  is_digit c = true -> parse_sign (c :: r) = (false, c :: r).
Proof. intros H. digit_cases c H; reflexivity. Qed.

Lemma not_digit_val c : is_digit c = false -> digit_val 10 c = None.
Proof.
  unfold is_digit, digit_val. intros H. rewrite H.
  destruct (N.leb_spec 97 c); destruct (N.leb_spec c 122); cbn [andb].
  - destruct (N.ltb_spec (c - 87) 10); [lia|reflexivity].
  - destruct (N.leb_spec 65 c); destruct (N.leb_spec c 90); cbn [andb];
      try reflexivity. lia.
  - destruct (N.leb_spec 65 c); destruct (N.leb_spec c 90); cbn [andb];
      try reflexivity.
    destruct (N.ltb_spec (c - 55) 10); [lia|reflexivity].
  - destruct (N.leb_spec 65 c); destruct (N.leb_spec c 90); cbn [andb];
      try reflexivity.
    destruct (N.ltb_spec (c - 55) 10); [lia|reflexivity].
Qed.

Lemma span_digits_run d x :
  forallb is_digit d = true -> clean_tail x = true ->
  span_digits 10 (d ++ x) = (map (fun c => (c - 48)%N) d, x).
Proof.
  intros Hd Hx. induction d as [|c d IH]; cbn [app map].
  - destruct x as [|c r]; [reflexivity|]. cbn [span_digits].
    cbn [clean_tail] in Hx. apply negb_true_iff in Hx.
    now rewrite (not_digit_val c Hx).
  - cbn [forallb] in Hd. apply andb_prop in Hd as [Hc Hd].
    cbn [span_digits]. destruct (digit_facts c Hc) as (_ & _ & -> & _).
    now rewrite (IH Hd).
Qed.

Lemma parseInt10_digits d x :
  all_digits d = true -> clean_tail x = true ->
  parseInt10 (d ++ x) = Some (number_of d).
Proof.
  unfold all_digits. destruct d as [|c d]; [discriminate|]. intros Hd Hx.
  assert (Hc : is_digit c = true)
    by (cbn [forallb] in Hd; now apply andb_prop in Hd as [Hc _]).
  unfold parseInt10. cbn [app trim_start].
  destruct (digit_facts c Hc) as (-> & _ & _ & _).
  rewrite (parse_sign_digit c _ Hc).
  change (c :: d ++ x) with ((c :: d) ++ x).
  rewrite (span_digits_run (c :: d) x Hd Hx). reflexivity.
Qed.

Lemma digits_no_hyphen d : forallb is_digit d = true -> ~ In hyphen d.
Proof.
  intros Hd Hin. rewrite forallb_forall in Hd. specialize (Hd _ Hin).
  discriminate.
Qed.

Lemma all_digits_forallb d : all_digits d = true -> forallb is_digit d = true.
Proof. unfold all_digits. destruct d; [discriminate|auto]. Qed.

(** The first three parts of digits-digits-digits followed by a tail that
    does not go on with a digit. *)
Lemma date_parts_iso ys ms ds tail :
  all_digits ys = true -> all_digits ms = true -> all_digits ds = true ->
  clean_tail tail = true ->
  let s := ys ++ hyphen :: ms ++ hyphen :: ds ++ tail in
  nth 0 (date_parts s) None = Some (number_of ys)
  /\ nth 1 (date_parts s) None = Some (number_of ms)
  /\ nth 2 (date_parts s) None = Some (number_of ds).
Proof.
  intros Hy Hm Hd Ht s. unfold s, date_parts.
  rewrite split_part by (apply digits_no_hyphen, all_digits_forallb, Hy).
  rewrite split_part by (apply digits_no_hyphen, all_digits_forallb, Hm).
  destruct (split_last_part hyphen ds tail
              (digits_no_hyphen ds (all_digits_forallb ds Hd)) Ht)
    as (x & rest & -> & Hx).
  cbn [map nth].
  rewrite <- (app_nil_r ys) at 1. rewrite <- (app_nil_r ms) at 1.
  rewrite !parseInt10_digits by auto. auto.
Qed.

(** X17.  A date written as digits, hyphen, digits, hyphen, digits, and
    then nothing or anything that does not go on with a digit (a time of
    day, a zone suffix), is read by the decimal values of the three runs
    of digits, leading zeros and what follows the day ignored; when that
    date exists, from the year 100 on, it is the date rendered, at every
    UTC offset.  So an ISO date-time such as "2025-01-05T23:30:00Z" shows
    January 5, 2025 whatever the zone. *)
Theorem formatDate_iso_with_suffix rt format ys ms ds tail :
  DateTimeFormat rt (locale rt) = Some format ->
  Z.abs (LocalTZA rt) <= msPerDay ->
  all_digits ys = true -> all_digits ms = true -> all_digits ds = true ->
  clean_tail tail = true ->
  100 <= number_of ys <= 200000 ->
  1 <= number_of ms <= 12 ->
  1 <= number_of ds
    <= days_in_month (InLeapYear (number_of ys)) (number_of ms - 1) ->
  formatDate rt (VStr (ys ++ hyphen :: ms ++ hyphen :: ds ++ tail))
  = VStr (format (number_of ys) (number_of ms - 1) (number_of ds)).
Proof.
  intros Hf Htz Hy Hm Hd Ht Hyr Hmr Hdr.
  destruct (date_parts_iso ys ms ds tail Hy Hm Hd Ht) as (P0 & P1 & P2).
  assert (Hone : forall z, 1 <= z -> or_one (Some z) = z).
  { intros z Hz. unfold or_one. destruct (Z.eqb_spec z 0); [lia|reflexivity]. }
  apply (formatDate_fields rt format _ (number_of ys) (number_of ms)
           (number_of ds)); auto.
  - rewrite P1. apply Hone. lia.
  - rewrite P2. apply Hone. lia.
Qed.

Lemma formatDate_iso_with_suffix_witness :
  formatDate Sample.rt (Sample.s "2025-01-05T23:30:00Z")
  = Sample.s "Jan 5, 2025".
Proof.
  unfold Sample.s.
  change (str "2025-01-05T23:30:00Z")
    with (str "2025" ++ hyphen :: str "01" ++ hyphen :: str "05"
          ++ str "T23:30:00Z").
  rewrite (formatDate_iso_with_suffix Sample.rt Sample.medium_date
             (str "2025") (str "01") (str "05") (str "T23:30:00Z") eq_refl).
  - reflexivity.
  - vm_compute. discriminate.
  - reflexivity.
  - reflexivity.
  - reflexivity.
  - reflexivity.
  - vm_compute. split; discriminate.
  - vm_compute. split; discriminate.
  - vm_compute. split; discriminate.
Defined.

Lemma parse_sign_cases c r :
  parse_sign (c :: r)
  = if N.eqb c 43 then (false, r)
    else if N.eqb c 45 then (true, r)
    else (false, c :: r).
Proof.
  destruct c as [|p]; [reflexivity|].
  do 6 (destruct p as [p|p|]; try reflexivity).
Qed.

Lemma In_trim_start c s : In c (trim_start s) -> In c s.
Proof.
  induction s as [|x s IH]; cbn [trim_start]; [auto|].
  destruct (is_space x); [|auto]. intros H. right. auto.
Qed.

Lemma parseInt10_nonneg s z :
  ~ In hyphen s -> parseInt10 s = Some z -> 0 <= z.
Proof.
  intros Hn. unfold parseInt10.
  assert (Ht : ~ In hyphen (trim_start s))
    by (intros H; apply Hn; now apply In_trim_start).
  destruct (trim_start s) as [|c r].
  - cbn. discriminate.
  - rewrite parse_sign_cases.
    destruct (N.eqb_spec c 43).
    + destruct (span_digits 10 r) as [[|d ds] rest]; [discriminate|].
      intros H; injection H as <-. lia.
    + destruct (N.eqb_spec c 45) as [-> | _]; [exfalso; apply Ht; now left|].
      destruct (span_digits 10 (c :: r)) as [[|d ds] rest]; [discriminate|].
      intros H; injection H as <-. lia.
Qed.

Lemma split_on_parts sep s cur :
  ~ In sep cur -> Forall (fun p => ~ In sep p) (split_on sep cur s).
Proof.
  revert cur; induction s as [|c s IH]; intros cur Hn; cbn [split_on].
  - constructor; [|constructor]. now rewrite <- in_rev.
  - destruct (N.eqb_spec c sep) as [-> | Hc].
    + constructor; [now rewrite <- in_rev|]. apply IH. auto.
    + apply IH. intros [-> | H]; auto.
Qed.

Lemma date_parts_nonneg s i z : nth i (date_parts s) None = Some z -> 0 <= z.
Proof.
  unfold date_parts.
  change (@None Z) with (parseInt10 []). rewrite map_nth.
  apply parseInt10_nonneg.
  pose proof (split_on_parts hyphen s [] (fun H => H)) as Hparts.
  rewrite Forall_forall in Hparts.
  destruct (nth_in_or_default i (split hyphen s) []) as [Hin | ->]; auto.
Qed.

Lemma or_one_part_positive s i : 1 <= or_one (nth i (date_parts s) None).
Proof.
  destruct (nth i (date_parts s) None) as [z|] eqn:Hz; cbn [or_one]; [|lia].
  apply date_parts_nonneg in Hz.
  destruct (Z.eqb_spec z 0); lia.
Qed.

Lemma month_start_nonneg leap n :
  leap = 0 \/ leap = 1 -> 0 <= nth n (month_starts leap) 0.
Proof.
  intros [-> | ->]; do 13 (destruct n as [|n]; [vm_compute; discriminate|]);
    destruct n; vm_compute; discriminate.
Qed.

(** X18.  [formatDate] never fails on a number it cannot turn into a date:
    every part it reads is a non-negative integer, the month and day it
    uses are at least 1, and when the year part is 300000 or more, past
    what a Date can hold, the input comes back unchanged, whatever month
    and day follow and at every UTC offset. *)
Theorem formatDate_year_out_of_range rt s y :
  Z.abs (LocalTZA rt) <= msPerDay ->
  nth 0 (date_parts s) None = Some y ->
  (forall i z, nth i (date_parts s) None = Some z -> 0 <= z)
  /\ 1 <= or_one (nth 1 (date_parts s) None)
  /\ 1 <= or_one (nth 2 (date_parts s) None)
  /\ (300000 <= y -> formatDate rt (VStr s) = VStr s).
Proof.
  intros Htz Hy.
  pose proof (or_one_part_positive s 1) as Hm.
  pose proof (or_one_part_positive s 2) as Hd.
  split; [intros i z; apply date_parts_nonneg|].
  split; [exact Hm|]. split; [exact Hd|].
  intros Hbig. apply formatDate_invalid. rewrite Hy.
  set (m := or_one (nth 1 (date_parts s) None) - 1) in *.
  set (d := or_one (nth 2 (date_parts s) None)) in *.
  unfold new_Date, MakeFullYear.
  destruct (Z.leb_spec y 99); [lia|]. rewrite andb_false_r.
  unfold TimeClip, UTC, MakeDate, MakeDay.
  pose proof (month_start_nonneg (InLeapYear (y + m / 12))
                (Z.to_nat (m mod 12)) (InLeapYear_cases _)) as Hstart.
  assert (Hdiv : 0 <= m / 12) by (apply Z.div_pos; lia).
  pose proof (DayFromYear_mono 300000 (y + m / 12) ltac:(lia)) as Hmono.
  change (DayFromYear 300000) with 108853222 in Hmono.
  match goal with
  | |- (if ?a <=? ?b then _ else _) = _ =>
      destruct (Z.leb_spec a b) as [Hle|]; [|reflexivity]
  end.
  exfalso. unfold msPerDay in *. lia.
Qed.

Lemma formatDate_year_out_of_range_witness :
  formatDate Sample.rt (Sample.s "300000-01-01") = Sample.s "300000-01-01".
Proof.
  destruct (formatDate_year_out_of_range Sample.rt (str "300000-01-01")
              300000) as (_ & _ & _ & H).
  - vm_compute. discriminate.
  - reflexivity.
  - apply H. lia.
Defined.

(* ================================================================== *)
(** * Further properties of the error message and of the row links     *)
(* ================================================================== *)

(** X19.  What [normalizeError] returns when [body] is not an array is
    never empty: it is a truthy message, a truthy status text or
    "Unknown error".  When [body] is an array the result is always a
    string, the empty one for an empty array and for sub-errors that have
    no message.  It throws exactly when the array holds a [null] or an
    [undefined], or a sub-error whose message is there and has no text
    (a record with a [toString] entry of its own, or an array that holds
    one). *)
Theorem normalizeError_result rt err :
  let body := get_opt err (str "body") in
  (isArray body = false ->
   exists message,
     normalizeError rt err = Ok message /\ ToBoolean message = true)
  /\ (isArray body = true ->
      (normalizeError rt err = Throw
       <-> forallb joinable (array_or_empty body) = false)
      /\ forall message,
          normalizeError rt err = Ok message -> is_string message = true)
  /\ (body = VArr [] -> normalizeError rt err = Ok (VStr []))
  /\ (forall subs,
        body = VArr subs ->
        Forall (fun e => nullish e = false
                         /\ nullish (prop e (str "message")) = true) subs ->
        subs <> [] ->
        normalizeError rt err
        = Ok (VStr (join_strings (str ", ") (map (fun _ => []) subs)))).
Proof.
  intros body. split; [|split; [|split]].
  - intros Ha. rewrite (normalizeError_not_array rt err Ha). fold body.
    eexists; split; [reflexivity|]. cbv zeta.
    destruct (ToBoolean (get_opt body (str "message"))) eqn:Hm; [exact Hm|].
    unfold or_else.
    destruct (ToBoolean (get_opt err (str "statusText"))) eqn:Hs;
      [exact Hs|reflexivity].
  - intros Ha. split.
    + split; [apply normalizeError_throws|].
      intros Hn. destruct (normalizeError rt err) as [m|] eqn:Hm;
        [|reflexivity].
      apply normalizeError_returns in Hm. fold body in Hm. congruence.
    + intros message. unfold normalizeError. fold body.
      destruct body; try discriminate.
      destruct (mapM _ elems); [|discriminate]. cbn [bind].
      destruct (join _ _ _); [|discriminate].
      intros H; injection H as <-. reflexivity.
  - intros Hb. unfold normalizeError. fold body. rewrite Hb. reflexivity.
  - intros subs Hb Hall Hne.
    assert (Hn : forallb joinable subs = true).
    { apply forallb_forall. intros e He. unfold joinable.
      rewrite Forall_forall in Hall. destruct (Hall e He) as [-> ->].
      reflexivity. }
    rewrite (normalizeError_array rt err subs Hb), Hn. unfold joined.
    rewrite map_map. do 3 f_equal.
    apply map_ext_in. intros e He.
    rewrite Forall_forall in Hall. destruct (Hall e He) as [_ ->].
    reflexivity.
Qed.

Lemma normalizeError_result_witness :
  (exists message,
      normalizeError Sample.rt (Sample.s "timeout") = Ok message
      /\ ToBoolean message = true)
  /\ normalizeError Sample.rt (VObj [Sample.fld "body" (VArr [])])
     = Ok (VStr [])
  /\ normalizeError Sample.rt (VObj [Sample.fld "body" (VArr [VNull])])
     = Throw
  /\ normalizeError Sample.rt
       (VObj [Sample.fld "body"
                (VArr [VObj [Sample.fld "message"
                               (VObj [Sample.fld "toString"
                                        (Sample.s "x")])]])])
     = Throw.
Proof.
  split; [|split; [|split]].
  - destruct (normalizeError_result Sample.rt (Sample.s "timeout"))
      as (H & _).
    apply H. reflexivity.
  - destruct (normalizeError_result Sample.rt
                (VObj [Sample.fld "body" (VArr [])])) as (_ & _ & H & _).
    apply H. reflexivity.
  - destruct (normalizeError_result Sample.rt
                (VObj [Sample.fld "body" (VArr [VNull])]))
      as (_ & H & _).
    destruct (H eq_refl) as [[_ Hthrow] _]. apply Hthrow. reflexivity.
  - destruct (normalizeError_result Sample.rt
                (VObj [Sample.fld "body"
                         (VArr [VObj [Sample.fld "message"
                                        (VObj [Sample.fld "toString"
                                                 (Sample.s "x")])]])]))
      as (_ & H & _).
    destruct (H eq_refl) as [[_ Hthrow] _]. apply Hthrow. reflexivity.
Defined.

(** X20.  A click on a row navigates only when the clicked element
    carries a record id: [handleRowLinkClick] asks for the standard
    record page of that id, for the object TREX1__Billing_Schedule__c and
    the action "view", when [event.currentTarget.dataset.recordId] is
    truthy, and asks for nothing when the id is empty or missing or when
    the event has no target or the target no dataset.  Only a [null] or
    [undefined] event makes it throw. *)
Theorem handleRowLinkClick_needs_a_record_id event :
  let recId :=
    get_opt (get_opt (prop event (str "currentTarget")) (str "dataset"))
            (str "recordId") in
  (handleRowLinkClick event = Throw <-> nullish event = true)
  /\ (nullish event = false ->
      (handleRowLinkClick event = Ok None <-> ToBoolean recId = false)
      /\ forall request,
          handleRowLinkClick event = Ok (Some request) <->
          ToBoolean recId = true
          /\ request
             = {| PageReference.type := str "standard__recordPage";
                  PageReference.recordId := recId;
                  PageReference.objectApiName :=
                    str "TREX1__Billing_Schedule__c";
                  PageReference.actionName := str "view" |}).
Proof.
  intros recId. unfold handleRowLinkClick, get.
  destruct (nullish event) eqn:Hn; cbn [bind].
  - split; [split; auto|discriminate].
  - fold recId. destruct (ToBoolean recId) eqn:Hr; cbn [negb].
    + split; [split; discriminate|]. intros _.
      split; [split; discriminate|].
      intros request. split.
      * intros H; injection H as <-. auto.
      * intros [_ ->]. reflexivity.
    + split; [split; discriminate|]. intros _.
      split; [split; auto|].
      intros request. split; [discriminate|]. intros [H _]. discriminate.
Qed.

Lemma handleRowLinkClick_needs_a_record_id_witness :
  handleRowLinkClick
    (VObj [Sample.fld "currentTarget"
             (VObj [Sample.fld "dataset"
                      (VObj [Sample.fld "recordId" (Sample.s "F1")])])])
  = Ok (Some {| PageReference.type := str "standard__recordPage";
                PageReference.recordId := Sample.s "F1";
                PageReference.objectApiName :=
                  str "TREX1__Billing_Schedule__c";
                PageReference.actionName := str "view" |})
  /\ handleRowLinkClick (VObj [Sample.fld "currentTarget" VNull]) = Ok None.
Proof.
  split.
  - destruct (handleRowLinkClick_needs_a_record_id
                (VObj [Sample.fld "currentTarget"
                         (VObj [Sample.fld "dataset"
                                  (VObj [Sample.fld "recordId"
                                           (Sample.s "F1")])])]))
      as (_ & H).
    destruct (H eq_refl) as [_ Hreq]. apply Hreq. split; reflexivity.
  - destruct (handleRowLinkClick_needs_a_record_id
                (VObj [Sample.fld "currentTarget" VNull])) as (_ & H).
    destruct (H eq_refl) as [Hnone _]. apply Hnone. reflexivity.
Defined.

(* ================================================================== *)
(** * Further properties of the display group                          *)
(* ================================================================== *)

(** X21.  What [mapGroup] puts in a display group, field by field.  The
    identifiers, the name and the description are the raw ones.  Each of
    the three totals is formatted from its own raw field and from nothing
    else.  [nextDate] is [null] when the raw date is missing or empty and
    what [formatDate] makes of it otherwise, never [undefined].  The
    accordion label is "Details: ", three no-break spaces, "Fees ", the
    text of the fee total, three no-break spaces, a middle dot, three
    no-break spaces, "Discounts " and the text of the discount total; a
    total that is missing from the raw group is passed through as
    [undefined] and reads "undefined" in the label. *)
Theorem mapGroup_fields rt g mapped :
  mapGroup rt g = Ok mapped ->
  let pad := repeat nbsp 3 in
  Group.id mapped = prop g (str "sectionId")
  /\ Group.groupId mapped = prop g (str "billingScheduleGroupId")
  /\ Group.name mapped = prop g (str "billingScheduleGroupName")
  /\ Group.tliDescription mapped = prop g (str "tliDescription")
  /\ formatCurrency rt (prop g (str "feeTotal")) = Ok (Group.feeTotal mapped)
  /\ formatDiscount rt (prop g (str "discountTotal"))
     = Ok (Group.discountTotal mapped)
  /\ formatCurrency rt (prop g (str "netTotal")) = Ok (Group.netTotal mapped)
  /\ mapPaymentMethod (prop g (str "paymentMethod"))
     = Ok (Group.paymentMethod mapped)
  /\ Group.nextDate mapped
     = (if ToBoolean (prop g (str "nextBillingDate"))
        then formatDate rt (prop g (str "nextBillingDate"))
        else VNull)
  /\ Group.nextDate mapped <> VUndef
  /\ (exists fees discounts,
        subst rt (Group.feeTotal mapped) = Ok fees
        /\ subst rt (Group.discountTotal mapped) = Ok discounts
        /\ Group.accordionLabel mapped
           = str "Details: " ++ pad ++ str "Fees " ++ fees
             ++ pad ++ [middle_dot] ++ pad ++ str "Discounts " ++ discounts)
  /\ (prop g (str "feeTotal") = VUndef ->
      Group.feeTotal mapped = VUndef
      /\ subst rt (Group.feeTotal mapped) = Ok (str "undefined"))
  /\ (prop g (str "discountTotal") = VUndef ->
      Group.discountTotal mapped = VUndef
      /\ subst rt (Group.discountTotal mapped) = Ok (str "undefined")).
Proof.
  unfold mapGroup, get. destruct (nullish g); [discriminate|]. cbn [bind].
  destruct (formatCurrency rt (prop g (str "feeTotal"))) as [ft|] eqn:Hft;
    cbn [bind]; [|discriminate].
  destruct (formatDiscount rt (prop g (str "discountTotal"))) as [dt|] eqn:Hdt;
    cbn [bind]; [|discriminate].
  destruct (formatCurrency rt (prop g (str "netTotal"))) as [nt|] eqn:Hnt;
    cbn [bind]; [|discriminate].
  destruct (mapPaymentMethod (prop g (str "paymentMethod"))) as [pm|] eqn:Hpm;
    cbn [bind]; [|discriminate].
  destruct (mapSectionItems rt (prop g (str "items"))) as [items|];
    cbn [bind]; [|discriminate].
  destruct (mapDiscounts rt (prop g (str "miscDiscounts"))) as [misc|];
    cbn [bind]; [|discriminate].
  destruct (buildDetailRows rt _) as [rows|]; cbn [bind]; [|discriminate].
  cbn [Group.feeTotal Group.discountTotal Group.set_detailRows].
  destruct (subst rt ft) as [fees|] eqn:Hsf; cbn [bind]; [|discriminate].
  destruct (subst rt dt) as [discounts|] eqn:Hsd; cbn [bind]; [|discriminate].
  intros H; injection H as <-. try intros pad.
  cbn [Group.id Group.groupId Group.name Group.tliDescription Group.feeTotal
       Group.discountTotal Group.netTotal Group.paymentMethod Group.nextDate
       Group.accordionLabel Group.set_accordionLabel Group.set_detailRows].
  do 9 (split; [reflexivity|]).
  split; [|split; [|split]].
  - destruct (ToBoolean (prop g (str "nextBillingDate"))) eqn:Hb;
      [|discriminate].
    intros Hu. unfold formatDate, try_catch in Hu.
    destruct (formatDate_try rt (prop g (str "nextBillingDate"))) as [r|] eqn:Hr.
    + subst r. unfold formatDate_try in Hr.
      destruct (or_else _ _); cbn [bind] in Hr; try discriminate.
      destruct (DateTimeFormat rt (locale rt)); cbn [bind] in Hr;
        [|discriminate].
      destruct (new_Date _ _ _ _); cbn [bind] in Hr; [|discriminate].
      destruct (local_fields _ _) as [[? ?] ?]. discriminate.
    + rewrite Hu in Hb. discriminate.
  - exists fees, discounts. repeat split; assumption.
  - intros H. rewrite H in Hft. cbn in Hft. injection Hft as <-.
    split; reflexivity.
  - intros H. rewrite H in Hdt. cbn in Hdt. injection Hdt as <-.
    split; reflexivity.
Qed.

Lemma mapGroup_fields_witness :
  exists mapped,
    mapGroup Sample.rt (VObj [Sample.fld "discountTotal" VNull]) = Ok mapped
    /\ Group.nextDate mapped = VNull
    /\ Group.accordionLabel mapped
       = str "Details: " ++ repeat nbsp 3 ++ str "Fees undefined"
         ++ repeat nbsp 3 ++ [middle_dot] ++ repeat nbsp 3
         ++ str "Discounts $0.00".
Proof.
  destruct (mapGroup Sample.rt (VObj [Sample.fld "discountTotal" VNull]))
    as [mapped|] eqn:Hm; [|vm_compute in Hm; discriminate].
  exists mapped. split; [reflexivity|].
  destruct (mapGroup_fields Sample.rt _ mapped Hm)
    as (_ & _ & _ & _ & _ & _ & _ & _ & Hnext & _
        & (fees & discounts & Hfees & Hdiscounts & Hlabel) & _).
  split; [exact Hnext|].
  etransitivity; [exact Hlabel|].
  vm_compute in Hm. injection Hm as <-.
  vm_compute in Hfees, Hdiscounts.
  injection Hfees as <-. injection Hdiscounts as <-. reflexivity.
Defined.
